(** * paper-reader skill: chunk_paper.py, analyze_code.py and
      download_paper.py

    A shallow embedding of the three scripts of the paper-reader skill
    (references/chunk_paper.py, references/analyze_code.py and
    references/download_paper.py) and the properties of their classifiers,
    packers, manifest writers, file filters and download loop.

    Python [str] values are modelled as lists of characters.  A character is
    a code point in the range 0..255 (the Latin-1 slice of Unicode), carried
    by the Standard Library's [ascii]; text with code points above 255 is
    outside the model.  Python [int] values that can be negative (the
    [--max-tokens] argument, token sums compared with it) are modelled in
    [Z]; lengths, offsets, indices and priorities in [nat]. *)

From Stdlib Require Import Ascii String.
From Stdlib Require Import List ZArith Lia Bool Arith PeanoNat.
From Stdlib Require Import Permutation Sorted.
From Stdlib Require Import Numbers.DecimalString.
From Stdlib Require Numbers.DecimalNat.
Import ListNotations.

(* ================================================================== *)
(** * Python strings *)
(* ================================================================== *)

Module PyStr.

Definition str := list ascii.

(** A Rocq string literal as a Python string. *)
Definition py (s : string) : str := list_ascii_of_string s.

Definition code (c : ascii) : nat := nat_of_ascii c.

Definition NL : ascii := ascii_of_nat 10.

Definition is_nl (c : ascii) : bool := Nat.eqb (code c) 10.

Fixpoint str_eqb (a b : str) : bool :=
  match a, b with
  | [], [] => true
  | x :: a', y :: b' => Ascii.eqb x y && str_eqb a' b'
  | _, _ => false
  end.

(** [str.isspace] on one character, for code points below 256:
    TAB..CR, FS..US, SPACE, NEL (0x85) and NBSP (0xA0). *)
Definition is_space (c : ascii) : bool :=
  let n := code c in
  ((9 <=? n) && (n <=? 13)) || ((28 <=? n) && (n <=? 32))
  || (n =? 133) || (n =? 160).

(** Unicode decimal digits (category Nd) below 256: only 0..9. *)
Definition is_digit (c : ascii) : bool :=
  let n := code c in (48 <=? n) && (n <=? 57).

(** Characters matched by [\w]: alphanumeric ([str.isalnum]) or underscore,
    for code points below 256. *)
Definition is_word (c : ascii) : bool :=
  let n := code c in
  is_digit c
  || ((65 <=? n) && (n <=? 90)) || ((97 <=? n) && (n <=? 122))
  || (n =? 95)
  || (n =? 170) || (n =? 178) || (n =? 179) || (n =? 181)
  || (n =? 185) || (n =? 186) || ((188 <=? n) && (n <=? 190))
  || ((192 <=? n) && (n <=? 214)) || ((216 <=? n) && (n <=? 246))
  || ((248 <=? n) && (n <=? 255)).

(** [str.lower] on one character, for code points below 256. *)
Definition lower_char (c : ascii) : ascii :=
  let n := code c in
  if ((65 <=? n) && (n <=? 90))
     || ((192 <=? n) && (n <=? 214)) || ((216 <=? n) && (n <=? 222))
  then ascii_of_nat (n + 32) else c.

Definition lower (s : str) : str := map lower_char s.

(** The truth value of a string or list: true when it is not empty. *)
Definition truthy {A} (l : list A) : bool :=
  match l with [] => false | _ => true end.

(** [s.lstrip()], [s.rstrip()], [s.strip()] *)
Fixpoint lstrip (s : str) : str :=
  match s with
  | [] => []
  | c :: t => if is_space c then lstrip t else s
  end.

Definition rstrip (s : str) : str := rev (lstrip (rev s)).

Definition strip (s : str) : str := rstrip (lstrip s).

(** [s[a:b]] for non-negative [a] and [b]. *)
Definition slice (s : str) (a b : nat) : str := firstn (b - a) (skipn a s).

(** [s.find('\n', start)]: [None] stands for the result -1. *)
Fixpoint find_nl_from (s : str) (pos : nat) : option nat :=
  match s with
  | [] => None
  | c :: t => if is_nl c then Some pos else find_nl_from t (S pos)
  end.

Definition find_nl (s : str) (start : nat) : option nat :=
  find_nl_from (skipn start s) start.

(** [a.startswith(p)] *)
Fixpoint starts_with (p a : str) : bool :=
  match p, a with
  | [], _ => true
  | x :: p', y :: a' => Ascii.eqb x y && starts_with p' a'
  | _ :: _, [] => false
  end.

(** [s.split(sep)] for a non-empty separator: cut at the non-overlapping
    occurrences of [sep], scanning from the left.  [skip] counts the
    characters of an occurrence still to be dropped. *)
Fixpoint split_go (sep : str) (skip : nat) (s : str) : list str :=
  match s with
  | [] => [[]]
  | c :: t =>
      match skip with
      | S k => split_go sep k t
      | O =>
          if starts_with sep s
          then [] :: split_go sep (length sep - 1) t
          else match split_go sep 0 t with
               | p :: ps => (c :: p) :: ps
               | [] => [[c]]
               end
      end
  end.

Definition split (sep s : str) : list str := split_go sep 0 s.

(** [a.endswith(p)] *)
Definition ends_with (p a : str) : bool := starts_with (rev p) (rev a).

(** [s.replace(old, new)] for a non-empty [old]. *)
Fixpoint replace_go (old new : str) (skip : nat) (s : str) : str :=
  match s with
  | [] => []
  | c :: t =>
      match skip with
      | S k => replace_go old new k t
      | O =>
          if starts_with old s
          then new ++ replace_go old new (length old - 1) t
          else c :: replace_go old new 0 t
      end
  end.

Definition replace (old new s : str) : str := replace_go old new 0 s.

(** [sep.join(parts)] *)
Fixpoint join (sep : str) (parts : list str) : str :=
  match parts with
  | [] => []
  | [p] => p
  | p :: ps => p ++ sep ++ join sep ps
  end.

(** [s.split()] with no argument: the maximal runs of non-space characters. *)
Fixpoint words_go (cur : str) (s : str) : list str :=
  match s with
  | [] => match cur with [] => [] | _ => [rev cur] end
  | c :: t =>
      if is_space c
      then match cur with
           | [] => words_go [] t
           | _ => rev cur :: words_go [] t
           end
      else words_go (c :: cur) t
  end.

Definition words (s : str) : list str := words_go [] s.

(** [str(n)] for a non-negative integer. *)
Definition str_of_nat (n : nat) : str :=
  py (NilZero.string_of_uint (Nat.to_uint n)).

(** [f"{n:02d}"] for a non-negative integer. *)
Definition fmt_02d (n : nat) : str :=
  if n <? 10 then py "0" ++ str_of_nat n else str_of_nat n.

(** [c * n] for a one-character string [c]. *)
Definition repeat_char (c : ascii) (n : nat) : str := repeat c n.

(** Lexicographic order of Python strings by code point: [a < b]. *)
Fixpoint str_ltb (a b : str) : bool :=
  match a, b with
  | _, [] => false
  | [], _ :: _ => true
  | x :: a', y :: b' =>
      (code x <? code y) || ((code x =? code y) && str_ltb a' b')
  end.

End PyStr.

Import PyStr.

(* ================================================================== *)
(** * The fragment of Python's [re] used by the two scripts *)
(* ================================================================== *)

(** None of the patterns of the scripts has a back-reference or a
    look-around, so whether [re.match] or [re.search] succeeds is a
    question of membership in a regular language; it is decided here with
    Brzozowski derivatives. *)

Module Re.

Inductive regex : Type :=
| Nul : regex                              (* matches nothing *)
| Eps : regex                              (* the empty string *)
| Cls : (ascii -> bool) -> regex           (* one character of a class *)
| Cat : regex -> regex -> regex
| Alt : regex -> regex -> regex
| Star : regex -> regex.

Fixpoint nullable (r : regex) : bool :=
  match r with
  | Nul => false
  | Eps => true
  | Cls _ => false
  | Cat a b => nullable a && nullable b
  | Alt a b => nullable a || nullable b
  | Star _ => true
  end.

Definition cat (a b : regex) : regex :=
  match a, b with
  | Nul, _ => Nul
  | _, Nul => Nul
  | Eps, _ => b
  | _, _ => Cat a b
  end.

Definition alt (a b : regex) : regex :=
  match a, b with
  | Nul, _ => b
  | _, Nul => a
  | _, _ => Alt a b
  end.

Fixpoint deriv (c : ascii) (r : regex) : regex :=
  match r with
  | Nul => Nul
  | Eps => Nul
  | Cls p => if p c then Eps else Nul
  | Cat a b =>
      if nullable a
      then alt (cat (deriv c a) b) (deriv c b)
      else cat (deriv c a) b
  | Alt a b => alt (deriv c a) (deriv c b)
  | Star a => cat (deriv c a) (Star a)
  end.

(** [re.fullmatch(r, s) is not None] *)
Fixpoint fullmatch (r : regex) (s : str) : bool :=
  match s with
  | [] => nullable r
  | c :: t => fullmatch (deriv c r) t
  end.

(** [re.match(r, s) is not None]: some prefix of [s] is in the language. *)
Fixpoint rmatch (r : regex) (s : str) : bool :=
  nullable r ||
  match s with
  | [] => false
  | c :: t => rmatch (deriv c r) t
  end.

(** The pattern syntax. *)
Definition chr (c : ascii) : regex := Cls (Ascii.eqb c).
Definition ichr (c : ascii) : regex :=          (* under re.IGNORECASE *)
  Cls (fun d => Ascii.eqb (lower_char d) (lower_char c)).
Definition dot : regex := Cls (fun d => negb (is_nl d)).   (* [.] *)
Definition space : regex := Cls is_space.                  (* [\s] *)
Definition digit : regex := Cls is_digit.                  (* [\d] *)
Definition opt (r : regex) : regex := Alt r Eps.           (* [r?] *)
Definition plus (r : regex) : regex := Cat r (Star r).     (* [r+] *)

Fixpoint lit (s : str) : regex :=
  match s with
  | [] => Eps
  | c :: t => Cat (chr c) (lit t)
  end.

Fixpoint ilit (s : str) : regex :=
  match s with
  | [] => Eps
  | c :: t => Cat (ichr c) (ilit t)
  end.

Fixpoint alts (rs : list regex) : regex :=
  match rs with
  | [] => Nul
  | [r] => r
  | r :: rs' => Alt r (alts rs')
  end.

Fixpoint cats (rs : list regex) : regex :=
  match rs with
  | [] => Eps
  | [r] => r
  | r :: rs' => Cat r (cats rs')
  end.

(** [re.search(r + "$", s) is not None] (no MULTILINE flag): [$] matches at
    the end of the string and just before a newline that ends the string,
    so the pattern matches when a suffix of [s] is in the language of [r]
    followed by an optional newline. *)
Fixpoint search_eos (r : regex) (s : str) : bool :=
  fullmatch (Cat r (opt (Cls is_nl))) s ||
  match s with
  | [] => false
  | _ :: t => search_eos r t
  end.

(** [re.search(r, s) is not None] *)
Fixpoint search (r : regex) (s : str) : bool :=
  rmatch r s ||
  match s with
  | [] => false
  | _ :: t => search r t
  end.

(** The language of a pattern: the strings that it matches in full. *)
Inductive matches : regex -> str -> Prop :=
| M_eps : matches Eps []
| M_cls : forall (p : ascii -> bool) (c : ascii),
    p c = true -> matches (Cls p) [c]
| M_cat : forall a b s t,
    matches a s -> matches b t -> matches (Cat a b) (s ++ t)
| M_alt_l : forall a b s, matches a s -> matches (Alt a b) s
| M_alt_r : forall a b s, matches b s -> matches (Alt a b) s
| M_star_nil : forall a, matches (Star a) []
| M_star_app : forall a s t,
    matches a s -> matches (Star a) t -> matches (Star a) (s ++ t).

End Re.

(* ================================================================== *)
(** * analyze_code.py *)
(* ================================================================== *)

Module AnalyzeCode.

Import Re.

(** ** Configuration *)

(** [FILE_PRIORITY]: every pattern of the table ends in [$]; an entry holds
    the part before it. *)
Definition FILE_PRIORITY : list (nat * list regex) :=
  [ (0, [ cats [lit (py "modeling_"); Star dot; lit (py ".py")];
          lit (py "model.py");
          lit (py "models.py") ]);
    (1, [ cats [lit (py "config"); Star dot; lit (py ".py")];
          cats [lit (py "attention"); Star dot; lit (py ".py")];
          cats [lit (py "transformer"); Star dot; lit (py ".py")] ]);
    (2, [ cats [lit (py "layer"); opt (chr "s"); lit (py ".py")];
          cats [lit (py "module"); opt (chr "s"); lit (py ".py")];
          cats [lit (py "embedding"); opt (chr "s"); lit (py ".py")] ]);
    (3, [ cats [lit (py "train"); Star dot; lit (py ".py")];
          cats [Star dot; lit (py "_utils.py")];
          lit (py "utils.py") ]) ].

Definition DEFAULT_MAX_TOKENS : Z := 4000.

(** ** CodeAnalyzer.get_priority *)

Fixpoint get_priority_in (table : list (nat * list regex)) (filename : str)
  : nat :=
  match table with
  | [] => 99
  | (priority, patterns) :: rest =>
      if existsb (fun pattern => search_eos pattern filename) patterns
      then priority
      else get_priority_in rest filename
  end.

Definition get_priority (filename : str) : nat :=
  get_priority_in FILE_PRIORITY filename.

(** ** CodeAnalyzer.should_skip *)

(** [SKIP_PATTERNS]: a pattern is searched anywhere in the path or, when it
    ends in [$], at the end of the path; an [AtEnd] entry holds the part
    before the [$]. *)
Inductive skip_pattern :=
| Anywhere : regex -> skip_pattern
| AtEnd : regex -> skip_pattern.

Definition SKIP_PATTERNS : list skip_pattern :=
  [ Anywhere (lit (py "__pycache__"));
    Anywhere (lit (py ".git"));
    AtEnd (lit (py ".pyc"));
    AtEnd (cats [lit (py "test_"); Star dot; lit (py ".py")]);
    AtEnd (cats [Star dot; lit (py "_test.py")]);
    AtEnd (lit (py "setup.py"));
    AtEnd (lit (py "__init__.py")) ].

(** [re.search(pattern, path)] as a truth value. *)
Definition skip_search (pattern : skip_pattern) (path : str) : bool :=
  match pattern with
  | Anywhere r => search r path
  | AtEnd r => search_eos r path
  end.

Definition should_skip (path : str) : bool :=
  existsb (fun pattern => skip_search pattern path) SKIP_PATTERNS.

(** ** CodeAnalyzer._get_annotation and CodeAnalyzer._get_attr_name *)

(** The expressions of [ast] that the two methods tell apart.  A
    [Constant] carries [str(node.value)]; a [Subscript] its value and its
    slice; [OtherExpr] is any other node. *)
Inductive expr :=
| Name : str -> expr
| Attribute : expr -> str -> expr
| Constant : str -> expr
| Subscript : expr -> expr -> expr
| OtherExpr : expr.

(** The [while] loop of [_get_attr_name] and the [if] after it: [parts]
    in the order of the appends. *)
Fixpoint attr_parts (current : expr) (parts : list str) : list str :=
  match current with
  | Attribute value attr => attr_parts value (parts ++ [attr])
  | Name id => parts ++ [id]
  | _ => parts
  end.

Definition get_attr_name (node : expr) : str :=
  join (py ".") (rev (attr_parts node [])).

Fixpoint get_annotation (node : expr) : str :=
  match node with
  | Name id => id
  | Constant text => text
  | Subscript value _ => get_annotation value ++ py "[...]"
  | Attribute _ _ => get_attr_name node
  | OtherExpr => py "Any"
  end.

(** ** Data classes *)

Record ClassInfo := {
  ci_name : str;
  ci_bases : list str;
  ci_methods : list str;
  ci_docstring : option str;
  ci_line_start : nat;
  ci_line_end : nat
}.

Record FunctionInfo := {
  fn_name : str;
  fn_args : str;
  fn_returns : option str;
  fn_docstring : option str;
  fn_line_start : nat;
  fn_line_end : nat;
  fn_decorators : list str
}.

Record FileInfo := {
  path : str;
  priority : nat;
  classes : list ClassInfo;
  functions : list FunctionInfo;
  imports : list str;
  total_lines : nat
}.

(** ** CodeAnalyzer.scan_directory

    The directory walk, the skip filter and the AST parser are I/O
    collaborators: [parsed] is the list of [FileInfo] values that
    [parse_file] returned, in walk order.  What remains is the final
    [self.files.sort(key=lambda x: (x.priority, x.path))], a stable sort. *)

Definition file_key_leb (a b : FileInfo) : bool :=
  (priority a <? priority b)
  || ((priority a =? priority b) && negb (str_ltb (path b) (path a))).

Fixpoint insert_file (x : FileInfo) (l : list FileInfo) : list FileInfo :=
  match l with
  | [] => [x]
  | y :: l' => if file_key_leb x y then x :: l else y :: insert_file x l'
  end.

Definition scan_directory (parsed : list FileInfo) : list FileInfo :=
  fold_right insert_file [] parsed.

(** ** The walk of CodeAnalyzer.scan_directory *)

(** A directory as [os.walk] lists it: the names of its files, and its
    sub-directories with their names, each in listing order.  Links to
    directories, which [os.walk] lists and does not follow, are outside the
    model. *)
#[warnings="-register-all"] Inductive directory :=
| Directory : list str -> list (str * directory) -> directory.

(** The files that the two loops of [scan_directory] visit, in order, as
    pairs of [rel_path] and [filename]: the files of a directory, then the
    walks of its sub-directories whose name [should_skip] keeps.  [prefix]
    is the path of the directory relative to the source directory, with a
    closing separator when it is not empty; the separator is "/". *)
Fixpoint walk (prefix : str) (d : directory) : list (str * str) :=
  match d with
  | Directory files dirs =>
      map (fun filename => (prefix ++ filename, filename)) files ++
      flat_map (fun sub =>
                  if should_skip (fst sub) then []
                  else walk (prefix ++ fst sub ++ py "/") (snd sub))
               dirs
  end.

(** What [parse_file] extracts from the text of a file. *)
Record parsed_source := {
  ps_classes : list ClassInfo;
  ps_functions : list FunctionInfo;
  ps_imports : list str;
  ps_total_lines : nat
}.

Section Scan.

(** [parse rel_path] is what the body of [parse_file] extracts from the
    file at [rel_path], or [None] when reading or parsing it raises. *)
Variable parse : str -> option parsed_source.

(** [parse_file]: the path is the relative path, the priority that of the
    file name alone. *)
Definition parse_file (rel_path filename : str) : option FileInfo :=
  match parse rel_path with
  | None => None
  | Some src =>
      Some {| path := rel_path;
              priority := get_priority filename;
              classes := ps_classes src;
              functions := ps_functions src;
              imports := ps_imports src;
              total_lines := ps_total_lines src |}
  end.

(** The body of [for filename in files]. *)
Definition scan_file (c : str * str) : list FileInfo :=
  let (rel_path, filename) := c in
  if negb (ends_with (py ".py") filename) then []
  else if should_skip rel_path then []
  else match parse_file rel_path filename with
       | Some file_info => [file_info]
       | None => []
       end.

(** [scan_directory] on a directory tree. *)
Definition scan_tree (root : directory) : list FileInfo :=
  scan_directory (flat_map scan_file (walk [] root)).

End Scan.

(** ** OutputGenerator *)

(** [int(len(text) * TOKENS_PER_CHAR)] with [TOKENS_PER_CHAR = 0.25]: the
    product is exact in floating point for every length a string can have,
    and [int] truncates it, which is the quotient by 4. *)
Definition estimate_tokens (text : str) : Z :=
  Z.of_nat (length text) / 4.

(** A chunk descriptor, the dict appended to [chunks]. *)
Record Chunk := {
  index : nat;
  chunk_priority : nat;
  filename : str;
  files : list str;
  tokens : Z
}.

(** The local variables of [generate_chunks], with the files written so
    far (name under the output directory, text). *)
Record gen_state := {
  chunks : list Chunk;
  current_chunk : list str;
  current_tokens : Z;
  current_priority : nat;
  chunk_index : nat;
  written : list (str * str)
}.

Definition gen_init : gen_state :=
  {| chunks := []; current_chunk := []; current_tokens := 0;
     current_priority := 0; chunk_index := 0; written := [] |}.

(** [f"# File: {path}\n# Priority: P{priority}\n# Lines: {total_lines}\n\n{source}"] *)
Definition file_content_of (file_info : FileInfo) (source : str) : str :=
  py "# File: " ++ path file_info ++ [NL] ++
  py "# Priority: P" ++ str_of_nat (priority file_info) ++ [NL] ++
  py "# Lines: " ++ str_of_nat (total_lines file_info) ++ [NL; NL] ++
  source.

(** [c.split('\n')[0].replace('# File: ', '')] *)
Definition member_name (c : str) : str :=
  PyStr.replace (py "# File: ") [] (hd [] (split [NL] c)).

(** The chunk that the "save current chunk" block builds, and the file it
    writes. *)
Definition chunk_name_of (st : gen_state) : str :=
  py "chunk_" ++ fmt_02d (chunk_index st) ++ py "_P" ++
  str_of_nat (current_priority st) ++ py ".md".

Definition chunk_text_of (st : gen_state) : str :=
  [NL; NL] ++ repeat_char "=" 60 ++ join [NL; NL] (current_chunk st).

Definition chunk_of (st : gen_state) : Chunk :=
  {| index := chunk_index st;
     chunk_priority := current_priority st;
     filename := chunk_name_of st;
     files := map member_name (current_chunk st);
     tokens := current_tokens st |}.

(** The body of [if current_tokens + file_tokens > self.max_tokens and
    current_chunk:]. *)
Definition flush (st : gen_state) : gen_state :=
  {| chunks := chunks st ++ [chunk_of st];
     current_chunk := [];
     current_tokens := 0;
     current_priority := current_priority st;
     chunk_index := chunk_index st + 1;
     written := written st ++ [(chunk_name_of st, chunk_text_of st)] |}.

Section Generate.

(** [read p] is the text of the file [source_dir / p], or [None] when
    opening or reading it raises. *)
Variable read : str -> option str.
Variable max_tokens : Z.

(** One iteration of [for file_info in self.files]. *)
Definition gen_step (st : gen_state) (file_info : FileInfo) : gen_state :=
  match read (path file_info) with
  | None => st                                              (* continue *)
  | Some source =>
      let file_content := file_content_of file_info source in
      let file_tokens := estimate_tokens file_content in
      let st1 :=
        if (current_tokens st + file_tokens >? max_tokens)%Z
           && truthy (current_chunk st)
        then flush st else st in
      {| chunks := chunks st1;
         current_chunk := current_chunk st1 ++ [file_content];
         current_tokens := current_tokens st1 + file_tokens;
         current_priority := priority file_info;
         chunk_index := chunk_index st1;
         written := written st1 |}
  end.

(** The state after the loop and the "save last chunk" block.  That block
    appends the chunk and writes its file as [flush] does; it leaves the
    accumulator and [chunk_index] alone, which nothing reads afterwards. *)
Definition gen_run (fs : list FileInfo) : gen_state :=
  let st := fold_left gen_step fs gen_init in
  if truthy (current_chunk st) then flush st else st.

Definition generate_chunks (fs : list FileInfo) : list Chunk :=
  chunks (gen_run fs).

End Generate.

(** ** OutputGenerator.generate_manifest *)

Record Manifest := {
  total_files : nat;
  total_chunks : nat;
  priority_distribution : list (str * nat);
  manifest_chunks : list Chunk
}.

(** [d[p] = d.get(p, 0) + 1] on a dict kept in insertion order. *)
Fixpoint bump (p : str) (d : list (str * nat)) : list (str * nat) :=
  match d with
  | [] => [(p, 1)]
  | (k, n) :: d' => if str_eqb k p then (k, n + 1) :: d' else (k, n) :: bump p d'
  end.

Definition generate_manifest (fs : list FileInfo) (cs : list Chunk)
  : Manifest :=
  {| total_files := length fs;
     total_chunks := length cs;
     priority_distribution :=
       fold_left (fun d f => bump (py "P" ++ str_of_nat (priority f)) d) fs [];
     manifest_chunks := cs |}.

(** ** OutputGenerator.generate_skeleton *)








(** ** main *)

Inductive mode := Skeleton | Full | Targeted.

(** What a run leaves behind: the exit status and the files written to the
    output directory.  The text of skeleton.md is not modelled. *)
Inductive output :=
| SkeletonFile : output
| ChunkFile : str -> str -> output
| ManifestFile : Manifest -> output.

Record run := {
  exit_status : nat;
  outputs : list output
}.

(** [source_exists] is [source_dir.exists()], [parsed] the files that
    [scan_directory] parses (see above), [read] the file system seen by
    [generate_chunks]. *)
Definition main (source_exists : bool) (parsed : list FileInfo)
    (read : str -> option str) (m : mode) (max_tokens : Z) : run :=
  if negb source_exists then {| exit_status := 1; outputs := [] |}
  else
    let fs := scan_directory parsed in
    if negb (truthy fs) then
      (* print("No Python files found!"); return 1 *)
      {| exit_status := 1; outputs := [] |}
    else
      match m with
      | Full =>
          let st := gen_run read max_tokens fs in
          {| exit_status := 0;
             outputs :=
               SkeletonFile ::
               map (fun w => ChunkFile (fst w) (snd w)) (written st) ++
               [ManifestFile (generate_manifest fs (chunks st))] |}
      | _ => {| exit_status := 0; outputs := [SkeletonFile] |}
      end.

End AnalyzeCode.

(* ================================================================== *)
(** * chunk_paper.py *)
(* ================================================================== *)

Module ChunkPaper.

Import Re.

(** ** Exceptions *)

Inductive exn :=
| KeyError : str -> exn
| IndexError : exn
| SystemExit : nat -> exn.

Inductive result (A : Type) :=
| Ok : A -> result A
| Raise : exn -> result A.

Arguments Ok {A} _.
Arguments Raise {A} _.

Definition bind {A B} (r : result A) (k : A -> result B) : result B :=
  match r with
  | Ok a => k a
  | Raise e => Raise e
  end.

Notation "x <- r ;; k" := (bind r (fun x => k))
  (at level 61, r at next level, right associativity).

(** ** Configuration *)

(** The common head of every section pattern: an optional group of one to
    three [#] followed by any whitespace, then an optional group of digits,
    an optional dot and at least one whitespace character. *)
Definition heading_prefix : regex :=
  Cat (opt (cats [chr "#"; opt (Cat (chr "#") (opt (chr "#"))); Star space]))
      (opt (cats [plus digit; opt (chr "."); plus space])).

Definition kw (s : string) : regex := ilit (py s).

(** [SECTION_PATTERNS], as compiled with [re.IGNORECASE]. *)
Definition SECTION_PATTERNS : list regex :=
  map (Cat heading_prefix)
  [ alts [kw "Abstract"; kw "Introduction";
          cats [kw "Related"; plus space; kw "Work"]; kw "Background"];
    alts [Cat (kw "Method") (opt (kw "ology")); kw "Approach";
          Cat (opt (Cat (kw "Proposed") (plus space)))
              (alts [kw "Method"; kw "Framework"; kw "Model"])];
    alts [cats [kw "Experiment"; opt (alts [kw "s"; kw "al"]);
                opt (Cat (plus space) (alts [kw "Setup"; kw "Results"]))];
          kw "Results"; kw "Evaluation"];
    alts [kw "Discussion"; kw "Analysis";
          Cat (kw "Ablation")
              (opt (cats [plus space; kw "Stud"; alts [kw "y"; kw "ies"]]))];
    alts [Cat (kw "Conclusion") (opt (kw "s")); kw "Summary";
          cats [kw "Future"; plus space; kw "Work"]];
    alts [kw "Appendix"; kw "Supplementary"; kw "References";
          cats [kw "Acknowledg"; opt (kw "e"); kw "ment"; opt (kw "s")]] ].

Definition SECTION_PRIORITY : list (str * nat) :=
  [ (py "abstract", 0); (py "conclusion", 0); (py "introduction", 2);
    (py "method", 1); (py "methodology", 1); (py "approach", 1);
    (py "experiment", 1); (py "experiments", 1); (py "results", 1);
    (py "evaluation", 1); (py "related work", 2); (py "background", 2);
    (py "discussion", 2); (py "analysis", 2); (py "ablation", 2);
    (py "appendix", 3); (py "supplementary", 3); (py "references", 4);
    (py "acknowledgements", 4) ].

(** [d.get(k, default)] *)
Fixpoint dict_get (d : list (str * nat)) (k : str) (default : nat) : nat :=
  match d with
  | [] => default
  | (k', v) :: d' => if str_eqb k' k then v else dict_get d' k default
  end.

(** ** estimate_tokens *)

Definition estimate_tokens (text : str) : Z :=
  Z.of_nat (length text) / 4.

(** ** extract_text_from_pdf

    PyMuPDF is an I/O collaborator: [pages] holds [page.get_text()] for the
    pages of the document, in order. *)
Definition page_part (page_num : nat) (text : str) : str :=
  py "[PAGE " ++ str_of_nat (page_num + 1) ++ py "]" ++ [NL] ++ text.

Fixpoint page_parts (page_num : nat) (pages : list str) : list str :=
  match pages with
  | [] => []
  | p :: ps => page_part page_num p :: page_parts (S page_num) ps
  end.

Definition extract_text_from_pdf (pages : list str) : str :=
  join [NL; NL] (page_parts 0 pages).

(** ** identify_sections *)

(** An entry [(start_pos, section_name, normalized_name)]. *)
Definition section : Type := nat * str * str.

Definition sec_start (s : section) : nat := fst (fst s).
Definition sec_name (s : section) : str := snd (fst s).
Definition sec_normalized (s : section) : str := snd s.

(** [re.sub(r'^\d+\.?\s*', '', s)] *)
Definition drop_dot (s : str) : str :=
  match s with
  | c :: t => if Ascii.eqb c "." then t else s
  | [] => []
  end.

Fixpoint drop_digits (s : str) : str :=
  match s with
  | [] => []
  | c :: t => if is_digit c then drop_digits t else s
  end.

Definition sub_leading_number (s : str) : str :=
  match s with
  | c :: _ => if is_digit c then lstrip (drop_dot (drop_digits s)) else s
  | [] => []
  end.

(** [re.sub(r'[^\w\s]', '', s)] *)
Definition sub_punctuation (s : str) : str :=
  filter (fun c => is_word c || is_space c) s.

Definition normalize (line : str) : str :=
  strip (sub_punctuation (sub_leading_number (lower line))).

(** The stripped line that starts at [line_start]. *)
Definition line_at (text : str) (line_start : nat) : str :=
  let line_end :=
    match find_nl text line_start with
    | Some e => e
    | None => length text
    end in
  strip (slice text line_start line_end).

(** One iteration of [for line_start in range(len(text))]: the entries it
    appends to [sections]. *)
Definition section_at (text : str) (line_start : nat) : list section :=
  if (0 <? line_start) && negb (is_nl (nth (line_start - 1) text " "%char))
  then []
  else
    let line := line_at text line_start in
    if negb (truthy line) || (100 <? length line) then []
    else if existsb (fun pattern => rmatch pattern line) SECTION_PATTERNS
         then [(line_start, line, normalize line)]
         else [].

Definition identify_sections (text : str) : list section :=
  flat_map (section_at text) (seq 0 (length text)).

(** ** Chunks *)

(** A chunk dict.  The keys [priority], [index] and [total] are set by
    [split_into_chunks] only: a dict that lacks one has [None] there. *)
Record chunk := {
  sections : list str;
  text : str;
  priority : option nat;
  tokens : Z;
  index : option nat;
  total : option nat
}.

(** ** split_by_tokens *)

Record para_state := {
  para_chunks : list chunk;
  current_text : str;
  current_tokens : Z
}.

(** The dict that [split_by_tokens] appends. *)
Definition para_chunk (section_name : str) (st : para_state) : chunk :=
  {| sections := [section_name];
     text := strip (current_text st);
     priority := None;
     tokens := current_tokens st;
     index := None;
     total := None |}.

Section SplitByTokens.

Variable max_tokens : Z.
Variable section_name : str.

(** One iteration of [for para in paragraphs]. *)
Definition para_step (st : para_state) (para : str) : para_state :=
  let para_tokens := estimate_tokens para in
  let st1 :=
    if (current_tokens st + para_tokens >? max_tokens)%Z
       && truthy (current_text st)
    then {| para_chunks := para_chunks st ++ [para_chunk section_name st];
            current_text := [];
            current_tokens := 0 |}
    else st in
  {| para_chunks := para_chunks st1;
     current_text := current_text st1 ++ para ++ [NL; NL];
     current_tokens := current_tokens st1 + para_tokens |}.

Definition para_finish (st : para_state) : list chunk :=
  if truthy (strip (current_text st))
  then para_chunks st ++ [para_chunk section_name st]
  else para_chunks st.

Definition split_by_tokens_from (text : str) : list chunk :=
  let paragraphs := split [NL; NL] text in
  para_finish
    (fold_left para_step paragraphs
       {| para_chunks := []; current_text := []; current_tokens := 0 |}).

End SplitByTokens.

(** [split_by_tokens(text, max_tokens, section_name)] *)
Definition split_by_tokens (text : str) (max_tokens : Z) (section_name : str)
  : list chunk :=
  split_by_tokens_from max_tokens section_name text.

(** ** split_into_chunks *)

(** An entry of [section_ranges]. *)
Record section_range := {
  sr_start : nat;
  sr_end : nat;
  sr_name : str;
  sr_normalized : str;
  sr_priority : nat
}.

(** [normalized.split()[0] if normalized else '']: indexing raises
    IndexError when [normalized] is not empty and holds only whitespace. *)
Definition lead_keyword (normalized : str) : result str :=
  if truthy normalized
  then match words normalized with
       | w :: _ => Ok w
       | [] => Raise IndexError
       end
  else Ok [].

Fixpoint section_ranges (text : str) (sections : list section)
  : result (list section_range) :=
  match sections with
  | [] => Ok []
  | (start, name, normalized) :: rest =>
      let end_ :=
        match rest with
        | s' :: _ => sec_start s'
        | [] => length text
        end in
      k <- lead_keyword normalized ;;
      rs <- section_ranges text rest ;;
      Ok ({| sr_start := start;
             sr_end := end_;
             sr_name := name;
             sr_normalized := normalized;
             sr_priority := dict_get SECTION_PRIORITY k 2 |} :: rs)
  end.

(** The accumulator dict [current_chunk], whose four keys are always
    present. *)
Record open_chunk := {
  oc_sections : list str;
  oc_text : str;
  oc_priority : nat;
  oc_tokens : Z
}.

Definition empty_chunk : open_chunk :=
  {| oc_sections := []; oc_text := []; oc_priority := 999; oc_tokens := 0 |}.

(** The accumulator as it is when appended to [chunks]. *)
Definition close (c : open_chunk) : chunk :=
  {| sections := oc_sections c;
     text := oc_text c;
     priority := Some (oc_priority c);
     tokens := oc_tokens c;
     index := None;
     total := None |}.

(** [sc['priority'] = section['priority']; sc['sections'] = [section['name']]] *)
Definition tag_sub_chunk (sec : section_range) (sc : chunk) : chunk :=
  {| sections := [sr_name sec];
     text := text sc;
     priority := Some (sr_priority sec);
     tokens := tokens sc;
     index := index sc;
     total := total sc |}.

Record pack_state := {
  chunks : list chunk;
  current_chunk : open_chunk
}.

Definition pack_init : pack_state :=
  {| chunks := []; current_chunk := empty_chunk |}.

Section Pack.

Variable text_ : str.
Variable max_tokens : Z.

(** [if current_chunk['text']: chunks.append(current_chunk); current_chunk = {...}] *)
Definition flush_if (b : bool) (st : pack_state) : pack_state :=
  if b
  then {| chunks := chunks st ++ [close (current_chunk st)];
          current_chunk := empty_chunk |}
  else st.

(** One iteration of [for section in section_ranges]. *)
Definition pack_step (st : pack_state) (sec : section_range) : pack_state :=
  let section_text := slice text_ (sr_start sec) (sr_end sec) in
  let section_tokens := estimate_tokens section_text in
  if (section_tokens >? max_tokens)%Z then
    let st1 := flush_if (truthy (oc_text (current_chunk st))) st in
    let sub_chunks :=
      map (tag_sub_chunk sec)
          (split_by_tokens section_text max_tokens (sr_name sec)) in
    {| chunks := chunks st1 ++ sub_chunks;
       current_chunk := current_chunk st1 |}
  else
    let st1 :=
      flush_if ((oc_tokens (current_chunk st) + section_tokens >? max_tokens)%Z
                && truthy (oc_text (current_chunk st))) st in
    let cur := current_chunk st1 in
    {| chunks := chunks st1;
       current_chunk :=
         {| oc_sections := oc_sections cur ++ [sr_name sec];
            oc_text := oc_text cur ++ section_text ++ [NL; NL];
            oc_priority := Nat.min (oc_priority cur) (sr_priority sec);
            oc_tokens := oc_tokens cur + section_tokens |} |}.

(** The list [chunks] after the loop and the "last chunk" block, before it
    is sorted. *)
Definition pack (ranges : list section_range) : list chunk :=
  let st := fold_left pack_step ranges pack_init in
  chunks (flush_if (truthy (oc_text (current_chunk st))) st).

End Pack.

(** The sort key [x['priority']]; every chunk of [pack] has the key. *)
Definition priority_key (c : chunk) : nat :=
  match priority c with
  | Some p => p
  | None => 0
  end.

(** [chunks.sort(key=lambda x: x['priority'])]: a stable sort. *)
Fixpoint insert_chunk (x : chunk) (l : list chunk) : list chunk :=
  match l with
  | [] => [x]
  | y :: l' =>
      if priority_key x <=? priority_key y then x :: l
      else y :: insert_chunk x l'
  end.

Definition sort_chunks (l : list chunk) : list chunk :=
  fold_right insert_chunk [] l.

(** [chunk['index'] = i; chunk['total'] = len(chunks)] *)
Fixpoint number_from (i n : nat) (l : list chunk) : list chunk :=
  match l with
  | [] => []
  | c :: l' =>
      {| sections := sections c; text := text c; priority := priority c;
         tokens := tokens c; index := Some i; total := Some n |}
      :: number_from (S i) n l'
  end.

Definition number_chunks (l : list chunk) : list chunk :=
  number_from 0 (length l) l.

Definition split_into_chunks (text : str) (sections : list section)
    (max_tokens : Z) : result (list chunk) :=
  if negb (truthy sections)
  then Ok (split_by_tokens text max_tokens (py "content"))
  else
    ranges <- section_ranges text sections ;;
    Ok (number_chunks (sort_chunks (pack text max_tokens ranges))).

(** ** save_chunks *)

Record manifest_entry := {
  me_file : str;
  me_index : nat;
  me_priority : str;
  me_sections : list str;
  me_tokens : Z
}.

Record manifest := {
  source : str;
  total_chunks : nat;
  manifest_chunks : list manifest_entry
}.

(** A file written under the output directory. *)
Inductive file :=
| ChunkFile : str -> str -> file          (* name, text *)
| ManifestFile : str -> manifest -> file. (* name, JSON value *)

(** [str(n)] for an integer. *)
Definition str_of_Z (n : Z) : str :=
  py (NilZero.string_of_int (Z.to_int n)).

(** [['P0', 'P1', 'P2', 'P3', 'P4'][min(chunk.get('priority', 2), 4)]] *)
Definition priority_label (c : chunk) : str :=
  let p := match priority c with Some p => p | None => 2 end in
  py "P" ++ str_of_nat (Nat.min p 4).

(** [chunk[key]] for the keys that may be missing. *)
Definition get_key {A} (key : string) (v : option A) : result A :=
  match v with
  | Some a => Ok a
  | None => Raise (KeyError (py key))
  end.

Section Save.

Variable base_name : str.

Definition chunk_file_name (idx : nat) (label : str) : str :=
  base_name ++ py "_chunk" ++ fmt_02d idx ++ py "_" ++ label ++ py ".txt".

Definition chunk_header (c : chunk) (idx tot : nat) (label : str) : str :=
  py "=== CHUNK " ++ str_of_nat (idx + 1) ++ py "/" ++ str_of_nat tot ++
  py " ===" ++ [NL] ++
  py "Sections: " ++ join (py ", ") (sections c) ++ [NL] ++
  py "Estimated tokens: " ++ str_of_Z (tokens c) ++ [NL] ++
  py "Priority: " ++ label ++ [NL] ++
  repeat_char "=" 40 ++ [NL; NL].

(** The state of the loop of [save_chunks]: the files on disk, the list
    [saved_files] and the entries of [manifest['chunks']]. *)
Record save_state := {
  disk : list file;
  saved_files : list str;
  entries : list manifest_entry
}.

(** One iteration of [for chunk in chunks]. *)
Definition save_step (st : save_state) (c : chunk) : result save_state :=
  let label := priority_label c in
  idx <- get_key "index" (index c) ;;
  let chunk_name := chunk_file_name idx label in
  tot <- get_key "total" (total c) ;;
  Ok {| disk := disk st ++ [ChunkFile chunk_name
                              (chunk_header c idx tot label ++ text c)];
        saved_files := saved_files st ++ [chunk_name];
        entries := entries st ++
                   [{| me_file := chunk_name; me_index := idx;
                       me_priority := label; me_sections := sections c;
                       me_tokens := tokens c |}] |}.

Fixpoint save_loop (st : save_state) (cs : list chunk) : result save_state :=
  match cs with
  | [] => Ok st
  | c :: cs' => st' <- save_step st c ;; save_loop st' cs'
  end.

(** The files written and the returned [saved_files], both as names under
    the output directory. *)
Definition save_chunks (cs : list chunk) : result (list file * list str) :=
  st <- save_loop {| disk := []; saved_files := []; entries := [] |} cs ;;
  let manifest_name := base_name ++ py "_manifest.json" in
  let m := {| source := base_name;
              total_chunks := length cs;
              manifest_chunks := entries st |} in
  Ok (disk st ++ [ManifestFile manifest_name m],
      saved_files st ++ [manifest_name]).

End Save.

(** ** main *)

(** [has_pymupdf] is [HAS_PYMUPDF], [pdf_exists] is
    [os.path.exists(args.pdf_path)], [pages] the page texts of the PDF,
    [base_name] the stem of its path.  The result is the list of files
    written, or the exception that ends the run. *)
Definition main (has_pymupdf pdf_exists : bool) (pages : list str)
    (base_name : str) (max_tokens : Z) : result (list file) :=
  if negb has_pymupdf then Raise (SystemExit 1)
  else if negb pdf_exists then Raise (SystemExit 1)
  else
    let text := extract_text_from_pdf pages in
    let sections := identify_sections text in
    chunks <- split_into_chunks text sections max_tokens ;;
    saved <- save_chunks base_name chunks ;;
    Ok (fst saved).

End ChunkPaper.

(* ================================================================== *)
(** * Vocabulary of the statements *)
(* ================================================================== *)

Section FilePackerVocabulary.

Import AnalyzeCode.

Variable read : str -> option str.
Variable max_tokens : Z.

(** The texts [file_content] of the files that can be read, in input
    order: the units that reach the packer. *)
Definition readable_contents (fs : list FileInfo) : list str :=
  flat_map (fun f => match read (path f) with
                     | Some source => [file_content_of f source]
                     | None => []
                     end) fs.

(** The member names held by the chunks and the accumulator. *)
Definition members (st : gen_state) : list str :=
  concat (map files (chunks st)) ++ map member_name (current_chunk st).

(** A chunk within the budget, or one that holds a single file whose own
    estimate is above it. *)
Definition file_chunk_ok (fs : list FileInfo) (c : Chunk) : Prop :=
  (tokens c <= max_tokens)%Z \/
  exists f source,
    In f fs /\ read (path f) = Some source /\
    files c = [member_name (file_content_of f source)] /\
    tokens c = estimate_tokens (file_content_of f source) /\
    (tokens c > max_tokens)%Z.

(** The invariant of the loop of [generate_chunks]. *)
Definition gen_inv (fs : list FileInfo) (st : gen_state) : Prop :=
  Forall (file_chunk_ok fs) (chunks st) /\
  (current_chunk st = [] -> current_tokens st = 0%Z) /\
  (current_chunk st <> [] -> file_chunk_ok fs (chunk_of st)).

End FilePackerVocabulary.

Section ParagraphVocabulary.

Import ChunkPaper.

Variable max_tokens : Z.

(** The text that [split_by_tokens] accumulates for a run of paragraphs. *)
Definition para_text (g : list str) : str :=
  flat_map (fun para => para ++ [NL; NL]) g.

(** The token count that it accumulates for them. *)
Definition para_tokens (g : list str) : Z :=
  fold_right (fun para n => (estimate_tokens para + n)%Z) 0%Z g.

(** The chunk that [split_by_tokens] emits for a run of paragraphs. *)
Definition group_chunk (section_name : str) (g : list str) : chunk :=
  {| sections := [section_name];
     text := strip (para_text g);
     priority := None;
     tokens := para_tokens g;
     index := None;
     total := None |}.

(** A run of paragraphs within the budget, or a single paragraph whose own
    estimate is above it. *)
Definition group_ok (g : list str) : Prop :=
  (para_tokens g <= max_tokens)%Z \/
  exists para, g = [para] /\ (estimate_tokens para > max_tokens)%Z.

(** The invariant of the loop of [split_by_tokens] after the paragraphs
    [done]: they are cut into the runs already emitted and the open run. *)
Definition para_inv (section_name : str) (done : list str) (st : para_state)
  : Prop :=
  exists groups cur,
    done = concat groups ++ cur /\
    para_chunks st = map (group_chunk section_name) groups /\
    current_text st = para_text cur /\
    current_tokens st = para_tokens cur /\
    Forall (fun g => g <> [] /\ group_ok g) groups /\
    (cur = [] \/ group_ok cur).

End ParagraphVocabulary.

Section PackVocabulary.

Import ChunkPaper.

Variable text_ : str.
Variable max_tokens : Z.

(** The text of a section and whether it alone is above the budget. *)
Definition range_text (r : section_range) : str :=
  slice text_ (sr_start r) (sr_end r).

Definition oversized (r : section_range) : bool :=
  (estimate_tokens (range_text r) >? max_tokens)%Z.

(** A chunk within the budget, or one made of a single paragraph of some
    slice of the document whose own estimate is above it. *)
Definition paper_chunk_ok (c : chunk) : Prop :=
  (tokens c <= max_tokens)%Z \/
  exists a b para,
    In para (split [NL; NL] (slice text_ a b)) /\
    (estimate_tokens para > max_tokens)%Z /\
    tokens c = estimate_tokens para /\
    text c = strip (para ++ [NL; NL]).

(** The member names that a section leaves in the chunks: its name once,
    or once for every sub-chunk when it is split. *)
Definition range_members (r : section_range) : list str :=
  if oversized r
  then map (fun _ => sr_name r)
           (split_by_tokens (range_text r) max_tokens (sr_name r))
  else [sr_name r].

(** The member names held by the chunks and the accumulator. *)
Definition pack_members (st : pack_state) : list str :=
  concat (map sections (chunks st)) ++ oc_sections (current_chunk st).

(** An accumulator without text has no member and no tokens. *)
Definition tidy (st : pack_state) : Prop :=
  oc_text (current_chunk st) = [] ->
  oc_sections (current_chunk st) = [] /\ oc_tokens (current_chunk st) = 0%Z.

(** The size invariant of the loop of [split_into_chunks]. *)
Definition pack_size_inv (st : pack_state) : Prop :=
  Forall paper_chunk_ok (chunks st) /\
  (oc_text (current_chunk st) <> [] ->
   (oc_tokens (current_chunk st) <= max_tokens)%Z).

End PackVocabulary.

Section TierVocabulary.

Import ChunkPaper.

(** The smallest priority among sections; 999, the priority of the empty
    accumulator, when there is none. *)
Definition min_tier (g : list section_range) : nat :=
  fold_right (fun r m => Nat.min (sr_priority r) m) 999 g.

(** A chunk whose members are the sections [g] and whose priority is the
    smallest of theirs. *)
Definition tier_ok (ranges : list section_range) (c : chunk)
    (g : list section_range) : Prop :=
  g <> [] /\ incl g ranges /\
  sections c = map sr_name g /\ priority c = Some (min_tier g).

(** The tier invariant of the loop of [split_into_chunks]. *)
Definition tier_inv (ranges : list section_range) (st : pack_state) : Prop :=
  exists groups cur,
    Forall2 (tier_ok ranges) (chunks st) groups /\
    incl cur ranges /\
    oc_sections (current_chunk st) = map sr_name cur /\
    oc_priority (current_chunk st) = min_tier cur /\
    (cur = [] -> oc_text (current_chunk st) = []).

End TierVocabulary.

Section RelocationVocabulary.

Import ChunkPaper.

(** An entry of [sections] and an entry of [section_ranges] when the [k]
    characters before the first heading are replaced by [k'] others. *)
Definition reloc (k k' : nat) (s : section) : section :=
  (sec_start s - k + k', sec_name s, sec_normalized s).

Definition reloc_range (k k' : nat) (r : section_range) : section_range :=
  {| sr_start := sr_start r - k + k';
     sr_end := sr_end r - k + k';
     sr_name := sr_name r;
     sr_normalized := sr_normalized r;
     sr_priority := sr_priority r |}.

End RelocationVocabulary.

Section PathVocabulary.

Import AnalyzeCode.

(** [pat in s]: some suffix of [s] starts with [pat]. *)
Fixpoint occurs (pat s : str) : bool :=
  starts_with pat s ||
  match s with
  | [] => false
  | _ :: t => occurs pat t
  end.

(** A path without a newline and without the text "# File: ", which
    [member_name] would cut or delete. *)
Definition clean_path (p : str) : bool :=
  forallb (fun c => negb (is_nl c)) p && negb (occurs (py "# File: ") p).

(** A file that [generate_chunks] can read. *)
Definition readable (read : str -> option str) (f : FileInfo) : bool :=
  match read (path f) with Some _ => true | None => false end.

End PathVocabulary.

Section NegativeBudgetVocabulary.

Import ChunkPaper.

(** The paragraphs that get a chunk when every paragraph is flushed on its
    own: all of them, but a last one that is blank. *)
Fixpoint kept_paragraphs (paras : list str) : list str :=
  match paras with
  | [] => []
  | [para] => if truthy (strip (para ++ [NL; NL])) then [para] else []
  | para :: rest => para :: kept_paragraphs rest
  end.

End NegativeBudgetVocabulary.

(** ** Sample inputs *)

Section Samples.

Definition file_info (p : str) (tier lines : nat) : AnalyzeCode.FileInfo :=
  {| AnalyzeCode.path := p;
     AnalyzeCode.priority := tier;
     AnalyzeCode.classes := [];
     AnalyzeCode.functions := [];
     AnalyzeCode.imports := [];
     AnalyzeCode.total_lines := lines |}.

(** Two small files, of tiers 0 and 1. *)
Definition model_py : AnalyzeCode.FileInfo := file_info (py "model.py") 0 1.
Definition config_py : AnalyzeCode.FileInfo := file_info (py "config.py") 1 1.

(** A file system where every file holds one short line. *)
Definition one_line_files (p : str) : option str := Some (py "x = 1").

(** A file of two paragraphs of 60 characters. *)
Definition helpers_py : AnalyzeCode.FileInfo :=
  file_info (py "helpers.py") 99 3.

Definition two_paragraphs : str :=
  repeat "a"%char 60 ++ [NL; NL] ++ repeat "b"%char 60.

Definition two_paragraph_files (p : str) : option str := Some two_paragraphs.

(** The lines of a document, joined by newlines. *)
Definition lines (l : list string) : str := join [NL] (map py l).

Local Open Scope string_scope.

(** A paper with a title block, three headings and a blank line inside the
    first section. *)
Definition sample_paper : str :=
  lines ["My Title"; "Authors"; "1. Introduction"; "Some intro text here.";
         EmptyString; "More intro."; "## Method"; "We do things."; "Conclusions";
         "Done."].

(** The same paper without its title block. *)
Definition sample_paper_body : str :=
  lines ["1. Introduction"; "Some intro text here.";
         EmptyString; "More intro."; "## Method"; "We do things."; "Conclusions";
         "Done."].

(** A section of tier 2 followed by one of tier 1. *)
Definition intro_then_method : str :=
  lines ["Introduction"; "foo"; "Method"; "bar"; EmptyString].

(** A text without any heading. *)
Local Close Scope string_scope.

Definition plain_text : str := py "hello world".

(** A line of 150 characters that starts with a section keyword, and its
    first 100 characters. *)
Definition long_heading : str := py "Introduction" ++ repeat "x"%char 138.
Definition short_heading : str := py "Introduction" ++ repeat "x"%char 88.

(** A section whose three paragraphs are estimated at 200, 200 and 100
    tokens. *)
Definition three_pieces : str :=
  py "Method" ++ [NL] ++ repeat "a"%char 793 ++ [NL; NL] ++
  repeat "b"%char 800 ++ [NL; NL] ++ repeat "c"%char 400.

(** The same section with a last paragraph of 400 spaces. *)
Definition blank_last_piece : str :=
  py "Method" ++ [NL] ++ repeat "a"%char 793 ++ [NL; NL] ++
  repeat "b"%char 800 ++ [NL; NL] ++ repeat " "%char 400.

(** The whole of it as one section range, and a packer state whose
    accumulator holds an earlier section. *)
Definition method_range : ChunkPaper.section_range :=
  {| ChunkPaper.sr_start := 0;
     ChunkPaper.sr_end := 2004;
     ChunkPaper.sr_name := py "Method";
     ChunkPaper.sr_normalized := py "method";
     ChunkPaper.sr_priority := 1 |}.

Definition after_abstract : ChunkPaper.pack_state :=
  {| ChunkPaper.chunks := [];
     ChunkPaper.current_chunk :=
       {| ChunkPaper.oc_sections := [py "Abstract"];
          ChunkPaper.oc_text := py "Abstract";
          ChunkPaper.oc_priority := 0;
          ChunkPaper.oc_tokens := 2 |} |}.

End Samples.

(** ** Vocabulary of the further properties of chunk_paper.py *)

Section PaperVocabulary.

Import ChunkPaper.

(** The sum of a list of token counts. *)
Definition zsum (l : list Z) : Z := fold_right Z.add 0%Z l.

(** A string of whitespace only. *)
Definition blank (s : str) : bool := forallb is_space s.

(** An entry of the section list whose normalized name is not empty and
    holds whitespace only. *)
Definition blank_name (s : section) : bool :=
  truthy (sec_normalized s) && blank (sec_normalized s).

(** A chunk dict that has the keys [index] and [total]. *)
Definition is_numbered (c : chunk) : bool :=
  match index c, total c with
  | Some _, Some _ => true
  | _, _ => false
  end.

(** The key that [save_chunks] misses first in a chunk that is not
    numbered. *)
Definition missing_key (c : chunk) : str :=
  match index c with
  | None => py "index"
  | Some _ => py "total"
  end.

(** What [save_chunks] writes for a numbered chunk: the name of its file,
    the file, and its entry in the manifest. *)
Definition saved_index (c : chunk) : nat :=
  match index c with Some i => i | None => 0 end.

Definition saved_total (c : chunk) : nat :=
  match total c with Some n => n | None => 0 end.

Definition saved_name (base_name : str) (c : chunk) : str :=
  chunk_file_name base_name (saved_index c) (priority_label c).

Definition saved_file (base_name : str) (c : chunk) : file :=
  ChunkFile (saved_name base_name c)
    (chunk_header c (saved_index c) (saved_total c) (priority_label c)
     ++ text c).

Definition saved_entry (base_name : str) (c : chunk) : manifest_entry :=
  {| me_file := saved_name base_name c;
     me_index := saved_index c;
     me_priority := priority_label c;
     me_sections := sections c;
     me_tokens := tokens c |}.

(** The chunk dict without its numbering. *)
Definition content (c : chunk) : list str * str * option nat * Z :=
  (sections c, text c, priority c, tokens c).

(** The chunks of a given priority. *)
Definition of_priority (p : nat) (l : list chunk) : list chunk :=
  filter (fun c => priority_key c =? p) l.

(** The tokens that a section brings to the chunks: its own estimate, or
    the tokens of its sub-chunks when it is split. *)
Definition range_tokens (text_ : str) (max_tokens : Z) (r : section_range)
  : Z :=
  if oversized text_ max_tokens r
  then zsum (map tokens
               (split_by_tokens (range_text text_ r) max_tokens (sr_name r)))
  else estimate_tokens (range_text text_ r).

(** The tokens held by the chunks and the accumulator. *)
Definition pack_tokens (st : pack_state) : Z :=
  (zsum (map tokens (chunks st)) + oc_tokens (current_chunk st))%Z.

End PaperVocabulary.

(** ** Vocabulary of the further properties of analyze_code.py *)

Section CodeVocabulary.

Import AnalyzeCode.

(** A file that reaches the packer, with the text read from it. *)
Definition unit_ : Type := FileInfo * str.

Definition unit_content (u : unit_) : str :=
  file_content_of (fst u) (snd u).

(** The readable files, in input order, with their texts. *)
Definition readable_units (read : str -> option str) (fs : list FileInfo)
  : list unit_ :=
  flat_map (fun f => match read (path f) with
                     | Some source => [(f, source)]
                     | None => []
                     end) fs.

(** The tokens of a run of files. *)
Definition unit_tokens (g : list unit_) : Z :=
  zsum (map (fun u => estimate_tokens (unit_content u)) g).

(** The priority of the file added last; 0, the initial value of
    [current_priority], when there is none. *)
Definition last_priority (g : list unit_) : nat :=
  fold_left (fun _ u => priority (fst u)) g 0.

(** The descriptor and the file that [generate_chunks] makes of a run of
    files that it closes as chunk number [idx]. *)
Definition file_group_name (idx : nat) (g : list unit_) : str :=
  py "chunk_" ++ fmt_02d idx ++ py "_P" ++ str_of_nat (last_priority g)
  ++ py ".md".

Definition file_group_chunk (idx : nat) (g : list unit_) : Chunk :=
  {| index := idx;
     chunk_priority := last_priority g;
     filename := file_group_name idx g;
     files := map (fun u => member_name (unit_content u)) g;
     tokens := unit_tokens g |}.

Definition file_group_file (idx : nat) (g : list unit_) : str * str :=
  (file_group_name idx g,
   [NL; NL] ++ repeat_char "=" 60 ++ join [NL; NL] (map unit_content g)).

(** Runs numbered from [i] on. *)
Fixpoint numbered {A : Type} (f : nat -> list unit_ -> A) (i : nat)
    (groups : list (list unit_)) : list A :=
  match groups with
  | [] => []
  | g :: gs => f i g :: numbered f (S i) gs
  end.

(** The invariant of the loop of [generate_chunks] after the readable
    files [done]: they are cut into the runs already closed and the open
    run. *)
Definition file_inv (done : list unit_) (st : gen_state) : Prop :=
  exists groups cur,
    done = concat groups ++ cur /\
    Forall (fun g => g <> []) groups /\
    chunks st = numbered file_group_chunk 0 groups /\
    written st = numbered file_group_file 0 groups /\
    chunk_index st = length groups /\
    current_chunk st = map unit_content cur /\
    current_tokens st = unit_tokens cur /\
    (cur <> [] -> current_priority st = last_priority cur).

(** The number of files of a given priority. *)
Definition count_priority (p : nat) (fs : list FileInfo) : nat :=
  length (filter (fun f => priority f =? p) fs).

(** [d.get(k, 0)] on the distribution dict. *)
Fixpoint dict_count (d : list (str * nat)) (k : str) : nat :=
  match d with
  | [] => 0
  | (k', n) :: d' => if str_eqb k' k then n else dict_count d' k
  end.

(** The label of a priority in the distribution. *)
Definition tier_label (p : nat) : str := py "P" ++ str_of_nat p.

End CodeVocabulary.

Section SkipVocabulary.

(** [s] closes [path], or closes it before one final newline: the places
    where a pattern that ends in [$] can end. *)
Definition at_end (s path : str) : bool :=
  ends_with s path || ends_with (s ++ [NL]) path.

(** The relative path of a file under the directories [dirs], from the
    outermost on. *)
Definition rel_path_of (dirs : list str) (filename : str) : str :=
  concat (map (fun d => d ++ py "/") dirs) ++ filename.

(** A small source tree. *)
Definition sample_tree : AnalyzeCode.directory :=
  AnalyzeCode.Directory
    [py "model.py"; py "notes.txt"; py "latest_model.py"]
    [ (py "__pycache__",
       AnalyzeCode.Directory [py "model.py"] []);
      (py "modeling_bert",
       AnalyzeCode.Directory [py "heads.py"; py "__init__.py"] []) ].

Definition sample_parse (p : str) : option AnalyzeCode.parsed_source :=
  Some {| AnalyzeCode.ps_classes := []; AnalyzeCode.ps_functions := [];
          AnalyzeCode.ps_imports := []; AnalyzeCode.ps_total_lines := 1 |}.

End SkipVocabulary.

(* ================================================================== *)
(** * download_paper.py *)
(* ================================================================== *)

Module DownloadPaper.

(** ** The patterns with a group *)

(** The longest run of characters of a class at the start of a string, and
    what follows it: what a greedy [\d+] or [\w+] consumes when nothing
    after it in the pattern can make it give characters back. *)
Fixpoint span (p : ascii -> bool) (s : str) : str * str :=
  match s with
  | [] => ([], [])
  | c :: t =>
      if p c then let (run, rest) := span p t in (c :: run, rest)
      else ([], s)
  end.

(** [re.match(prefix + r'(\d+\.\d+)' + suffix, s)] for literal [prefix]
    and [suffix]: group 1, or [None].  The first [\d+] takes the longest
    run of digits; a shorter run would leave a digit where the pattern
    wants the dot, so the engine has one way to match, and the same holds
    for the second run. *)
Definition match_id (prefix suffix s : str) : option str :=
  if starts_with prefix s then
    let (d1, r1) := span is_digit (skipn (length prefix) s) in
    match d1, r1 with
    | _ :: _, c :: r2 =>
        if Ascii.eqb c "." then
          let (d2, r3) := span is_digit r2 in
          match d2 with
          | _ :: _ =>
              if starts_with suffix r3 then Some (d1 ++ py "." ++ d2)
              else None
          | [] => None
          end
        else None
    | _, _ => None
    end
  else None.

(** [re.match(prefix + r'(\w+)', s)]: group 1, or [None]. *)
Definition match_word (prefix s : str) : option str :=
  if starts_with prefix s then
    match fst (span is_word (skipn (length prefix) s)) with
    | [] => None
    | w => Some w
    end
  else None.

(** [re.search]: the match at the leftmost position that has one. *)
Fixpoint search_group (m : str -> option str) (s : str) : option str :=
  match m s with
  | Some g => Some g
  | None =>
      match s with
      | [] => None
      | _ :: t => search_group m t
      end
  end.

(** ** normalize_arxiv_url *)

(** The three patterns, as the literal before the group and the literal
    after it. *)
Definition ARXIV_PATTERNS : list (str * str) :=
  [ (py "arxiv.org/abs/", []);
    (py "arxiv.org/pdf/", []);
    (py "arxiv.org/pdf/", py ".pdf") ].

(** The loop over the patterns: the group of the first pattern found. *)
Fixpoint first_id (patterns : list (str * str)) (url : str) : option str :=
  match patterns with
  | [] => None
  | (prefix, suffix) :: rest =>
      match search_group (match_id prefix suffix) url with
      | Some arxiv_id => Some arxiv_id
      | None => first_id rest url
      end
  end.

Definition normalize_arxiv_url (url : str) : str :=
  match first_id ARXIV_PATTERNS url with
  | Some arxiv_id => py "https://arxiv.org/pdf/" ++ arxiv_id ++ py ".pdf"
  | None => url
  end.

(** ** normalize_url *)

Definition normalize_url (url : str) : str :=
  let url := strip url in
  if occurs (py "arxiv.org") url then normalize_arxiv_url url
  else if occurs (py "openreview.net/pdf") url then url
  else url.

(** ** extract_filename_from_url *)

Definition extract_filename_from_url (url : str) : str :=
  match search_group (match_id (py "arxiv.org/pdf/") []) url with
  | Some arxiv_id => py "arxiv_" ++ arxiv_id ++ py ".pdf"
  | None =>
      match search_group (match_word (py "openreview.net/pdf?id=")) url with
      | Some paper_id => py "openreview_" ++ paper_id ++ py ".pdf"
      | None =>
          let path := last (split (py "/") (hd [] (split (py "?") url))) [] in
          let path :=
            if truthy path && negb (ends_with (py ".pdf") path)
            then path ++ py ".pdf" else path in
          if truthy path then path else py "paper.pdf"
      end
  end.

(** ** download_pdf *)

(** What the body of the [try] of one attempt meets.  [Served] is a
    response whose body was read, with its Content-Type (empty when the
    header is absent), its bytes, and whether the file can be written
    should the bytes be accepted; the other outcomes are the exceptions
    that the [except] clauses tell apart. *)
Inductive outcome :=
| Served : str -> str -> bool -> outcome
| HTTPError : nat -> outcome
| URLError : outcome
| Timeout : outcome
| OtherError : outcome.

(** The value of [last_error]. *)
Inductive error :=
| HttpStatus : nat -> error
| UrlFailure : error
| TimedOut : error
| Unexpected : error.

(** Where the file goes. *)
Inductive location :=
| InCwd : str -> location            (* Path.cwd() / name *)
| InDir : str -> str -> location     (* Path(output_path) / name *)
| AtPath : str -> location.          (* Path(output_path) *)

(** The message of the result, with the values it is built from. *)
Inductive message :=
| NotAPdf : str -> message           (* URL does not point to a PDF file *)
| InvalidPdf : message               (* Downloaded content is not a valid PDF *)
| Downloaded : location -> nat -> message   (* the file and its bytes *)
| NotFound : str -> message          (* Paper not found (404) *)
| AccessDenied : str -> message      (* Access denied (403) *)
| GaveUp : nat -> option error -> message.  (* Failed after N attempts *)

(** What the function does to the world. *)
Inductive event :=
| Request : nat -> str -> event      (* the attempt and the URL *)
| Save : location -> str -> event    (* the file and its bytes *)
| Sleep : event.

Record download := {
  success : bool;
  report : message;
  events : list event
}.

Definition output_file (output_path : option str) (isdir : str -> bool)
    (pdf_url : str) : location :=
  match output_path with
  | None => InCwd (extract_filename_from_url pdf_url)
  | Some p =>
      if isdir p then InDir p (extract_filename_from_url pdf_url)
      else AtPath p
  end.

Section Attempts.

(** [fetch attempt] is the outcome of the request of that attempt. *)
Variable fetch : nat -> outcome.
Variable pdf_url : str.
Variable file : location.
Variable max_retries : nat.

(** What is left of the loop once an attempt has failed with [e]: the
    wait before a retry, and the other attempts. *)
Definition retry (attempt : nat) (e : error)
    (rest : option error -> download) : download :=
  let d := rest (Some e) in
  {| success := success d;
     report := report d;
     events := (if attempt <? max_retries then [Sleep] else []) ++ events d |}.

(** [for attempt in range(1, max_retries + 1)] from [attempt] on, with
    [todo] attempts left, and the [return] after the loop. *)
Fixpoint attempts (todo attempt : nat) (last_error : option error)
  : download :=
  match todo with
  | O => {| success := false;
            report := GaveUp max_retries last_error;
            events := [] |}
  | S todo' =>
      let next := attempts todo' (S attempt) in
      let d :=
        match fetch attempt with
        | Served content_type content writable =>
            if negb (occurs (py "application/pdf") content_type)
               && negb (occurs (py "octet-stream") content_type)
               && negb (starts_with (py "%PDF") content)
            then {| success := false; report := NotAPdf content_type;
                    events := [] |}
            else if negb (starts_with (py "%PDF") content)
            then {| success := false; report := InvalidPdf; events := [] |}
            else if writable
            then {| success := true;
                    report := Downloaded file (length content);
                    events := [Save file content] |}
            else retry attempt Unexpected next
        | HTTPError code =>
            if code =? 404
            then {| success := false; report := NotFound pdf_url;
                    events := [] |}
            else if code =? 403
            then {| success := false; report := AccessDenied pdf_url;
                    events := [] |}
            else retry attempt (HttpStatus code) next
        | URLError => retry attempt UrlFailure next
        | Timeout => retry attempt TimedOut next
        | OtherError => retry attempt Unexpected next
        end in
      {| success := success d;
         report := report d;
         events := Request attempt pdf_url :: events d |}
  end.

End Attempts.

(** [download_pdf(url, output_path, max_retries)] for a number of retries
    that is not negative.  Making the parent directory, which is done
    outside the [try], is taken to succeed. *)
Definition download_pdf (fetch : nat -> outcome) (isdir : str -> bool)
    (url : str) (output_path : option str) (max_retries : nat) : download :=
  let pdf_url := normalize_url url in
  attempts fetch pdf_url (output_file output_path isdir pdf_url)
           max_retries max_retries 1 None.

(** ** main *)

(** [argv] is [sys.argv] without the program name.  The result is the
    exit status and what [download_pdf] did, if it was called. *)
Definition main (fetch : nat -> outcome) (isdir : str -> bool)
    (argv : list str) : nat * option download :=
  match argv with
  | [] => (1, None)
  | url :: rest =>
      let output_path := match rest with [] => None | p :: _ => Some p end in
      let d := download_pdf fetch isdir url output_path 3 in
      (if success d then 0 else 1, Some d)
  end.

End DownloadPaper.

Section DownloadVocabulary.

Import DownloadPaper.

(** Two runs of digits, neither empty: the parts of an arXiv identifier. *)
Definition arxiv_id (d1 d2 : str) : Prop :=
  d1 <> [] /\ d2 <> [] /\
  forallb is_digit d1 = true /\ forallb is_digit d2 = true.

(** The URL that [normalize_arxiv_url] builds of an identifier. *)
Definition canonical_url (id : str) : str :=
  py "https://arxiv.org/pdf/" ++ id ++ py ".pdf".

End DownloadVocabulary.

Section AttemptVocabulary.

Import DownloadPaper.

(** The outcomes after which the loop goes on: an exception that no
    [except] clause answers with a [return]. *)
Definition retryable (o : outcome) : bool :=
  match o with
  | Served _ content writable =>
      starts_with (py "%PDF") content && negb writable
  | HTTPError code => negb (code =? 404) && negb (code =? 403)
  | URLError | Timeout | OtherError => true
  end.

(** The error that a retryable outcome leaves in [last_error]. *)
Definition error_of (o : outcome) : error :=
  match o with
  | HTTPError code => HttpStatus code
  | URLError => UrlFailure
  | Timeout => TimedOut
  | Served _ _ _ | OtherError => Unexpected
  end.

(** The Content-Type names a PDF or a byte stream. *)
Definition claims_pdf (content_type : str) : bool :=
  occurs (py "application/pdf") content_type
  || occurs (py "octet-stream") content_type.

(** [count] attempts from [first] on, each followed by a wait. *)
Fixpoint retried (pdf_url : str) (first count : nat) : list event :=
  match count with
  | O => []
  | S c => Request first pdf_url :: Sleep :: retried pdf_url (S first) c
  end.

(** The attempts of the requests of a run, in order. *)
Definition requested (evs : list event) : list nat :=
  flat_map (fun e => match e with Request a _ => [a] | _ => [] end) evs.

Definition sleeps (evs : list event) : nat :=
  length (filter (fun e => match e with Sleep => true | _ => false end) evs).

Definition saves (evs : list event) : list (location * str) :=
  flat_map (fun e => match e with Save f c => [(f, c)] | _ => [] end) evs.

(** A server that answers the third request with a small PDF. *)
Definition third_time_lucky (attempt : nat) : outcome :=
  match attempt with
  | 1 => Timeout
  | 2 => HTTPError 503
  | _ => Served (py "application/pdf") (py "%PDF-1.7 ...") true
  end.

(** A server that knows no paper. *)
Definition no_such_paper (attempt : nat) : outcome := HTTPError 404.

(** A server that is down. *)
Definition server_down (attempt : nat) : outcome := URLError.

Definition no_directory (p : str) : bool := false.

End AttemptVocabulary.

Section NameVocabulary.

Import AnalyzeCode.

(** The expression [base.a1.a2...an]. *)
Definition dotted (base : expr) (attrs : list str) : expr :=
  fold_left Attribute attrs base.

End NameVocabulary.

Section SkeletonVocabulary.

Import AnalyzeCode.











End SkeletonVocabulary.

(* ================================================================== *)
(** * The matcher decides the language of a pattern *)
(* ================================================================== *)

Section Matcher.

Import Re.

Lemma nullable_matches (r : regex) : nullable r = true <-> matches r [].
Proof.
  induction r as [| |p|a IHa b IHb|a IHa b IHb|a IHa]; simpl.
  - split; [discriminate|]. intros H; inversion H.
  - split; [constructor|reflexivity].
  - split; [discriminate|]. intros H; inversion H.
  - rewrite andb_true_iff, IHa, IHb. split.
    + intros [Ha Hb]. exact (M_cat a b [] [] Ha Hb).
    + intros H. inversion H as [| |? ? s t Ha Hb Hr Hs| | | |]; subst.
      apply app_eq_nil in Hs as [-> ->]. auto.
  - rewrite orb_true_iff, IHa, IHb. split.
    + intros [H|H]; [now apply M_alt_l|now apply M_alt_r].
    + intros H. inversion H; subst; auto.
  - split; [constructor|reflexivity].
Qed.

Lemma cat_matches (a b : regex) (s : str) :
  matches (cat a b) s <-> matches (Cat a b) s.
Proof.
  assert (Hnul_l : forall b' s', ~ matches (Cat Nul b') s').
  { intros b' s' H. inversion H as [| |? ? u v Hu| | | |]; subst.
    inversion Hu. }
  assert (Hnul_r : forall a' s', ~ matches (Cat a' Nul) s').
  { intros a' s' H. inversion H as [| |? ? u v Hu Hv| | | |]; subst.
    inversion Hv. }
  assert (Heps : forall b' s', matches b' s' <-> matches (Cat Eps b') s').
  { intros b' s'. split.
    - intros H. exact (M_cat Eps b' [] s' M_eps H).
    - intros H. inversion H as [| |? ? u v Hu Hv| | | |]; subst.
      inversion Hu; subst. exact Hv. }
  destruct a, b; simpl; try reflexivity;
    try (split; [intros H; inversion H|intros H; exfalso;
                 first [now apply (Hnul_l _ _ H)|now apply (Hnul_r _ _ H)]]);
    try apply Heps.
Qed.

Lemma alt_matches (a b : regex) (s : str) :
  matches (alt a b) s <-> matches (Alt a b) s.
Proof.
  assert (Hl : forall b', matches b' s <-> matches (Alt Nul b') s).
  { intros b'. split; [now apply M_alt_r|].
    intros H. inversion H as [| | |? ? ? Hu|? ? ? Hu| |]; subst;
      [inversion Hu|exact Hu]. }
  assert (Hr : forall a', matches a' s <-> matches (Alt a' Nul) s).
  { intros a'. split; [now apply M_alt_l|].
    intros H. inversion H as [| | |? ? ? Hu|? ? ? Hu| |]; subst;
      [exact Hu|inversion Hu]. }
  destruct a, b; simpl; try reflexivity; try apply Hl; try apply Hr.
Qed.

(** A match of [Star a] on a string that is not empty starts with a match
    of [a] that is not empty. *)
Lemma star_cons (a : regex) (c : ascii) (s : str) :
  matches (Star a) (c :: s) ->
  exists s1 s2, s = s1 ++ s2 /\ matches a (c :: s1) /\ matches (Star a) s2.
Proof.
  intros H. remember (Star a) as r eqn:Er. remember (c :: s) as w eqn:Ew.
  revert Er Ew.
  induction H as [| | | | | |a' u v Hu _ Hv IHv]; intros Er Ew;
    try discriminate.
  injection Er as ->.
  destruct u as [|d u].
  - simpl in Ew. now apply IHv.
  - simpl in Ew. injection Ew as Hd Hs. subst d s. now exists u, v.
Qed.

Lemma deriv_matches (r : regex) : forall (c : ascii) (s : str),
  matches (deriv c r) s <-> matches r (c :: s).
Proof.
  induction r as [| |p|a IHa b IHb|a IHa b IHb|a IHa]; intros c s; simpl.
  - split; intros H; inversion H.
  - split; intros H; inversion H.
  - destruct (p c) eqn:E; split; intros H.
    + inversion H; subst. now constructor.
    + inversion H; subst. constructor.
    + inversion H.
    + inversion H; subst. congruence.
  - assert (Hcat : matches (Cat (deriv c a) b) s <->
                   exists u v, s = u ++ v /\ matches a (c :: u) /\ matches b v).
    { split.
      - intros H. inversion H as [| |? ? u v Hu Hv| | | |]; subst.
        exists u, v. rewrite <- IHa. auto.
      - intros (u & v & -> & Hu & Hv). constructor; auto. now apply IHa. }
    assert (Hsplit : matches (Cat a b) (c :: s) <->
                     (exists u v, s = u ++ v /\ matches a (c :: u) /\ matches b v)
                     \/ (matches a [] /\ matches b (c :: s))).
    { split.
      - intros H. inversion H as [| |? ? u v Hu Hv Hr Hs| | | |]; subst.
        destruct u as [|d u]; simpl in Hs.
        + subst v. now right.
        + injection Hs as Hd Hs. subst d s. left. now exists u, v.
      - intros [(u & v & -> & Hu & Hv)|[Hu Hv]].
        + exact (M_cat a b (c :: u) v Hu Hv).
        + exact (M_cat a b [] (c :: s) Hu Hv). }
    rewrite Hsplit.
    destruct (nullable a) eqn:En.
    + rewrite alt_matches. split.
      * intros H. inversion H as [| | |? ? ? Hu|? ? ? Hu| |]; subst.
        -- left. now apply Hcat, cat_matches.
        -- right. split; [now apply nullable_matches|now apply IHb].
      * intros [H|[_ H]].
        -- apply M_alt_l, cat_matches, Hcat, H.
        -- apply M_alt_r, IHb, H.
    + rewrite cat_matches, Hcat. split; [now left|].
      intros [H|[H _]]; [exact H|].
      apply nullable_matches in H. congruence.
  - rewrite alt_matches. split; intros H; inversion H; subst.
    + apply M_alt_l. now apply IHa.
    + apply M_alt_r. now apply IHb.
    + apply M_alt_l. now apply IHa.
    + apply M_alt_r. now apply IHb.
  - rewrite cat_matches. split.
    + intros H. inversion H as [| |? ? u v Hu Hv| | | |]; subst.
      apply IHa in Hu. exact (M_star_app a (c :: u) v Hu Hv).
    + intros H. destruct (star_cons a c s H) as (u & v & -> & Hu & Hv).
      constructor; auto. now apply IHa.
Qed.

(** [fullmatch] decides membership in the language of the pattern. *)
Lemma fullmatch_matches (s : str) : forall r : regex,
  fullmatch r s = true <-> matches r s.
Proof.
  induction s as [|c s IH]; intros r; simpl.
  - apply nullable_matches.
  - rewrite IH. apply deriv_matches.
Qed.

(** [rmatch] decides whether a prefix of the string is in the language. *)
Lemma rmatch_matches (s : str) : forall r : regex,
  rmatch r s = true <-> exists p t, s = p ++ t /\ matches r p.
Proof.
  induction s as [|c s IH]; intros r; simpl.
  - rewrite orb_false_r, nullable_matches. split.
    + intros H. now exists [], [].
    + intros (p & t & E & H). symmetry in E.
      apply app_eq_nil in E as [-> _]. exact H.
  - rewrite orb_true_iff, nullable_matches, IH. split.
    + intros [H|(p & t & -> & H)].
      * now exists [], (c :: s).
      * exists (c :: p), t. split; [reflexivity|]. now apply deriv_matches.
    + intros (p & t & E & H). destruct p as [|d p]; [now left|].
      simpl in E. injection E as -> ->. right.
      exists p, t. split; [reflexivity|]. now apply deriv_matches.
Qed.

(** [search_eos] decides whether a suffix of the string is in the language
    of the pattern followed by an optional newline. *)
Lemma search_eos_matches (r : regex) (s : str) :
  search_eos r s = true <->
  exists p t, s = p ++ t /\ matches (Cat r (opt (Cls is_nl))) t.
Proof.
  induction s as [|c s IH]; simpl.
  - rewrite orb_false_r. split.
    + intros H. exists [], []. split; [reflexivity|].
      apply (fullmatch_matches [] (Cat r (opt (Cls is_nl)))). exact H.
    + intros (p & t & E & H). symmetry in E.
      apply app_eq_nil in E as [_ ->].
      apply (fullmatch_matches [] (Cat r (opt (Cls is_nl)))). exact H.
  - rewrite orb_true_iff, IH. split.
    + intros [H|(p & t & -> & H)].
      * exists [], (c :: s). split; [reflexivity|].
        apply (fullmatch_matches (c :: s) (Cat r (opt (Cls is_nl)))).
        exact H.
      * now exists (c :: p), t.
    + intros (p & t & E & H). destruct p as [|d p].
      * left. simpl in E. subst t.
        apply (fullmatch_matches (c :: s) (Cat r (opt (Cls is_nl)))).
        exact H.
      * right. simpl in E. injection E as -> ->. now exists p, t.
Qed.

End Matcher.

(* ================================================================== *)
(** * Properties of analyze_code.py *)
(* ================================================================== *)

Section FileTiers.

Import AnalyzeCode.

Example get_priority_modeling_bert :
  get_priority (py "modeling_bert.py") = 0.
Proof. vm_compute. reflexivity. Qed.

Example get_priority_config :
  get_priority (py "config.py") = 1.
Proof. vm_compute. reflexivity. Qed.

(** The tier-3 pattern asks for [_utils.py] at the end of the name. *)
Example get_priority_random_utils :
  get_priority (py "random_utils.py") = 3.
Proof. vm_compute. reflexivity. Qed.

(** C4, as stated: the three names do not get the tiers 0, 1 and 3. *)
Lemma C4_tiers_counterexample :
  ~ (map get_priority
       [py "modeling_bert.py"; py "config.py"; py "random_util.py"]
     = [0; 1; 3]).
Proof. vm_compute. discriminate. Qed.

(** C4, amended: under the tier pattern table, [get_priority] gives
    "modeling_bert.py" tier 0, "config.py" tier 1 and "random_util.py" the
    default tier 99, since no pattern of tier 3 matches a name that ends in
    [_util.py]. *)
Theorem C4_tiers :
  map get_priority
    [py "modeling_bert.py"; py "config.py"; py "random_util.py"]
  = [0; 1; 99].
Proof. vm_compute. reflexivity. Qed.

End FileTiers.

(** ** The file packer [generate_chunks] *)

Section FilePacker.

Import AnalyzeCode.

Variable read : str -> option str.
Variable max_tokens : Z.

Lemma estimate_tokens_nonneg (s : str) : (0 <= estimate_tokens s)%Z.
Proof. unfold estimate_tokens. apply Z.div_pos; lia. Qed.

Lemma members_flush (st : gen_state) : members (flush st) = members st.
Proof.
  unfold members, flush; simpl.
  rewrite map_app, concat_app; simpl.
  now rewrite !app_nil_r.
Qed.

Lemma members_gen_step (st : gen_state) (f : FileInfo) :
  members (gen_step read max_tokens st f)
  = members st ++ map member_name (readable_contents read [f]).
Proof.
  unfold gen_step, readable_contents; simpl.
  destruct (read (path f)) as [source|]; simpl.
  - destruct ((current_tokens st + _ >? max_tokens)%Z
              && truthy (current_chunk st))%bool.
    + rewrite <- (members_flush st).
      unfold members; simpl. rewrite !app_nil_r. reflexivity.
    + unfold members; simpl. rewrite map_app, <- app_assoc. reflexivity.
  - now rewrite app_nil_r.
Qed.

Lemma readable_contents_cons (f : FileInfo) (fs : list FileInfo) :
  readable_contents read (f :: fs) = readable_contents read [f] ++ readable_contents read fs.
Proof. unfold readable_contents; simpl. now rewrite app_nil_r. Qed.

Lemma members_fold (fs : list FileInfo) : forall st,
  members (fold_left (gen_step read max_tokens) fs st)
  = members st ++ map member_name (readable_contents read fs).
Proof.
  induction fs as [|f fs IH]; intros st.
  - simpl. now rewrite app_nil_r.
  - cbn [fold_left].
    rewrite IH, members_gen_step, <- app_assoc, <- map_app.
    now rewrite <- readable_contents_cons.
Qed.

(** Concatenating the [files] lists of the chunks gives the first lines of
    the readable files, in input order. *)
Lemma generate_chunks_members (fs : list FileInfo) :
  concat (map files (generate_chunks read max_tokens fs))
  = map member_name (readable_contents read fs).
Proof.
  unfold generate_chunks, gen_run.
  pose proof (members_fold fs gen_init) as H.
  set (st := fold_left (gen_step read max_tokens) fs gen_init) in *.
  destruct (current_chunk st) eqn:E; simpl.
  - unfold members in H. rewrite E in H. simpl in H.
    now rewrite app_nil_r in H.
  - transitivity (members (flush st)).
    + unfold members, flush; simpl. now rewrite app_nil_r.
    + rewrite members_flush. exact H.
Qed.

(** *** Size of the chunks *)

Lemma gen_inv_flush fs st :
  gen_inv read max_tokens fs st -> current_chunk st <> [] -> gen_inv read max_tokens fs (flush st).
Proof.
  intros (Hc & Hz & Hk) Hne. unfold gen_inv, flush; simpl.
  repeat split.
  - apply Forall_app; split; auto.
  - intros H; now elim H.
Qed.

(** The accumulator right after a file is added to an empty one. *)
Lemma single_file_ok fs f source idx name :
  In f fs -> read (path f) = Some source ->
  file_chunk_ok read max_tokens fs
    {| index := idx; chunk_priority := priority f; filename := name;
       files := map member_name ([] ++ [file_content_of f source]);
       tokens := 0 + estimate_tokens (file_content_of f source) |}.
Proof.
  intros Hin Hr. unfold file_chunk_ok; simpl.
  destruct (Z_le_gt_dec (estimate_tokens (file_content_of f source)) max_tokens)
    as [Hle|Hgt]; [now left|right].
  exists f, source. repeat split; auto.
Qed.

Lemma gen_inv_step fs st f :
  In f fs -> gen_inv read max_tokens fs st -> gen_inv read max_tokens fs (gen_step read max_tokens st f).
Proof.
  intros Hin Hinv. unfold gen_step.
  destruct (read (path f)) as [source|] eqn:Hr; [|exact Hinv].
  destruct ((current_tokens st + estimate_tokens (file_content_of f source)
               >? max_tokens)%Z
            && truthy (current_chunk st))%bool eqn:Hb.
  - apply andb_true_iff in Hb as [_ Hne].
    assert (Hne' : current_chunk st <> []).
    { destruct (current_chunk st); [discriminate|congruence]. }
    destruct (gen_inv_flush _ _ Hinv Hne') as (Hc & Hz & _).
    repeat split; simpl.
    + exact Hc.
    + intros H; discriminate.
    + intros _. unfold chunk_of; simpl. now apply single_file_ok.
  - destruct Hinv as (Hc & Hz & Hk).
    repeat split; simpl.
    + exact Hc.
    + intros H. destruct (current_chunk st); discriminate.
    + intros _. apply andb_false_iff in Hb as [Hb|Hb].
      * left; simpl. rewrite Z.gtb_ltb in Hb. now apply Z.ltb_ge in Hb.
      * destruct (current_chunk st) eqn:E; [|discriminate].
        unfold chunk_of; simpl. rewrite (Hz eq_refl).
        now apply single_file_ok.
Qed.

Lemma gen_inv_fold fs0 fs : forall st,
  incl fs fs0 -> gen_inv read max_tokens fs0 st ->
  gen_inv read max_tokens fs0 (fold_left (gen_step read max_tokens) fs st).
Proof.
  induction fs as [|f fs IH]; intros st Hincl Hinv; simpl; auto.
  apply IH.
  - intros x Hx. apply Hincl. now right.
  - apply gen_inv_step; auto. apply Hincl. now left.
Qed.

(** Every chunk of [generate_chunks] is within the budget, unless it holds
    one file that alone is above it. *)
Lemma generate_chunks_sizes (fs : list FileInfo) :
  Forall (file_chunk_ok read max_tokens fs) (generate_chunks read max_tokens fs).
Proof.
  unfold generate_chunks, gen_run.
  assert (H0 : gen_inv read max_tokens fs gen_init).
  { repeat split; simpl; auto. intros H; now elim H. }
  pose proof (gen_inv_fold fs fs _ (incl_refl fs) H0) as H.
  set (st := fold_left (gen_step read max_tokens) fs gen_init) in *.
  destruct (current_chunk st) eqn:E; simpl.
  - apply H.
  - assert (Hne : current_chunk st <> []) by (rewrite E; discriminate).
    apply (gen_inv_flush _ _ H Hne).
Qed.

End FilePacker.

(* ================================================================== *)
(** * Properties of chunk_paper.py *)
(* ================================================================== *)

(** ** The paragraph splitter [split_by_tokens] *)

Section ParagraphSplitter.

Import ChunkPaper.

Variable max_tokens : Z.
Variable section_name : str.

Lemma paper_tokens_nonneg (s : str) : (0 <= estimate_tokens s)%Z.
Proof. unfold estimate_tokens. apply Z.div_pos; lia. Qed.

Lemma para_text_app (g h : list str) :
  para_text (g ++ h) = para_text g ++ para_text h.
Proof. unfold para_text. apply flat_map_app. Qed.

Lemma para_text_single (para : str) :
  para_text [para] = para ++ [NL; NL].
Proof. unfold para_text; simpl. now rewrite app_nil_r. Qed.

Lemma para_tokens_app (g h : list str) :
  para_tokens (g ++ h) = (para_tokens g + para_tokens h)%Z.
Proof. induction g as [|p g IH]; simpl; [reflexivity|]. rewrite IH. lia. Qed.

Lemma para_tokens_nonneg (g : list str) : (0 <= para_tokens g)%Z.
Proof.
  induction g as [|p g IH]; simpl; [lia|].
  pose proof (paper_tokens_nonneg p). lia.
Qed.

Lemma para_text_truthy (g : list str) :
  truthy (para_text g) = truthy g.
Proof.
  destruct g as [|p g]; [reflexivity|].
  unfold para_text; simpl. destruct p; reflexivity.
Qed.

Lemma group_ok_single (para : str) : group_ok max_tokens [para].
Proof.
  unfold group_ok; simpl.
  destruct (Z_le_gt_dec (estimate_tokens para) max_tokens) as [H|H].
  - left. lia.
  - right. now exists para.
Qed.

(** The two cases of an iteration of [split_by_tokens]. *)
Lemma para_step_flush (st : para_state) (para : str) :
  (current_tokens st + estimate_tokens para > max_tokens)%Z ->
  current_text st <> [] ->
  para_step max_tokens section_name st para
  = {| para_chunks := para_chunks st ++ [para_chunk section_name st];
       current_text := para ++ [NL; NL];
       current_tokens := estimate_tokens para |}.
Proof.
  intros Hgt Hne. unfold para_step.
  replace (current_tokens st + estimate_tokens para >? max_tokens)%Z
    with true by (symmetry; apply Z.gtb_lt; lia).
  destruct (current_text st); [congruence|reflexivity].
Qed.

Lemma para_step_keep (st : para_state) (para : str) :
  (current_tokens st + estimate_tokens para <= max_tokens)%Z \/
  current_text st = [] ->
  para_step max_tokens section_name st para
  = {| para_chunks := para_chunks st;
       current_text := current_text st ++ para ++ [NL; NL];
       current_tokens := current_tokens st + estimate_tokens para |}.
Proof.
  intros H. unfold para_step.
  replace ((current_tokens st + estimate_tokens para >? max_tokens)%Z
           && truthy (current_text st))%bool with false; [reflexivity|].
  symmetry. apply andb_false_iff. destruct H as [H| ->]; [left|now right].
  rewrite Z.gtb_ltb. apply Z.ltb_ge. lia.
Qed.

Lemma para_inv_init :
  para_inv max_tokens section_name []
    {| para_chunks := []; current_text := []; current_tokens := 0 |}.
Proof.
  exists [], []. repeat split; simpl; auto.
Qed.

Lemma para_inv_step (done : list str) (st : para_state) (para : str) :
  para_inv max_tokens section_name done st ->
  para_inv max_tokens section_name (done ++ [para])
    (para_step max_tokens section_name st para).
Proof.
  intros (groups & cur & Hd & Hc & Ht & Hn & Hg & Hcur).
  unfold para_step.
  destruct ((current_tokens st + estimate_tokens para >? max_tokens)%Z
            && truthy (current_text st))%bool eqn:Hb.
  - apply andb_true_iff in Hb as [_ Hne].
    rewrite Ht, para_text_truthy in Hne.
    assert (Hcne : cur <> []) by (destruct cur; [discriminate|congruence]).
    exists (groups ++ [cur]), [para]. simpl. repeat split.
    + rewrite concat_app; simpl. rewrite app_nil_r, Hd. reflexivity.
    + rewrite map_app, Hc; simpl. unfold para_chunk, group_chunk.
      now rewrite Ht, Hn.
    + now rewrite app_nil_r.
    + lia.
    + apply Forall_app; split; auto. constructor; auto.
      split; auto. destruct Hcur; [contradiction|assumption].
    + right. apply group_ok_single.
  - exists groups, (cur ++ [para]). repeat split; auto.
    + rewrite Hd. now rewrite app_assoc.
    + simpl. now rewrite Ht, para_text_app, para_text_single.
    + simpl. rewrite Hn, para_tokens_app; simpl. lia.
    + right. apply andb_false_iff in Hb as [Hb|Hb].
      * left. rewrite para_tokens_app; simpl.
        rewrite Z.gtb_ltb in Hb. apply Z.ltb_ge in Hb. lia.
      * rewrite Ht, para_text_truthy in Hb.
        destruct cur; [|discriminate]. apply group_ok_single.
Qed.

Lemma para_inv_fold (paras : list str) : forall done st,
  para_inv max_tokens section_name done st ->
  para_inv max_tokens section_name (done ++ paras)
    (fold_left (para_step max_tokens section_name) paras st).
Proof.
  induction paras as [|p paras IH]; intros done st H; simpl.
  - now rewrite app_nil_r.
  - replace (done ++ p :: paras) with ((done ++ [p]) ++ paras)
      by (rewrite <- app_assoc; reflexivity).
    apply IH. now apply para_inv_step.
Qed.

(** [split_by_tokens] cuts the paragraphs of the text, in order, into runs:
    each chunk is one run, every run is within the budget or is a single
    paragraph above it, and only a blank tail is dropped. *)
Lemma split_by_tokens_groups (text_ : str) :
  exists groups rest,
    split [NL; NL] text_ = concat groups ++ rest /\
    split_by_tokens text_ max_tokens section_name
      = map (group_chunk section_name) groups /\
    Forall (fun g => g <> [] /\ group_ok max_tokens g) groups /\
    strip (para_text rest) = [].
Proof.
  unfold split_by_tokens, split_by_tokens_from.
  destruct (para_inv_fold (split [NL; NL] text_) [] _ para_inv_init)
    as (groups & cur & Hd & Hc & Ht & Hn & Hg & Hcur).
  simpl in Hd. unfold para_finish.
  destruct (truthy (strip (current_text _))) eqn:Hs.
  - exists (groups ++ [cur]), []. repeat split.
    + rewrite concat_app; simpl. now rewrite !app_nil_r.
    + rewrite map_app, Hc; simpl. unfold para_chunk, group_chunk.
      now rewrite Ht, Hn.
    + apply Forall_app; split; auto. constructor; auto.
      rewrite Ht in Hs. destruct Hcur as [->|Hok]; [discriminate|].
      split; auto. intros ->. discriminate.
  - exists groups, cur. repeat split; auto.
    rewrite Ht in Hs. destruct (strip (para_text cur)); [reflexivity|discriminate].
Qed.

End ParagraphSplitter.

(** ** The section packer of [split_into_chunks] *)

Section SectionPacker.

Import ChunkPaper.

Variable text_ : str.
Variable max_tokens : Z.

Lemma truthy_false {A} (l : list A) : truthy l = false -> l = [].
Proof. destruct l; [reflexivity|discriminate]. Qed.

Lemma truthy_true {A} (l : list A) : truthy l = true -> l <> [].
Proof. destruct l; [discriminate|congruence]. Qed.

Lemma tidy_init : tidy pack_init.
Proof. intros _. split; reflexivity. Qed.

Lemma tidy_flush_if b st : tidy st -> tidy (flush_if b st).
Proof.
  intros H. destruct b; simpl; [|exact H]. intros _. split; reflexivity.
Qed.

Lemma pack_members_flush st :
  tidy st ->
  pack_members (flush_if (truthy (oc_text (current_chunk st))) st)
  = pack_members st.
Proof.
  intros Ht. destruct (truthy _) eqn:E; simpl; [|reflexivity].
  unfold pack_members; simpl.
  rewrite map_app, concat_app; simpl. now rewrite !app_nil_r.
Qed.

Lemma pack_members_flush_if b st :
  b = true -> pack_members (flush_if b st) = pack_members st.
Proof.
  intros ->. unfold pack_members; simpl.
  rewrite map_app, concat_app; simpl. now rewrite !app_nil_r.
Qed.

Lemma sections_tag_sub_chunks sec (l : list chunk) :
  concat (map sections (map (tag_sub_chunk sec) l))
  = map (fun _ => sr_name sec) l.
Proof. induction l as [|c l IH]; simpl; [reflexivity|now rewrite IH]. Qed.

Lemma tidy_step st sec : tidy st -> tidy (pack_step text_ max_tokens st sec).
Proof.
  intros Ht. unfold pack_step.
  destruct (estimate_tokens _ >? max_tokens)%Z.
  - exact (tidy_flush_if _ _ Ht).
  - intros H; simpl in H. apply app_eq_nil in H as [_ H].
    apply app_eq_nil in H as [_ H]. discriminate.
Qed.

Lemma pack_members_step st sec :
  tidy st ->
  pack_members (pack_step text_ max_tokens st sec)
  = pack_members st ++ range_members text_ max_tokens sec.
Proof.
  intros Ht. unfold pack_step, range_members, oversized, range_text.
  destruct (estimate_tokens _ >? max_tokens)%Z.
  - rewrite <- (pack_members_flush _ Ht).
    set (st1 := flush_if _ st).
    assert (E : oc_sections (current_chunk st1) = []).
    { unfold st1. destruct (truthy _) eqn:E; simpl; [reflexivity|].
      now apply Ht, truthy_false. }
    unfold pack_members; simpl.
    rewrite map_app, concat_app, sections_tag_sub_chunks, E, !app_nil_r.
    reflexivity.
  - set (b := (_ && _)%bool). destruct b eqn:Hb.
    + rewrite <- (pack_members_flush_if true st eq_refl).
      unfold pack_members; simpl. now rewrite app_nil_r.
    + unfold pack_members; simpl. now rewrite app_assoc.
Qed.

Lemma pack_members_fold (ranges : list section_range) : forall st,
  tidy st ->
  tidy (fold_left (pack_step text_ max_tokens) ranges st) /\
  pack_members (fold_left (pack_step text_ max_tokens) ranges st)
  = pack_members st ++ flat_map (range_members text_ max_tokens) ranges.
Proof.
  induction ranges as [|r ranges IH]; intros st Ht; simpl.
  - split; auto. now rewrite app_nil_r.
  - destruct (IH (pack_step text_ max_tokens st r) (tidy_step _ r Ht)) as [H1 H2].
    split; auto. rewrite H2, pack_members_step by exact Ht.
    now rewrite app_assoc.
Qed.

(** Before the sort, the [sections] lists of the chunks, concatenated in
    chunk order, list the sections in input order. *)
Lemma pack_members_exact (ranges : list section_range) :
  concat (map sections (pack text_ max_tokens ranges))
  = flat_map (range_members text_ max_tokens) ranges.
Proof.
  unfold pack.
  destruct (pack_members_fold ranges _ tidy_init) as [Ht H].
  set (st := fold_left (pack_step text_ max_tokens) ranges pack_init) in *.
  rewrite <- (pack_members_flush _ Ht) in H.
  destruct (truthy (oc_text (current_chunk st))) eqn:E; simpl in *.
  - unfold pack_members in H; simpl in H. now rewrite app_nil_r in H.
  - unfold pack_members in H.
    destruct (Ht (truthy_false _ E)) as [E1 _].
    rewrite E1, app_nil_r in H. exact H.
Qed.

(** *** Size of the chunks *)

Lemma paper_chunk_ok_sub sec a b (c : chunk) :
  In c (split_by_tokens (slice text_ a b) max_tokens (sr_name sec)) ->
  paper_chunk_ok text_ max_tokens (tag_sub_chunk sec c).
Proof.
  destruct (split_by_tokens_groups max_tokens (sr_name sec) (slice text_ a b))
    as (groups & rest & Hs & Hc & Hg & _).
  rewrite Hc. intros Hin. apply in_map_iff in Hin as (g & <- & Hin).
  rewrite Forall_forall in Hg. destruct (Hg g Hin) as [_ [Hle|(para & -> & Hgt)]].
  - now left.
  - right. exists a, b, para. split; [|split; [exact Hgt|split]].
    + rewrite Hs. apply in_or_app. left.
      apply in_concat. exists [para]. split; [exact Hin|now left].
    + simpl. lia.
    + cbn [text tag_sub_chunk group_chunk]. now rewrite para_text_single.
Qed.

Lemma pack_size_inv_flush_if b st :
  tidy st -> pack_size_inv text_ max_tokens st ->
  (b = true -> oc_text (current_chunk st) <> []) ->
  pack_size_inv text_ max_tokens (flush_if b st).
Proof.
  intros Ht [Hc Hk] Hb. destruct b; simpl; [|split; assumption].
  split; simpl.
  - apply Forall_app; split; auto. constructor; auto.
    left; simpl. apply Hk, Hb. reflexivity.
  - intros H; now elim H.
Qed.

Lemma pack_size_inv_step st sec :
  tidy st -> pack_size_inv text_ max_tokens st ->
  pack_size_inv text_ max_tokens (pack_step text_ max_tokens st sec).
Proof.
  intros Ht Hinv. unfold pack_step.
  destruct (estimate_tokens _ >? max_tokens)%Z eqn:Hov.
  - assert (H1 : pack_size_inv text_ max_tokens
                   (flush_if (truthy (oc_text (current_chunk st))) st)).
    { apply pack_size_inv_flush_if; auto. apply truthy_true. }
    destruct H1 as [Hc Hk]. split; simpl; auto.
    apply Forall_app; split; auto.
    apply Forall_forall. intros c Hin.
    apply in_map_iff in Hin as (c0 & <- & Hin).
    now apply paper_chunk_ok_sub with (a := sr_start sec) (b := sr_end sec).
  - set (b := (_ && _)%bool). 
    assert (H1 : pack_size_inv text_ max_tokens (flush_if b st)).
    { apply pack_size_inv_flush_if; auto. unfold b. intros Hb.
      apply andb_true_iff in Hb as [_ Hb]. now apply truthy_true. }
    destruct H1 as [Hc Hk]. split; simpl; auto.
    intros _. rewrite Z.gtb_ltb in Hov. apply Z.ltb_ge in Hov.
    destruct b eqn:Hb; simpl.
    + lia.
    + unfold b in Hb. apply andb_false_iff in Hb as [Hb|Hb].
      * rewrite Z.gtb_ltb in Hb. apply Z.ltb_ge in Hb. exact Hb.
      * destruct (Ht (truthy_false _ Hb)) as [_ E]. rewrite E. lia.
Qed.

Lemma pack_size_inv_fold (ranges : list section_range) : forall st,
  tidy st -> pack_size_inv text_ max_tokens st ->
  tidy (fold_left (pack_step text_ max_tokens) ranges st) /\
  pack_size_inv text_ max_tokens (fold_left (pack_step text_ max_tokens) ranges st).
Proof.
  induction ranges as [|r ranges IH]; intros st Ht Hinv; simpl; auto.
  apply IH; [now apply tidy_step|now apply pack_size_inv_step].
Qed.

(** Every chunk of the packer is within the budget, unless it is a single
    paragraph that alone is above it. *)
Lemma pack_sizes (ranges : list section_range) :
  Forall (paper_chunk_ok text_ max_tokens) (pack text_ max_tokens ranges).
Proof.
  unfold pack.
  assert (H0 : pack_size_inv text_ max_tokens pack_init).
  { split; simpl; auto. intros H; now elim H. }
  destruct (pack_size_inv_fold ranges _ tidy_init H0) as [Ht Hinv].
  apply pack_size_inv_flush_if; auto. apply truthy_true.
Qed.

End SectionPacker.

(** ** Sorting and numbering the chunks *)

Section SortAndNumber.

Import ChunkPaper.

Lemma insert_chunk_perm (x : chunk) (l : list chunk) :
  Permutation (insert_chunk x l) (x :: l).
Proof.
  induction l as [|y l IH]; simpl; [reflexivity|].
  destruct (priority_key x <=? priority_key y); [reflexivity|].
  rewrite IH. apply perm_swap.
Qed.

Lemma sort_chunks_perm (l : list chunk) : Permutation (sort_chunks l) l.
Proof.
  induction l as [|x l IH]; simpl; [reflexivity|].
  rewrite insert_chunk_perm. now constructor.
Qed.

Lemma insert_chunk_sorted (x : chunk) (l : list chunk) :
  Sorted (fun a b => priority_key a <= priority_key b) l ->
  Sorted (fun a b => priority_key a <= priority_key b) (insert_chunk x l).
Proof.
  induction 1 as [|y l Hs IH Hd]; simpl.
  - repeat constructor.
  - destruct (priority_key x <=? priority_key y) eqn:E.
    + apply Nat.leb_le in E. repeat constructor; auto.
    + apply Nat.leb_gt in E. constructor; auto.
      destruct l as [|z l]; simpl in *.
      * constructor. lia.
      * destruct (priority_key x <=? priority_key z); constructor; try lia.
        now inversion Hd.
Qed.

(** The returned chunks are in non-decreasing order of priority. *)
Lemma sort_chunks_sorted (l : list chunk) :
  Sorted (fun a b => priority_key a <= priority_key b) (sort_chunks l).
Proof.
  induction l as [|x l IH]; simpl; [constructor|].
  now apply insert_chunk_sorted.
Qed.

(** The sort is stable: it leaves a list that is already in order as it
    is. *)
Lemma sort_chunks_id (l : list chunk) :
  Sorted (fun a b => priority_key a <= priority_key b) l ->
  sort_chunks l = l.
Proof.
  induction 1 as [|x l Hs IH Hd]; simpl; [reflexivity|].
  rewrite IH. destruct Hd as [|y l Hxy]; simpl; [reflexivity|].
  apply Nat.leb_le in Hxy. now rewrite Hxy.
Qed.

Lemma number_from_sections (l : list chunk) : forall i n,
  map sections (number_from i n l) = map sections l.
Proof. induction l as [|c l IH]; intros i n; simpl; [|rewrite IH]; reflexivity. Qed.

Lemma number_from_length (l : list chunk) : forall i n,
  length (number_from i n l) = length l.
Proof. induction l as [|c l IH]; intros i n; simpl; [|rewrite IH]; reflexivity. Qed.

(** Numbering changes the keys [index] and [total] only. *)
Lemma number_from_In (l : list chunk) : forall i n c,
  In c (number_from i n l) ->
  exists c0, In c0 l /\
    sections c = sections c0 /\ text c = text c0 /\
    priority c = priority c0 /\ tokens c = tokens c0 /\
    (exists k, index c = Some k) /\ total c = Some n.
Proof.
  induction l as [|c0 l IH]; intros i n c H; simpl in H; [contradiction|].
  destruct H as [<-|H].
  - exists c0. simpl. repeat split; auto. now exists i.
  - destruct (IH _ _ _ H) as (c1 & Hin & Hrest).
    exists c1. split; [now right|exact Hrest].
Qed.

Lemma number_chunks_ok text_ max_tokens (l : list chunk) :
  Forall (paper_chunk_ok text_ max_tokens) l ->
  Forall (paper_chunk_ok text_ max_tokens) (number_chunks (sort_chunks l)).
Proof.
  intros H. apply Forall_forall. intros c Hin.
  destruct (number_from_In _ _ _ _ Hin) as (c0 & Hin0 & _ & Ht & _ & Hk & _).
  rewrite Forall_forall in H.
  apply (Permutation_in _ (sort_chunks_perm l)) in Hin0.
  destruct (H c0 Hin0) as [Hle|(a & b & para & H1 & H2 & H3 & H4)].
  - left. now rewrite Hk.
  - right. exists a, b, para. rewrite Hk, Ht. auto.
Qed.

(** *** Saving numbered chunks *)

Lemma save_loop_numbered base_name (l : list chunk) : forall st,
  Forall (fun c => (exists k, index c = Some k) /\
                   (exists n, total c = Some n)) l ->
  exists st', save_loop base_name st l = Ok st' /\
              length (entries st') = length (entries st) + length l.
Proof.
  induction l as [|c l IH]; intros st H; simpl.
  - exists st. split; [reflexivity|lia].
  - inversion H as [|? ? [[k Hk] [n Hn]] Hl]; subst.
    unfold save_step. rewrite Hk, Hn; simpl.
    match goal with
    | |- exists st', save_loop _ ?s l = _ /\ _ =>
        destruct (IH s Hl) as (st' & Heq & Hlen)
    end.
    exists st'. split; [exact Heq|].
    rewrite Hlen; simpl. rewrite length_app; simpl. lia.
Qed.

(** [save_chunks] completes on every list that [number_chunks] returns. *)
Lemma save_chunks_numbered base_name (l : list chunk) :
  exists disk_ names,
    save_chunks base_name (number_chunks l) = Ok (disk_, names).
Proof.
  unfold save_chunks.
  destruct (save_loop_numbered base_name (number_chunks l)
              {| disk := []; saved_files := []; entries := [] |})
    as (st' & -> & _).
  - apply Forall_forall. intros c Hin.
    destruct (number_from_In _ _ _ _ Hin) as (_ & _ & _ & _ & _ & _ & Hk & Hn).
    split; [exact Hk|eauto].
  - simpl. eauto.
Qed.

(** A chunk list whose first dict has no key [index] makes [save_chunks]
    raise KeyError before it writes the manifest. *)
Lemma save_chunks_unnumbered base_name (c : chunk) (l : list chunk) :
  index c = None ->
  save_chunks base_name (c :: l) = Raise (KeyError (py "index")).
Proof.
  intros H. unfold save_chunks; simpl. unfold save_step. now rewrite H.
Qed.

End SortAndNumber.

(** ** Stripping and splitting into words *)

Section Strings.

Lemma lstrip_head (s t : str) (c : ascii) :
  lstrip s = c :: t -> is_space c = false.
Proof.
  induction s as [|d s IH]; simpl; [discriminate|].
  destruct (is_space d) eqn:E; [exact IH|].
  intros H. injection H as <- _. exact E.
Qed.

(** A stripped string that is not empty holds a character that is not
    whitespace. *)
Lemma strip_nonspace (s : str) :
  strip s <> [] -> exists c, In c (strip s) /\ is_space c = false.
Proof.
  unfold strip, rstrip.
  destruct (lstrip (rev (lstrip s))) as [|c t] eqn:E; simpl.
  - intros H; now elim H.
  - intros _. exists c. split.
    + apply in_or_app. right. now left.
    + exact (lstrip_head _ _ _ E).
Qed.

Lemma words_go_open (s : str) : forall cur,
  cur <> [] -> words_go cur s <> [].
Proof.
  induction s as [|c s IH]; intros cur H; simpl.
  - destruct cur; [congruence|discriminate].
  - destruct (is_space c).
    + destruct cur; [congruence|discriminate].
    + apply IH. discriminate.
Qed.

Lemma words_go_nonspace (s : str) : forall cur c,
  In c s -> is_space c = false -> words_go cur s <> [].
Proof.
  induction s as [|d s IH]; intros cur c Hin Hc; simpl; [contradiction|].
  destruct Hin as [->|Hin].
  - rewrite Hc. apply words_go_open. discriminate.
  - destruct (is_space d).
    + destruct cur; [now apply (IH [] c)|discriminate].
    + now apply (IH _ c).
Qed.

Lemma words_strip (s : str) : strip s <> [] -> words (strip s) <> [].
Proof.
  intros H. destruct (strip_nonspace s H) as (c & Hin & Hc).
  now apply (words_go_nonspace _ [] c).
Qed.

End Strings.

(** ** The heading scan [identify_sections] *)

Section Headings.

Import ChunkPaper.

Lemma section_at_spec (text_ : str) (p : nat) (s : section) :
  In s (section_at text_ p) ->
  s = (p, line_at text_ p, normalize (line_at text_ p)) /\
  length (line_at text_ p) <= 100 /\
  existsb (fun pattern => Re.rmatch pattern (line_at text_ p))
          SECTION_PATTERNS = true.
Proof.
  unfold section_at.
  destruct ((0 <? p) && _)%bool; [contradiction|].
  destruct (negb (truthy (line_at text_ p)) || (100 <? length (line_at text_ p)))%bool
    eqn:E; [contradiction|].
  apply orb_false_iff in E as [_ E]. apply Nat.ltb_ge in E.
  destruct (existsb _ SECTION_PATTERNS) eqn:Hm; [|contradiction].
  intros [<-|[]]. auto.
Qed.

Lemma identify_sections_In (text_ : str) (s : section) :
  In s (identify_sections text_) <->
  exists p, p < length text_ /\ In s (section_at text_ p).
Proof.
  unfold identify_sections. rewrite in_flat_map. split.
  - intros (p & Hp & Hs). exists p. split; auto.
    apply in_seq in Hp. lia.
  - intros (p & Hp & Hs). exists p. split; auto.
    apply in_seq. lia.
Qed.

(** The scan of the positions [a .. a+n-1] lists its headings by
    increasing start, none before [a]. *)
Lemma scan_sorted (text_ : str) (n : nat) : forall a,
  Forall (fun s => a <= sec_start s)
         (flat_map (section_at text_) (seq a n)) /\
  StronglySorted (fun s t => sec_start s < sec_start t)
         (flat_map (section_at text_) (seq a n)).
Proof.
  induction n as [|n IH]; intros a; simpl.
  - split; constructor.
  - destruct (IH (S a)) as [Hge Hs].
    assert (Hge' : Forall (fun s => a < sec_start s)
                     (flat_map (section_at text_) (seq (S a) n))).
    { eapply Forall_impl; [|exact Hge]. simpl. intros; lia. }
    destruct (section_at text_ a) as [|s l] eqn:E; simpl.
    + split; auto. eapply Forall_impl; [|exact Hge]. simpl. intros; lia.
    + assert (Hin : In s (section_at text_ a)) by (rewrite E; now left).
      destruct (section_at_spec _ _ _ Hin) as [-> _].
      assert (l = []) as ->.
      { revert E. unfold section_at.
        repeat match goal with
               | |- context [if ?b then _ else _] => destruct b
               end; intros E; try discriminate; now injection E. }
      simpl. split.
      * constructor; [unfold sec_start; simpl; lia|].
        eapply Forall_impl; [|exact Hge]. simpl. intros; lia.
      * constructor; [exact Hs|exact Hge'].
Qed.

(** Every detected heading starts at or after the first one, inside the
    text. *)
Lemma identify_sections_first (text_ : str) (s0 : section) rest :
  identify_sections text_ = s0 :: rest ->
  sec_start s0 < length text_ /\
  Forall (fun s => sec_start s0 <= sec_start s) (s0 :: rest).
Proof.
  intros E. split.
  - assert (Hin : In s0 (identify_sections text_)) by (rewrite E; now left).
    apply identify_sections_In in Hin as (p & Hp & Hin).
    destruct (section_at_spec _ _ _ Hin) as [-> _]. exact Hp.
  - destruct (scan_sorted text_ (length text_) 0) as [_ Hs].
    fold (identify_sections text_) in Hs. rewrite E in Hs.
    apply StronglySorted_inv in Hs as [_ Hs].
    constructor; [lia|].
    eapply Forall_impl; [|exact Hs]. simpl. intros; lia.
Qed.

(** The normalized name of a detected heading is stripped, so taking its
    lead keyword never raises. *)
Lemma lead_keyword_normalize (line : str) :
  exists k, lead_keyword (normalize line) = Ok k.
Proof.
  unfold lead_keyword.
  destruct (truthy (normalize line)) eqn:E; [|eauto].
  unfold normalize in *.
  destruct (words (strip _)) as [|w ws] eqn:Hw; [|eauto].
  exfalso. eapply words_strip; [|exact Hw].
  now apply truthy_true.
Qed.

Lemma section_ranges_total (text_ : str) (secs : list section) :
  Forall (fun s => exists line, sec_normalized s = normalize line) secs ->
  exists ranges, section_ranges text_ secs = Ok ranges.
Proof.
  induction secs as [|[[start name] normalized] secs IH]; intros H; simpl.
  - eauto.
  - inversion H as [|? ? [line Hl] Hrest]; subst. simpl in Hl. subst.
    destruct (lead_keyword_normalize line) as [k ->]; simpl.
    destruct (IH Hrest) as [rs ->]; simpl. eauto.
Qed.

(** [split_into_chunks] returns a chunk list on the sections that
    [identify_sections] detects, whatever the budget. *)
Lemma split_into_chunks_total (text_ : str) (max_tokens : Z) :
  exists cs,
    split_into_chunks text_ (identify_sections text_) max_tokens = Ok cs.
Proof.
  unfold split_into_chunks.
  destruct (negb (truthy (identify_sections text_))); [eauto|].
  destruct (section_ranges_total text_ (identify_sections text_)) as [rs ->].
  - apply Forall_forall. intros s Hin.
    apply identify_sections_In in Hin as (p & _ & Hin).
    destruct (section_at_spec _ _ _ Hin) as [-> _]. simpl. eauto.
  - simpl. eauto.
Qed.

End Headings.

(** ** Replacing the text before the first heading *)

Section Relocation.

Import ChunkPaper.

Variables (text_ pre' : str) (k : nat) (max_tokens : Z).
Hypothesis k_inside : k <= length text_.

Lemma slice_reloc (a b : nat) :
  k <= a -> k <= b ->
  slice (pre' ++ skipn k text_) (a - k + length pre') (b - k + length pre')
  = slice text_ a b.
Proof.
  intros Ha Hb. unfold slice.
  replace (b - k + length pre' - (a - k + length pre')) with (b - a) by lia.
  f_equal. rewrite skipn_app.
  rewrite skipn_all2 by lia. simpl.
  replace (a - k + length pre' - length pre') with (a - k) by lia.
  rewrite skipn_skipn. f_equal. lia.
Qed.

Lemma length_reloc :
  length (pre' ++ skipn k text_) = length text_ - k + length pre'.
Proof. rewrite length_app, length_skipn. lia. Qed.

Lemma section_ranges_reloc (secs : list section) :
  section_ranges (pre' ++ skipn k text_) (map (reloc k (length pre')) secs)
  = (rs <- section_ranges text_ secs ;;
     Ok (map (reloc_range k (length pre')) rs)).
Proof.
  induction secs as [|[[start name] normalized] secs IH]; [reflexivity|].
  cbn [map reloc section_ranges sec_start sec_name sec_normalized fst snd].
  destruct (lead_keyword normalized) as [kw|e]; [|reflexivity].
  cbn [bind]. rewrite IH.
  destruct (section_ranges text_ secs) as [rs|e]; [|reflexivity].
  cbn [bind map]. do 2 f_equal.
  unfold reloc_range; cbn. f_equal.
  destruct secs as [|s' secs']; cbn; [apply length_reloc|reflexivity].
Qed.

Lemma section_ranges_bounds (secs : list section) : forall rs,
  Forall (fun s => k <= sec_start s) secs ->
  section_ranges text_ secs = Ok rs ->
  Forall (fun r => k <= sr_start r /\ k <= sr_end r) rs.
Proof.
  induction secs as [|[[start name] normalized] secs IH]; intros rs Hge H.
  - injection H as <-. constructor.
  - cbn [section_ranges] in H.
    destruct (lead_keyword normalized) as [kw|e]; [|discriminate].
    cbn [bind] in H.
    destruct (section_ranges text_ secs) as [rs'|e]; [|discriminate].
    cbn [bind] in H. injection H as <-.
    inversion Hge as [|? ? Hs Hrest]; subst.
    constructor; [|now apply IH].
    cbn. split; [exact Hs|].
    destruct secs as [|s' secs']; [exact k_inside|].
    now inversion Hrest.
Qed.

Lemma pack_step_reloc (st : pack_state) (r : section_range) :
  k <= sr_start r /\ k <= sr_end r ->
  pack_step (pre' ++ skipn k text_) max_tokens st
            (reloc_range k (length pre') r)
  = pack_step text_ max_tokens st r.
Proof.
  intros [Ha Hb]. unfold pack_step.
  cbn [reloc_range sr_start sr_end sr_name sr_priority].
  rewrite slice_reloc by assumption. reflexivity.
Qed.

Lemma pack_reloc (rs : list section_range) :
  Forall (fun r => k <= sr_start r /\ k <= sr_end r) rs ->
  pack (pre' ++ skipn k text_) max_tokens
       (map (reloc_range k (length pre')) rs)
  = pack text_ max_tokens rs.
Proof.
  intros H. unfold pack.
  assert (E : forall st,
             fold_left (pack_step (pre' ++ skipn k text_) max_tokens)
                       (map (reloc_range k (length pre')) rs) st
             = fold_left (pack_step text_ max_tokens) rs st).
  { induction H as [|r rs Hr Hrs IH]; intros st; [reflexivity|].
    cbn [map fold_left]. rewrite pack_step_reloc by exact Hr. apply IH. }
  now rewrite E.
Qed.

End Relocation.

(** ** Member names of the file chunks *)

Section MemberNames.

Import AnalyzeCode.

Lemma not_nl_eqb (c : ascii) : is_nl c = false -> Ascii.eqb NL c = false.
Proof.
  intros H. destruct (Ascii.eqb NL c) eqn:E; [|reflexivity].
  apply Ascii.eqb_eq in E. subst c. discriminate.
Qed.

(** The first line of a text. *)
Lemma split_first_line (a rest : str) :
  forallb (fun c => negb (is_nl c)) a = true ->
  hd [] (split [NL] (a ++ NL :: rest)) = a.
Proof.
  unfold split. induction a as [|c a IH]; intros H.
  - reflexivity.
  - simpl in H. apply andb_true_iff in H as [Hc Ha].
    apply negb_true_iff in Hc.
    cbn [app split_go starts_with]. rewrite (not_nl_eqb c Hc). cbn [andb].
    specialize (IH Ha).
    destruct (split_go [NL] 0 (a ++ NL :: rest)) as [|p ps]; simpl in *;
      now subst.
Qed.

Lemma replace_absent (old new s : str) :
  occurs old s = false -> replace_go old new 0 s = s.
Proof.
  induction s as [|c s IH]; intros H; [reflexivity|].
  simpl in H. apply orb_false_iff in H as [H1 H2].
  cbn [replace_go]. rewrite H1. now rewrite IH.
Qed.

(** On a clean path, the member name recovered from the text of the file
    is the path. *)
Lemma member_name_clean (f : FileInfo) (source : str) :
  clean_path (path f) = true ->
  member_name (file_content_of f source) = path f.
Proof.
  intros H. apply andb_true_iff in H as [Hnl Hocc].
  apply negb_true_iff in Hocc.
  unfold member_name, file_content_of.
  rewrite (app_assoc (py "# File: ") (path f)).
  change ([NL] ++ ?x) with (NL :: x).
  rewrite split_first_line.
  - unfold PyStr.replace. cbn. now apply replace_absent.
  - rewrite forallb_app. now rewrite Hnl.
Qed.

Lemma readable_members (read : str -> option str) (fs : list FileInfo) :
  Forall (fun f => clean_path (path f) = true) fs ->
  map member_name (readable_contents read fs)
  = map path (filter (readable read) fs).
Proof.
  induction 1 as [|f fs Hf Hfs IH]; [reflexivity|].
  unfold readable_contents, readable in *. cbn [flat_map filter].
  destruct (read (path f)) as [source|]; [|exact IH].
  cbn [app map]. rewrite IH. now rewrite member_name_clean.
Qed.

End MemberNames.

(** ** [split_by_tokens] under a negative budget *)

Section NegativeBudget.

Import ChunkPaper.

Variable max_tokens : Z.
Variable section_name : str.
Hypothesis negative : (max_tokens < 0)%Z.

Lemma negative_fold (paras : list str) : forall st para,
  current_text st = para_text [para] ->
  current_tokens st = para_tokens [para] ->
  para_finish section_name
    (fold_left (para_step max_tokens section_name) paras st)
  = para_chunks st ++
    map (fun p => group_chunk section_name [p])
        (kept_paragraphs (para :: paras)).
Proof.
  induction paras as [|p ps IH]; intros st para Ht Hn.
  - cbn [fold_left kept_paragraphs]. unfold para_finish.
    rewrite Ht, para_text_single.
    destruct (truthy (strip (para ++ [NL; NL]))); cbn [map];
      [|now rewrite app_nil_r].
    unfold para_chunk, group_chunk.
    now rewrite Ht, Hn, para_text_single.
  - cbn [fold_left]. unfold para_step at 2.
    assert (Hb : ((current_tokens st + estimate_tokens p >? max_tokens)%Z
                  && truthy (current_text st))%bool = true).
    { apply andb_true_iff. split.
      - rewrite Hn. cbn [para_tokens fold_right].
        pose proof (paper_tokens_nonneg para).
        pose proof (paper_tokens_nonneg p).
        apply Z.gtb_lt. lia.
      - rewrite Ht, para_text_truthy. reflexivity. }
    rewrite Hb. cbn [para_chunks current_text current_tokens].
    rewrite (IH _ p).
    + cbn [para_chunks]. rewrite <- app_assoc. f_equal.
      cbn [kept_paragraphs map app]. f_equal.
      unfold para_chunk, group_chunk. now rewrite Ht, Hn.
    + cbn [current_text]. now rewrite para_text_single.
    + cbn [current_tokens para_tokens fold_right]. lia.
Qed.

(** With a negative budget every paragraph is flushed on its own. *)
Lemma split_by_tokens_negative (text_ : str) :
  split_by_tokens text_ max_tokens section_name
  = map (fun p => group_chunk section_name [p])
        (kept_paragraphs (split [NL; NL] text_)).
Proof.
  unfold split_by_tokens, split_by_tokens_from.
  destruct (split [NL; NL] text_) as [|p0 ps]; [reflexivity|].
  cbn [fold_left]. unfold para_step at 2.
  cbn [current_text current_tokens para_chunks truthy andb].
  rewrite andb_false_r.
  rewrite (negative_fold ps _ p0).
  - reflexivity.
  - cbn [current_text]. now rewrite para_text_single.
  - cbn [current_tokens para_tokens fold_right]. lia.
Qed.

End NegativeBudget.

(** ** The tier of the chunks of [split_into_chunks] *)

Section SectionTiers.

Import ChunkPaper.

Variable text_ : str.
Variable max_tokens : Z.

Lemma min_tier_app (g : list section_range) (r : section_range) :
  min_tier (g ++ [r]) = Nat.min (min_tier g) (sr_priority r).
Proof.
  unfold min_tier. induction g as [|x g IH]; cbn [app fold_right].
  - apply Nat.min_comm.
  - rewrite IH. apply Nat.min_assoc.
Qed.

Lemma tier_inv_flush_if ranges b st :
  tier_inv ranges st ->
  (b = true -> oc_text (current_chunk st) <> []) ->
  tier_inv ranges (flush_if b st).
Proof.
  intros (groups & cur & Hc & Hin & Hs & Hp & He) Hb.
  destruct b; [|exists groups, cur; auto].
  exists (groups ++ [cur]), []. cbn. repeat split; auto.
  - apply Forall2_app; auto. constructor; [|constructor].
    repeat split; auto; cbn; [|now rewrite Hp].
    intros ->. now apply Hb, He.
  - intros x [].
Qed.

Lemma tier_inv_step ranges st sec :
  In sec ranges -> sr_priority sec <= 999 ->
  tier_inv ranges st -> tier_inv ranges (pack_step text_ max_tokens st sec).
Proof.
  intros Hsec Hbound Hinv. unfold pack_step.
  destruct (estimate_tokens _ >? max_tokens)%Z.
  - destruct (tier_inv_flush_if ranges
                (truthy (oc_text (current_chunk st))) st Hinv
                (truthy_true _))
      as (groups & cur & Hc & Hin & Hs & Hp & He).
    set (subs := split_by_tokens _ _ _).
    exists (groups ++ map (fun _ => [sec]) subs), cur. cbn.
    repeat split; auto.
    apply Forall2_app; auto.
    induction subs as [|c subs IH]; cbn; constructor; auto.
    repeat split; cbn.
    + discriminate.
    + intros x [<-|[]]. exact Hsec.
    + f_equal. unfold min_tier; cbn [fold_right].
      symmetry. now apply Nat.min_l.
  - set (b := (_ && _)%bool).
    destruct (tier_inv_flush_if ranges b st Hinv)
      as (groups & cur & Hc & Hin & Hs & Hp & He).
    { unfold b. intros Hb. apply andb_true_iff in Hb as [_ Hb].
      now apply truthy_true. }
    exists groups, (cur ++ [sec]). cbn. repeat split; auto.
    + intros x Hx. apply in_app_or in Hx as [Hx|[<-|[]]]; auto.
    + now rewrite Hs, map_app.
    + now rewrite Hp, min_tier_app.
    + intros H. now apply app_eq_nil in H as [_ H].
Qed.

Lemma tier_inv_fold ranges (rs : list section_range) : forall st,
  incl rs ranges -> Forall (fun r => sr_priority r <= 999) rs ->
  tier_inv ranges st ->
  tier_inv ranges (fold_left (pack_step text_ max_tokens) rs st).
Proof.
  induction rs as [|r rs IH]; intros st Hincl Hb Hinv; simpl; auto.
  inversion Hb; subst. apply IH; auto.
  - intros x Hx. apply Hincl. now right.
  - apply tier_inv_step; auto. apply Hincl. now left.
Qed.

(** Before the sort, every chunk of the section packer has the smallest
    priority of its member sections. *)
Lemma pack_tiers (ranges : list section_range) :
  Forall (fun r => sr_priority r <= 999) ranges ->
  exists groups, Forall2 (tier_ok ranges) (pack text_ max_tokens ranges) groups.
Proof.
  intros Hb. unfold pack.
  assert (H0 : tier_inv ranges pack_init).
  { exists [], []. cbn. repeat split; auto. intros x []. }
  pose proof (tier_inv_fold ranges ranges _ (incl_refl _) Hb H0) as H.
  destruct (tier_inv_flush_if ranges _ _ H (truthy_true _))
    as (groups & _ & Hc & _).
  now exists groups.
Qed.

Lemma dict_get_bound (d : list (str * nat)) (k : str) (default bound : nat) :
  Forall (fun kv => snd kv <= bound) d -> default <= bound ->
  dict_get d k default <= bound.
Proof.
  induction 1 as [|[k' v] d Hv Hd IH]; intros Hdef; simpl; auto.
  destruct (str_eqb k' k); auto.
Qed.

(** The priority of a section is at most 4. *)
Lemma section_ranges_tiers (secs : list section) : forall rs,
  section_ranges text_ secs = Ok rs ->
  Forall (fun r => sr_priority r <= 4) rs.
Proof.
  induction secs as [|[[start name] normalized] secs IH]; intros rs H.
  - injection H as <-. constructor.
  - cbn [section_ranges] in H.
    destruct (lead_keyword normalized) as [kw|e]; [|discriminate].
    cbn [bind] in H.
    destruct (section_ranges text_ secs) as [rs'|e]; [|discriminate].
    cbn [bind] in H. injection H as <-.
    constructor; [|now apply IH].
    change (dict_get SECTION_PRIORITY kw 2 <= 4).
    apply dict_get_bound; [|lia].
    unfold SECTION_PRIORITY. repeat constructor; simpl; lia.
Qed.

(** On a non-empty section list, every chunk that [split_into_chunks]
    returns has the smallest priority of its member sections. *)
Lemma split_into_chunks_tiers (secs : list section) (rs : list section_range)
    (cs : list chunk) :
  secs <> [] ->
  section_ranges text_ secs = Ok rs ->
  split_into_chunks text_ secs max_tokens = Ok cs ->
  Forall (fun c => exists g, tier_ok rs c g) cs.
Proof.
  intros Hne Hrs H. unfold split_into_chunks in H.
  destruct secs; [congruence|]. cbn [truthy negb] in H.
  rewrite Hrs in H. cbn [bind] in H. injection H as <-.
  destruct (pack_tiers rs) as [groups Hg].
  { eapply Forall_impl; [|exact (section_ranges_tiers _ _ Hrs)].
    simpl. intros; lia. }
  apply Forall_forall. intros c Hin.
  destruct (number_from_In _ _ _ _ Hin) as (c0 & Hin0 & Hsec & _ & Hp & _).
  apply (Permutation_in _ (sort_chunks_perm _)) in Hin0.
  assert (Hex : exists g, tier_ok rs c0 g).
  { clear -Hg Hin0. induction Hg as [|x g l l' Hx Hl IH]; [contradiction|].
    destruct Hin0 as [<-|Hin0]; eauto. }
  destruct Hex as (g & Hg1 & Hg2 & Hg3 & Hg4).
  exists g. repeat split; auto; congruence.
Qed.

End SectionTiers.

(* ================================================================== *)
(** * The claims on the packers *)
(* ================================================================== *)

Section PackerClaims.

Lemma slice_all (s : str) : slice s 0 (length s) = s.
Proof. unfold slice. rewrite Nat.sub_0_r. simpl. apply firstn_all. Qed.

(** C1, as stated: [generate_chunks] never splits a file, so the chunk of
    a file above the budget is above it although no paragraph of the file
    is. *)
Lemma C1_chunk_sizes_counterexample :
  ~ (forall c,
       In c (AnalyzeCode.generate_chunks two_paragraph_files 20 [helpers_py]) ->
       (AnalyzeCode.tokens c <= 20)%Z \/
       exists para,
         In para (split [NL; NL]
                    (AnalyzeCode.file_content_of helpers_py two_paragraphs)) /\
         (AnalyzeCode.estimate_tokens para > 20)%Z).
Proof.
  intros H.
  destruct (H {| AnalyzeCode.index := 0;
                 AnalyzeCode.chunk_priority := 99;
                 AnalyzeCode.filename := py "chunk_00_P99.md";
                 AnalyzeCode.files := [py "helpers.py"];
                 AnalyzeCode.tokens := 42 |})
    as [Hle|(para & Hin & Hgt)].
  - vm_compute. left. reflexivity.
  - simpl in Hle. lia.
  - revert Hgt.
    assert (Hall : Forall (fun para => (AnalyzeCode.estimate_tokens para <= 20)%Z)
                     (split [NL; NL]
                        (AnalyzeCode.file_content_of helpers_py two_paragraphs))).
    { vm_compute. repeat constructor; discriminate. }
    rewrite Forall_forall in Hall. specialize (Hall para Hin). lia.
Qed.

(** C1, amended: for every positive budget, a chunk of [split_into_chunks]
    has a token estimate within the budget unless it is a single paragraph
    whose own estimate is above the budget, and a chunk of
    [generate_chunks] has one within the budget unless it holds a single
    file whose own estimate is above it. *)
Theorem C1_chunk_sizes :
  (forall (text_ : str) (secs : list ChunkPaper.section) (max_tokens : Z)
          (cs : list ChunkPaper.chunk),
      (0 < max_tokens)%Z ->
      ChunkPaper.split_into_chunks text_ secs max_tokens = ChunkPaper.Ok cs ->
      Forall (paper_chunk_ok text_ max_tokens) cs) /\
  (forall (read : str -> option str) (max_tokens : Z)
          (fs : list AnalyzeCode.FileInfo),
      (0 < max_tokens)%Z ->
      Forall (file_chunk_ok read max_tokens fs)
             (AnalyzeCode.generate_chunks read max_tokens fs)).
Proof.
  split.
  - intros text_ secs max_tokens cs _ H.
    unfold ChunkPaper.split_into_chunks in H.
    destruct (negb (truthy secs)).
    + assert (E : cs = ChunkPaper.split_by_tokens text_ max_tokens
                         (py "content")) by congruence.
      subst cs. apply Forall_forall. intros c Hin.
      rewrite <- (slice_all text_) in Hin.
      destruct (split_by_tokens_groups max_tokens (py "content")
                  (slice text_ 0 (length text_)))
        as (groups & rest & Hs & Hc & Hg & _).
      rewrite Hc in Hin. apply in_map_iff in Hin as (g & <- & Hin).
      rewrite Forall_forall in Hg.
      destruct (Hg g Hin) as [_ [Hle|(para & -> & Hgt)]]; [now left|].
      right. exists 0, (length text_), para.
      split; [|split; [exact Hgt|split]].
      * rewrite Hs. apply in_or_app. left.
        apply in_concat. exists [para]. split; [exact Hin|now left].
      * simpl. lia.
      * cbn [ChunkPaper.text group_chunk]. now rewrite para_text_single.
    + destruct (ChunkPaper.section_ranges text_ secs) as [rs|e];
        [|discriminate].
      injection H as <-. apply number_chunks_ok, pack_sizes.
  - intros read max_tokens fs _. apply generate_chunks_sizes.
Qed.

(** On the sample paper under budget 5, and on the two-paragraph file under
    budget 20. *)
Lemma C1_chunk_sizes_witness :
  (exists cs,
      ChunkPaper.split_into_chunks sample_paper
        (ChunkPaper.identify_sections sample_paper) 5 = ChunkPaper.Ok cs /\
      length cs = 4 /\
      Forall (paper_chunk_ok sample_paper 5) cs) /\
  Forall (file_chunk_ok two_paragraph_files 20 [helpers_py])
         (AnalyzeCode.generate_chunks two_paragraph_files 20 [helpers_py]).
Proof.
  split.
  - eexists. split; [vm_compute; reflexivity|]. split; [reflexivity|].
    apply (proj1 C1_chunk_sizes sample_paper
             (ChunkPaper.identify_sections sample_paper) 5%Z).
    + reflexivity.
    + vm_compute. reflexivity.
  - apply (proj2 C1_chunk_sizes two_paragraph_files 20%Z [helpers_py]).
    reflexivity.
Defined.

End PackerClaims.

Section MembershipClaims.

(** C2, as stated: the final sort by priority moves the chunk of the
    second section in front of the chunk of the first, so the members in
    chunk order are not the sections in input order. *)
Lemma C2_round_trip_counterexample :
  exists cs,
    ChunkPaper.split_into_chunks intro_then_method
      (ChunkPaper.identify_sections intro_then_method) 4 = ChunkPaper.Ok cs /\
    map ChunkPaper.sec_name (ChunkPaper.identify_sections intro_then_method)
      = [py "Introduction"; py "Method"] /\
    concat (map ChunkPaper.sections cs) = [py "Method"; py "Introduction"] /\
    concat (map ChunkPaper.sections cs)
      <> map ChunkPaper.sec_name
           (ChunkPaper.identify_sections intro_then_method).
Proof.
  eexists. split; [vm_compute; reflexivity|].
  split; [vm_compute; reflexivity|].
  split; [vm_compute; reflexivity|].
  vm_compute. discriminate.
Qed.

Lemma section_ranges_names (text_ : str) (secs : list ChunkPaper.section) :
  forall rs, ChunkPaper.section_ranges text_ secs = ChunkPaper.Ok rs ->
  map ChunkPaper.sr_name rs = map ChunkPaper.sec_name secs.
Proof.
  induction secs as [|[[start name] normalized] secs IH]; intros rs H.
  - injection H as <-. reflexivity.
  - cbn [ChunkPaper.section_ranges] in H.
    destruct (ChunkPaper.lead_keyword normalized) as [kw|e]; [|discriminate].
    cbn [ChunkPaper.bind] in H.
    destruct (ChunkPaper.section_ranges text_ secs) as [rs'|e]; [|discriminate].
    cbn [ChunkPaper.bind] in H. injection H as <-.
    cbn. f_equal. now apply IH.
Qed.

Lemma range_members_fitting text_ max_tokens (rs : list ChunkPaper.section_range) :
  Forall (fun r => oversized text_ max_tokens r = false) rs ->
  flat_map (range_members text_ max_tokens) rs = map ChunkPaper.sr_name rs.
Proof.
  induction 1 as [|r rs Hr Hrs IH]; [reflexivity|].
  cbn [flat_map map]. unfold range_members at 1. rewrite Hr, IH. reflexivity.
Qed.

(** C2, amended: concatenating the [files] lists of the chunks of
    [generate_chunks] in chunk order gives the readable input files in
    input order.  For [split_into_chunks] on a non-empty section list, the
    chunk list before the final sort has that property (a section that is
    split appears once for each of its sub-chunks); the returned list is
    that list sorted by priority and numbered, so its members are a
    permutation of the sections, in input order when the chunk priorities
    are already non-decreasing. *)
Theorem C2_round_trip :
  (forall (read : str -> option str) (max_tokens : Z)
          (fs : list AnalyzeCode.FileInfo),
      (0 < max_tokens)%Z ->
      Forall (fun f => clean_path (AnalyzeCode.path f) = true) fs ->
      concat (map AnalyzeCode.files
                (AnalyzeCode.generate_chunks read max_tokens fs))
      = map AnalyzeCode.path (filter (readable read) fs)) /\
  (forall (text_ : str) (secs : list ChunkPaper.section) (max_tokens : Z)
          (rs : list ChunkPaper.section_range),
      (0 < max_tokens)%Z ->
      secs <> [] ->
      ChunkPaper.section_ranges text_ secs = ChunkPaper.Ok rs ->
      let unsorted := ChunkPaper.pack text_ max_tokens rs in
      let cs := ChunkPaper.number_chunks (ChunkPaper.sort_chunks unsorted) in
      ChunkPaper.split_into_chunks text_ secs max_tokens = ChunkPaper.Ok cs /\
      concat (map ChunkPaper.sections unsorted)
        = flat_map (range_members text_ max_tokens) rs /\
      Permutation (concat (map ChunkPaper.sections cs))
                  (flat_map (range_members text_ max_tokens) rs) /\
      (Forall (fun r => oversized text_ max_tokens r = false) rs ->
       flat_map (range_members text_ max_tokens) rs
       = map ChunkPaper.sec_name secs) /\
      (Sorted (fun a b => ChunkPaper.priority_key a <= ChunkPaper.priority_key b)
              unsorted ->
       concat (map ChunkPaper.sections cs)
       = flat_map (range_members text_ max_tokens) rs)).
Proof.
  split.
  - intros read max_tokens fs _ Hclean.
    rewrite generate_chunks_members. now apply readable_members.
  - intros text_ secs max_tokens rs _ Hne Hrs unsorted cs.
    assert (Hu : concat (map ChunkPaper.sections unsorted)
                 = flat_map (range_members text_ max_tokens) rs)
      by apply pack_members_exact.
    split; [|split; [exact Hu|split; [|split]]].
    + unfold ChunkPaper.split_into_chunks.
      destruct secs; [congruence|]. cbn [truthy negb].
      rewrite Hrs. reflexivity.
    + rewrite <- Hu. unfold cs, ChunkPaper.number_chunks.
      rewrite number_from_sections, <- !flat_map_concat_map.
      apply Permutation_flat_map, sort_chunks_perm.
    + intros Hfit. rewrite range_members_fitting by exact Hfit.
      now apply section_ranges_names with (text_ := text_).
    + intros Hsorted. rewrite <- Hu. unfold cs, ChunkPaper.number_chunks.
      rewrite number_from_sections. now rewrite sort_chunks_id.
Qed.

(** On the two small files, and on the sample paper under budget 5, whose
    first section is split in two. *)
Lemma C2_round_trip_witness :
  concat (map AnalyzeCode.files
            (AnalyzeCode.generate_chunks one_line_files 4000
               [model_py; config_py]))
  = [py "model.py"; py "config.py"] /\
  (exists rs,
      ChunkPaper.section_ranges sample_paper
        (ChunkPaper.identify_sections sample_paper) = ChunkPaper.Ok rs /\
      flat_map (range_members sample_paper 5) rs
      = [py "1. Introduction"; py "1. Introduction"; py "## Method";
         py "Conclusions"] /\
      Permutation
        (concat (map ChunkPaper.sections
                   (ChunkPaper.number_chunks
                      (ChunkPaper.sort_chunks
                         (ChunkPaper.pack sample_paper 5 rs)))))
        (flat_map (range_members sample_paper 5) rs)).
Proof.
  split.
  - apply (proj1 C2_round_trip one_line_files 4000%Z [model_py; config_py]).
    + reflexivity.
    + repeat constructor.
  - eexists. split; [vm_compute; reflexivity|].
    split; [vm_compute; reflexivity|].
    refine (proj1 (proj2 (proj2
              (proj2 C2_round_trip sample_paper
                 (ChunkPaper.identify_sections sample_paper) 5%Z _ _ _ _)))).
    + reflexivity.
    + vm_compute. discriminate.
    + vm_compute. reflexivity.
Defined.

(** C3 at the failing input: [scan_directory] hands the two files over in
    the order of their tiers, [generate_chunks] packs them into one chunk,
    and the tier of that chunk is 1, the tier of the file added last,
    while the smallest tier among its members is 0. *)
Theorem C3_file_chunk_tier :
  map AnalyzeCode.get_priority [py "model.py"; py "config.py"] = [0; 1] /\
  AnalyzeCode.scan_directory [config_py; model_py] = [model_py; config_py] /\
  exists c,
    AnalyzeCode.generate_chunks one_line_files 4000 [model_py; config_py]
      = [c] /\
    AnalyzeCode.files c = [py "model.py"; py "config.py"] /\
    AnalyzeCode.filename c = py "chunk_00_P1.md" /\
    AnalyzeCode.chunk_priority c = 1 /\
    Nat.min (AnalyzeCode.priority model_py) (AnalyzeCode.priority config_py)
      = 0.
Proof.
  split; [vm_compute; reflexivity|].
  split; [vm_compute; reflexivity|].
  eexists. split; [vm_compute; reflexivity|].
  repeat split.
Qed.

End MembershipClaims.

(* ================================================================== *)
(** * The claims on errors and runs *)
(* ================================================================== *)

Section RunClaims.

(** On the no-sections path [split_into_chunks] returns the dicts of
    [split_by_tokens] as they are, without the keys [index] and [total];
    as soon as there is one, [save_chunks] raises KeyError and the run
    writes no manifest. *)
Lemma no_sections_run_raises (pages : list str) (base_name : str)
    (max_tokens : Z) :
  ChunkPaper.identify_sections (ChunkPaper.extract_text_from_pdf pages) = [] ->
  ChunkPaper.split_by_tokens (ChunkPaper.extract_text_from_pdf pages)
    max_tokens (py "content") <> [] ->
  ChunkPaper.main true true pages base_name max_tokens
  = ChunkPaper.Raise (ChunkPaper.KeyError (py "index")).
Proof.
  intros Hs Hne. unfold ChunkPaper.main. cbn [negb].
  rewrite Hs. unfold ChunkPaper.split_into_chunks. cbn [truthy negb].
  destruct (split_by_tokens_groups max_tokens (py "content")
              (ChunkPaper.extract_text_from_pdf pages))
    as (groups & _ & _ & Hc & _ & _).
  rewrite Hc in *. destruct groups as [|g groups]; [now elim Hne|].
  cbn [ChunkPaper.bind map]. now rewrite save_chunks_unnumbered.
Qed.

(** C5 at the failing input: a one-page document that reads "hello world"
    has no heading; the run ends with KeyError 'index' raised by
    [save_chunks], and no manifest is written. *)
Theorem C5_no_sections_run :
  ChunkPaper.identify_sections
    (ChunkPaper.extract_text_from_pdf [plain_text]) = [] /\
  ChunkPaper.main true true [plain_text] (py "paper") 3500
  = ChunkPaper.Raise (ChunkPaper.KeyError (py "index")).
Proof.
  split; [vm_compute; reflexivity|].
  apply no_sections_run_raises; vm_compute; [reflexivity|discriminate].
Qed.

(** C6, as stated: with the budget -1 the run raises nothing; it completes
    and writes four chunk files and the manifest. *)
Lemma C6_budget_check_counterexample :
  (-1 <= 0)%Z /\
  exists files,
    ChunkPaper.main true true [sample_paper_body] (py "paper") (-1)
    = ChunkPaper.Ok files /\
    length files = 5.
Proof.
  split; [lia|]. eexists. split; [vm_compute; reflexivity|reflexivity].
Qed.

(** C6, amended: the budget is never checked.  With a non-positive budget
    the run raises no configuration error: it completes with its files
    whenever a heading is detected; and with a negative budget
    [split_by_tokens] puts every paragraph into a chunk of its own. *)
Theorem C6_budget_check :
  (forall (pages : list str) (base_name : str) (max_tokens : Z),
      (max_tokens <= 0)%Z ->
      ChunkPaper.identify_sections (ChunkPaper.extract_text_from_pdf pages)
        <> [] ->
      exists files,
        ChunkPaper.main true true pages base_name max_tokens
        = ChunkPaper.Ok files /\ files <> []) /\
  (forall (text_ : str) (max_tokens : Z) (section_name : str),
      (max_tokens < 0)%Z ->
      ChunkPaper.split_by_tokens text_ max_tokens section_name
      = map (fun para => group_chunk section_name [para])
            (kept_paragraphs (split [NL; NL] text_))).
Proof.
  split.
  - intros pages base_name max_tokens _ Hne. unfold ChunkPaper.main.
    cbn [negb].
    set (text_ := ChunkPaper.extract_text_from_pdf pages) in *.
    unfold ChunkPaper.split_into_chunks.
    destruct (ChunkPaper.identify_sections text_) as [|s0 rest] eqn:E;
      [now elim Hne|].
    cbn [truthy negb].
    destruct (section_ranges_total text_ (s0 :: rest)) as [rs ->].
    + rewrite <- E. apply Forall_forall. intros s Hin.
      apply identify_sections_In in Hin as (p & _ & Hin).
      destruct (section_at_spec _ _ _ Hin) as [-> _]. simpl. eauto.
    + cbn [ChunkPaper.bind].
      destruct (save_chunks_numbered base_name
                  (ChunkPaper.sort_chunks
                     (ChunkPaper.pack text_ max_tokens rs)))
        as (disk_ & names & Hsave).
      pose proof Hsave as Hsave'. unfold ChunkPaper.save_chunks in Hsave'.
      rewrite Hsave. cbn [ChunkPaper.bind fst]. exists disk_. split; auto.
      destruct (ChunkPaper.save_loop _ _ _) as [st|e]; [|discriminate].
      cbn [ChunkPaper.bind] in Hsave'. injection Hsave' as <- _.
      intros H. apply app_eq_nil in H as [_ H]. discriminate.
  - intros text_ max_tokens section_name Hneg.
    now apply split_by_tokens_negative.
Qed.

(** On the sample paper without its title block, under the budget -1. *)
Lemma C6_budget_check_witness :
  (exists files,
      ChunkPaper.main true true [sample_paper_body] (py "paper") (-1)
      = ChunkPaper.Ok files /\ files <> []) /\
  map ChunkPaper.tokens
    (ChunkPaper.split_by_tokens sample_paper_body (-1) (py "content"))
  = [9; 13]%Z.
Proof.
  split.
  - apply (proj1 C6_budget_check [sample_paper_body] (py "paper") (-1)%Z).
    + lia.
    + vm_compute. discriminate.
  - rewrite (proj2 C6_budget_check sample_paper_body (-1)%Z (py "content"))
      by lia.
    vm_compute. reflexivity.
Defined.

End RunClaims.

Section ZeroInputs.

(** C8, as stated: with zero Python files [main] of analyze_code.py
    returns the exit status 1 and writes no manifest. *)
Lemma C8_zero_inputs_counterexample :
  ~ (AnalyzeCode.exit_status
       (AnalyzeCode.main true [] one_line_files AnalyzeCode.Full 4000) = 0 /\
     exists m,
       In (AnalyzeCode.ManifestFile m)
          (AnalyzeCode.outputs
             (AnalyzeCode.main true [] one_line_files AnalyzeCode.Full 4000)) /\
       AnalyzeCode.total_chunks m = 0 /\
       AnalyzeCode.manifest_chunks m = []).
Proof. intros [H _]. vm_compute in H. discriminate. Qed.

(** C8, amended: in chunk_paper.py zero inputs are not an error: an empty
    section list on an empty text yields zero chunks, [save_chunks] on
    zero chunks writes a manifest with a total chunk count of 0 and an
    empty chunk list, and the run on a document without pages completes
    with that manifest.  In analyze_code.py an empty file list yields zero
    chunks, and [main] treats zero files as a failure: it returns the exit
    status 1 before anything is written. *)
Theorem C8_zero_inputs :
  (forall max_tokens : Z,
      ChunkPaper.split_into_chunks [] [] max_tokens = ChunkPaper.Ok []) /\
  (forall base_name : str,
      ChunkPaper.save_chunks base_name []
      = ChunkPaper.Ok
          ([ChunkPaper.ManifestFile (base_name ++ py "_manifest.json")
              {| ChunkPaper.source := base_name;
                 ChunkPaper.total_chunks := 0;
                 ChunkPaper.manifest_chunks := [] |}],
           [base_name ++ py "_manifest.json"])) /\
  (forall (base_name : str) (max_tokens : Z),
      ChunkPaper.main true true [] base_name max_tokens
      = ChunkPaper.Ok
          [ChunkPaper.ManifestFile (base_name ++ py "_manifest.json")
             {| ChunkPaper.source := base_name;
                ChunkPaper.total_chunks := 0;
                ChunkPaper.manifest_chunks := [] |}]) /\
  (forall (read : str -> option str) (max_tokens : Z),
      AnalyzeCode.generate_chunks read max_tokens [] = []) /\
  (forall (read : str -> option str) (m : AnalyzeCode.mode) (max_tokens : Z),
      AnalyzeCode.main true [] read m max_tokens
      = {| AnalyzeCode.exit_status := 1; AnalyzeCode.outputs := [] |}).
Proof.
  assert (E : forall max_tokens : Z,
             ChunkPaper.split_into_chunks [] [] max_tokens = ChunkPaper.Ok []).
  { intros max_tokens. unfold ChunkPaper.split_into_chunks. cbn [truthy negb].
    unfold ChunkPaper.split_by_tokens, ChunkPaper.split_by_tokens_from.
    cbn [split split_go fold_left]. unfold ChunkPaper.para_step.
    cbn [ChunkPaper.current_text truthy]. rewrite andb_false_r.
    reflexivity. }
  repeat split.
  - exact E.
  - intros base_name max_tokens. unfold ChunkPaper.main. cbn [negb].
    change (ChunkPaper.extract_text_from_pdf []) with (@nil ascii).
    change (ChunkPaper.identify_sections []) with (@nil ChunkPaper.section).
    rewrite E. reflexivity.
Qed.

End ZeroInputs.

Section HeadingClaims.

(** C9: a line whose stripped length is above the cap of 100 characters is
    never a section heading: the iteration of [identify_sections] at its
    start appends nothing, and no detected section starts there, whatever
    the line begins with. *)
Theorem C9_long_line_is_no_heading (text_ : str) (line_start : nat) :
  100 < length (ChunkPaper.line_at text_ line_start) ->
  ChunkPaper.section_at text_ line_start = [] /\
  ~ In line_start
       (map ChunkPaper.sec_start (ChunkPaper.identify_sections text_)).
Proof.
  intros Hlong.
  assert (E : ChunkPaper.section_at text_ line_start = []).
  { unfold ChunkPaper.section_at.
    destruct ((0 <? line_start) && _)%bool; [reflexivity|].
    apply Nat.ltb_lt in Hlong. rewrite Hlong, orb_true_r. reflexivity. }
  split; [exact E|].
  intros Hin. apply in_map_iff in Hin as (s & Hs & Hin).
  apply identify_sections_In in Hin as (p & _ & Hin).
  destruct (section_at_spec _ _ _ Hin) as [-> _].
  cbn in Hs. subst p. rewrite E in Hin. contradiction.
Qed.

(** A line of 150 characters that starts with "Introduction" matches a
    section pattern and opens no section; cut to 100 characters it opens
    one. *)
Lemma C9_long_line_is_no_heading_witness :
  length (ChunkPaper.line_at long_heading 0) = 150 /\
  existsb (fun pattern => Re.rmatch pattern (ChunkPaper.line_at long_heading 0))
          ChunkPaper.SECTION_PATTERNS = true /\
  ChunkPaper.section_at long_heading 0 = [] /\
  ~ In 0 (map ChunkPaper.sec_start (ChunkPaper.identify_sections long_heading)) /\
  map ChunkPaper.sec_start (ChunkPaper.identify_sections short_heading) = [0].
Proof.
  split; [vm_compute; reflexivity|].
  split; [vm_compute; reflexivity|].
  assert (H : 100 < length (ChunkPaper.line_at long_heading 0)).
  { vm_compute. repeat constructor. }
  destruct (C9_long_line_is_no_heading long_heading 0 H) as [H1 H2].
  split; [exact H1|]. split; [exact H2|].
  vm_compute. reflexivity.
Defined.

(** C10: the chunks depend only on the text from the first detected
    heading on.  [split_into_chunks] returns a chunk list, and it returns
    the same list when the text before the first heading is replaced by
    any other text (the offsets in the section list moving along): no
    character before the first heading reaches a chunk. *)
Theorem C10_preamble_in_no_chunk
    (text_ : str) (max_tokens : Z) (s0 : ChunkPaper.section)
    (rest : list ChunkPaper.section) :
  ChunkPaper.identify_sections text_ = s0 :: rest ->
  0 < ChunkPaper.sec_start s0 ->
  exists cs,
    ChunkPaper.split_into_chunks text_ (ChunkPaper.identify_sections text_)
      max_tokens = ChunkPaper.Ok cs /\
    forall pre' : str,
      ChunkPaper.split_into_chunks
        (pre' ++ skipn (ChunkPaper.sec_start s0) text_)
        (map (reloc (ChunkPaper.sec_start s0) (length pre'))
             (ChunkPaper.identify_sections text_))
        max_tokens
      = ChunkPaper.Ok cs.
Proof.
  intros E _.
  destruct (split_into_chunks_total text_ max_tokens) as [cs Hcs].
  exists cs. split; [exact Hcs|]. intros pre'.
  destruct (identify_sections_first text_ s0 rest E) as [Hlt Hge].
  rewrite E in *. set (k := ChunkPaper.sec_start s0) in *.
  unfold ChunkPaper.split_into_chunks in *.
  cbn [map truthy negb] in *.
  change (reloc k (length pre') s0 :: map (reloc k (length pre')) rest)
    with (map (reloc k (length pre')) (s0 :: rest)).
  rewrite section_ranges_reloc by lia.
  destruct (ChunkPaper.section_ranges text_ (s0 :: rest)) as [rs|e] eqn:Hrs;
    [|discriminate].
  cbn [ChunkPaper.bind] in *.
  rewrite pack_reloc; [exact Hcs|lia|].
  apply (section_ranges_bounds text_ k (Nat.lt_le_incl _ _ Hlt) (s0 :: rest));
    assumption.
Qed.

(** On the sample paper, whose first heading starts after the title block
    of 17 characters: the chunks are those of the paper without the title
    block. *)
Lemma C10_preamble_in_no_chunk_witness :
  firstn 17 sample_paper = lines ["My Title"%string; "Authors"%string] ++ [NL] /\
  skipn 17 sample_paper = sample_paper_body /\
  exists cs,
    ChunkPaper.split_into_chunks sample_paper
      (ChunkPaper.identify_sections sample_paper) 100 = ChunkPaper.Ok cs /\
    ChunkPaper.split_into_chunks sample_paper_body
      (ChunkPaper.identify_sections sample_paper_body) 100 = ChunkPaper.Ok cs.
Proof.
  split; [vm_compute; reflexivity|].
  split; [vm_compute; reflexivity|].
  destruct (C10_preamble_in_no_chunk sample_paper 100%Z
              (17, py "1. Introduction", py "introduction")
              [(68, py "## Method", py "method");
               (92, py "Conclusions", py "conclusions")])
    as (cs & H1 & H2).
  - vm_compute. reflexivity.
  - cbn. lia.
  - exists cs. split; [exact H1|].
    rewrite <- (H2 []). vm_compute. reflexivity.
Defined.

End HeadingClaims.

Section OversizedUnit.

Lemma truthy_paragraph (para : str) : truthy (para ++ [NL; NL]) = true.
Proof. destruct para; reflexivity. Qed.

(** C7, as stated: a section whose paragraphs are estimated at 200, 200 and
    100 tokens, the last one of 400 spaces, gives under budget 200 two
    chunks and not three: [split_by_tokens] drops a last run of paragraphs
    that holds whitespace only. *)
Lemma C7_oversized_unit_counterexample :
  ChunkPaper.identify_sections blank_last_piece
    = [(0, py "Method", py "method")] /\
  map ChunkPaper.estimate_tokens (split [NL; NL] blank_last_piece)
    = [200; 200; 100]%Z /\
  ChunkPaper.estimate_tokens blank_last_piece = 501%Z /\
  exists c0 c1,
    ChunkPaper.split_into_chunks blank_last_piece
      (ChunkPaper.identify_sections blank_last_piece) 200
    = ChunkPaper.Ok [c0; c1] /\
    map ChunkPaper.tokens [c0; c1] = [200; 200]%Z.
Proof.
  split; [vm_compute; reflexivity|].
  split; [vm_compute; reflexivity|].
  split; [vm_compute; reflexivity|].
  do 2 eexists. split; [vm_compute; reflexivity|reflexivity].
Qed.

(** C7, amended: when the text of a section alone is above the budget,
    [split_into_chunks] appends the accumulator to the chunks if it holds
    text and empties it, then appends the chunks into which
    [split_by_tokens] cuts the section: runs of consecutive paragraphs,
    each within the budget unless it is a single paragraph above it, each
    a chunk of its own with the name of the section as only member and the
    priority of the section; a last run of paragraphs that holds
    whitespace only is dropped.  In particular a section whose paragraphs
    are estimated at 200, 200 and 100 tokens gives, under budget 200,
    exactly three single-member chunks when the last paragraph holds a
    character that is not whitespace, and exactly two, the first two
    paragraphs, when it does not. *)
Theorem C7_oversized_unit :
  (forall (text_ : str) (max_tokens : Z) (st : ChunkPaper.pack_state)
          (sec : ChunkPaper.section_range),
      (ChunkPaper.estimate_tokens (range_text text_ sec) > max_tokens)%Z ->
      let cur := ChunkPaper.current_chunk st in
      let subs :=
        map (ChunkPaper.tag_sub_chunk sec)
            (ChunkPaper.split_by_tokens (range_text text_ sec) max_tokens
               (ChunkPaper.sr_name sec)) in
      ChunkPaper.pack_step text_ max_tokens st sec
      = {| ChunkPaper.chunks :=
             (ChunkPaper.chunks st ++
              if truthy (ChunkPaper.oc_text cur)
              then [ChunkPaper.close cur] else []) ++ subs;
           ChunkPaper.current_chunk :=
             if truthy (ChunkPaper.oc_text cur)
             then ChunkPaper.empty_chunk else cur |} /\
      Forall (fun c => ChunkPaper.sections c = [ChunkPaper.sr_name sec] /\
                       ChunkPaper.priority c = Some (ChunkPaper.sr_priority sec) /\
                       paper_chunk_ok text_ max_tokens c) subs /\
      exists groups rest,
        split [NL; NL] (range_text text_ sec) = concat groups ++ rest /\
        map ChunkPaper.text subs = map (fun g => strip (para_text g)) groups /\
        map ChunkPaper.tokens subs = map para_tokens groups /\
        Forall (fun g => g <> []) groups /\
        strip (para_text rest) = []) /\
  (forall (text_ name normalized kw p1 p2 p3 : str),
      split [NL; NL] text_ = [p1; p2; p3] ->
      ChunkPaper.estimate_tokens p1 = 200%Z ->
      ChunkPaper.estimate_tokens p2 = 200%Z ->
      ChunkPaper.estimate_tokens p3 = 100%Z ->
      strip (p3 ++ [NL; NL]) <> [] ->
      (ChunkPaper.estimate_tokens text_ > 200)%Z ->
      ChunkPaper.lead_keyword normalized = ChunkPaper.Ok kw ->
      let tier := ChunkPaper.dict_get ChunkPaper.SECTION_PRIORITY kw 2 in
      let piece i para n :=
        {| ChunkPaper.sections := [name];
           ChunkPaper.text := strip (para ++ [NL; NL]);
           ChunkPaper.priority := Some tier;
           ChunkPaper.tokens := n;
           ChunkPaper.index := Some i;
           ChunkPaper.total := Some 3 |} in
      ChunkPaper.split_into_chunks text_ [(0, name, normalized)] 200
      = ChunkPaper.Ok [piece 0 p1 200%Z; piece 1 p2 200%Z; piece 2 p3 100%Z]) /\
  (forall (text_ name normalized kw p1 p2 p3 : str),
      split [NL; NL] text_ = [p1; p2; p3] ->
      ChunkPaper.estimate_tokens p1 = 200%Z ->
      ChunkPaper.estimate_tokens p2 = 200%Z ->
      ChunkPaper.estimate_tokens p3 = 100%Z ->
      strip (p3 ++ [NL; NL]) = [] ->
      (ChunkPaper.estimate_tokens text_ > 200)%Z ->
      ChunkPaper.lead_keyword normalized = ChunkPaper.Ok kw ->
      let tier := ChunkPaper.dict_get ChunkPaper.SECTION_PRIORITY kw 2 in
      let piece i para n :=
        {| ChunkPaper.sections := [name];
           ChunkPaper.text := strip (para ++ [NL; NL]);
           ChunkPaper.priority := Some tier;
           ChunkPaper.tokens := n;
           ChunkPaper.index := Some i;
           ChunkPaper.total := Some 2 |} in
      ChunkPaper.split_into_chunks text_ [(0, name, normalized)] 200
      = ChunkPaper.Ok [piece 0 p1 200%Z; piece 1 p2 200%Z]).
Proof.
  split; [|split].
  - intros text_ max_tokens st sec Hover cur subs.
    split; [|split].
    + unfold ChunkPaper.pack_step. fold (range_text text_ sec).
      replace (ChunkPaper.estimate_tokens (range_text text_ sec) >? max_tokens)%Z
        with true by (symmetry; apply Z.gtb_lt; lia).
      fold cur. destruct (truthy (ChunkPaper.oc_text cur)); cbn;
        [reflexivity|now rewrite app_nil_r].
    + apply Forall_forall. intros c Hin.
      apply in_map_iff in Hin as (c0 & <- & Hin).
      split; [reflexivity|]. split; [reflexivity|].
      now apply paper_chunk_ok_sub
        with (a := ChunkPaper.sr_start sec) (b := ChunkPaper.sr_end sec).
    + destruct (split_by_tokens_groups max_tokens (ChunkPaper.sr_name sec)
                  (range_text text_ sec))
        as (groups & rest & Hs & Hc & Hg & Hrest).
      exists groups, rest. unfold subs. rewrite Hc, !map_map. cbn.
      repeat split; auto.
      eapply Forall_impl; [|exact Hg]. now intros g [Hne _].
  - intros text_ name normalized kw p1 p2 p3 Hs H1 H2 H3 Hlast Hover Hkw
           tier piece.
    unfold ChunkPaper.split_into_chunks.
    cbn [truthy negb ChunkPaper.section_ranges]. rewrite Hkw.
    cbn [ChunkPaper.bind]. fold tier.
    unfold ChunkPaper.pack. cbn [fold_left].
    unfold ChunkPaper.pack_step.
    cbn [ChunkPaper.sr_start ChunkPaper.sr_end ChunkPaper.sr_name
         ChunkPaper.sr_priority].
    rewrite slice_all.
    replace (ChunkPaper.estimate_tokens text_ >? 200)%Z
      with true by (symmetry; apply Z.gtb_lt; lia).
    cbn [ChunkPaper.flush_if ChunkPaper.pack_init ChunkPaper.current_chunk
         ChunkPaper.empty_chunk ChunkPaper.oc_text truthy ChunkPaper.chunks app].
    unfold ChunkPaper.split_by_tokens, ChunkPaper.split_by_tokens_from.
    rewrite Hs. cbn [fold_left].
    rewrite (para_step_keep 200 name _ p1) by (now right).
    cbn [ChunkPaper.current_text ChunkPaper.current_tokens
         ChunkPaper.para_chunks app].
    rewrite (para_step_flush 200 name _ p2)
      by (cbn [ChunkPaper.current_text ChunkPaper.current_tokens];
          first [lia|destruct p1; discriminate]).
    cbn [ChunkPaper.current_text ChunkPaper.current_tokens
         ChunkPaper.para_chunks app].
    rewrite (para_step_flush 200 name _ p3)
      by (cbn [ChunkPaper.current_text ChunkPaper.current_tokens];
          first [lia|destruct p2; discriminate]).
    rewrite H1, H2, H3.
    subst piece. clearbody tier.
    unfold ChunkPaper.para_finish, ChunkPaper.para_chunk.
    cbn [ChunkPaper.current_text ChunkPaper.current_tokens
         ChunkPaper.para_chunks app].
    remember (strip (p1 ++ [NL; NL])) as t1 eqn:E1.
    remember (strip (p2 ++ [NL; NL])) as t2 eqn:E2.
    destruct (strip (p3 ++ [NL; NL])) as [|c t3]; [now elim Hlast|].
    cbn. rewrite !Nat.leb_refl. cbn. rewrite !Nat.leb_refl. reflexivity.
  - intros text_ name normalized kw p1 p2 p3 Hs H1 H2 H3 Hlast Hover Hkw
           tier piece.
    unfold ChunkPaper.split_into_chunks.
    cbn [truthy negb ChunkPaper.section_ranges]. rewrite Hkw.
    cbn [ChunkPaper.bind]. fold tier.
    unfold ChunkPaper.pack. cbn [fold_left].
    unfold ChunkPaper.pack_step.
    cbn [ChunkPaper.sr_start ChunkPaper.sr_end ChunkPaper.sr_name
         ChunkPaper.sr_priority].
    rewrite slice_all.
    replace (ChunkPaper.estimate_tokens text_ >? 200)%Z
      with true by (symmetry; apply Z.gtb_lt; lia).
    cbn [ChunkPaper.flush_if ChunkPaper.pack_init ChunkPaper.current_chunk
         ChunkPaper.empty_chunk ChunkPaper.oc_text truthy ChunkPaper.chunks app].
    unfold ChunkPaper.split_by_tokens, ChunkPaper.split_by_tokens_from.
    rewrite Hs. cbn [fold_left].
    rewrite (para_step_keep 200 name _ p1) by (now right).
    cbn [ChunkPaper.current_text ChunkPaper.current_tokens
         ChunkPaper.para_chunks app].
    rewrite (para_step_flush 200 name _ p2)
      by (cbn [ChunkPaper.current_text ChunkPaper.current_tokens];
          first [lia|destruct p1; discriminate]).
    cbn [ChunkPaper.current_text ChunkPaper.current_tokens
         ChunkPaper.para_chunks app].
    rewrite (para_step_flush 200 name _ p3)
      by (cbn [ChunkPaper.current_text ChunkPaper.current_tokens];
          first [lia|destruct p2; discriminate]).
    rewrite H1, H2, H3.
    subst piece. clearbody tier.
    unfold ChunkPaper.para_finish, ChunkPaper.para_chunk.
    cbn [ChunkPaper.current_text ChunkPaper.current_tokens
         ChunkPaper.para_chunks app].
    remember (strip (p1 ++ [NL; NL])) as t1 eqn:E1.
    remember (strip (p2 ++ [NL; NL])) as t2 eqn:E2.
    rewrite Hlast.
    cbn. rewrite !Nat.leb_refl. reflexivity.
Qed.

(** On a section read "Method" whose paragraphs have 800, 800 and 400
    characters, alone in its document, after an accumulator that holds an
    earlier section. *)
Lemma C7_oversized_unit_witness :
  ChunkPaper.identify_sections three_pieces = [(0, py "Method", py "method")] /\
  map ChunkPaper.estimate_tokens (split [NL; NL] three_pieces)
    = [200; 200; 100]%Z /\
  ChunkPaper.estimate_tokens three_pieces = 501%Z /\
  (exists c0 c1 c2,
      ChunkPaper.split_into_chunks three_pieces
        (ChunkPaper.identify_sections three_pieces) 200
      = ChunkPaper.Ok [c0; c1; c2] /\
      map ChunkPaper.sections [c0; c1; c2]
        = [[py "Method"]; [py "Method"]; [py "Method"]] /\
      map ChunkPaper.priority [c0; c1; c2] = [Some 1; Some 1; Some 1] /\
      map ChunkPaper.tokens [c0; c1; c2] = [200; 200; 100]%Z) /\
  map ChunkPaper.tokens
    (ChunkPaper.chunks
       (ChunkPaper.pack_step three_pieces 200 after_abstract method_range))
  = [2; 200; 200; 100]%Z.
Proof.
  split; [vm_compute; reflexivity|].
  split; [vm_compute; reflexivity|].
  split; [vm_compute; reflexivity|].
  split.
  - do 3 eexists. split.
    + replace (ChunkPaper.identify_sections three_pieces)
        with [(0, py "Method", py "method")] by (vm_compute; reflexivity).
      apply (proj1 (proj2 C7_oversized_unit) three_pieces (py "Method")
               (py "method")
               (py "method")
               (py "Method" ++ [NL] ++ repeat "a"%char 793)
               (repeat "b"%char 800) (repeat "c"%char 400)).
      * vm_compute. reflexivity.
      * vm_compute. reflexivity.
      * vm_compute. reflexivity.
      * vm_compute. reflexivity.
      * vm_compute. discriminate.
      * vm_compute. reflexivity.
      * vm_compute. reflexivity.
    + split; [reflexivity|]. split; [vm_compute; reflexivity|reflexivity].
  - assert (Hover : (ChunkPaper.estimate_tokens
                       (range_text three_pieces method_range) > 200)%Z)
      by (vm_compute; reflexivity).
    rewrite (proj1 (proj1 C7_oversized_unit three_pieces 200%Z
                      after_abstract method_range Hover)).
    vm_compute. reflexivity.
Defined.

End OversizedUnit.

(* ================================================================== *)
(** * Further properties of chunk_paper.py *)
(* ================================================================== *)

(** ** Stripped strings *)

Section Stripping.

Lemma lstrip_fixed (s t : str) (c : ascii) :
  s = c :: t -> is_space c = false -> lstrip s = s.
Proof. intros -> H. simpl. now rewrite H. Qed.

Lemma lstrip_idempotent (s : str) : lstrip (lstrip s) = lstrip s.
Proof.
  destruct (lstrip s) as [|c t] eqn:E; [reflexivity|].
  apply (lstrip_fixed _ t c eq_refl). exact (lstrip_head _ _ _ E).
Qed.

Lemma lstrip_suffix (s : str) :
  exists p, s = p ++ lstrip s /\ forallb is_space p = true.
Proof.
  induction s as [|c s (p & Hp & Hb)]; simpl.
  - now exists [].
  - destruct (is_space c) eqn:E.
    + exists (c :: p). simpl. rewrite E, Hb. split; [now f_equal|reflexivity].
    + now exists [].
Qed.

Lemma lstrip_nil (s : str) : lstrip s = [] -> forallb is_space s = true.
Proof.
  intros H. destruct (lstrip_suffix s) as (p & Hp & Hb).
  rewrite H, app_nil_r in Hp. now subst.
Qed.

Lemma lstrip_blank (s : str) : forallb is_space s = true -> lstrip s = [].
Proof.
  induction s as [|c s IH]; simpl; [reflexivity|].
  intros H. apply andb_true_iff in H as [-> H]. now apply IH.
Qed.

Lemma forallb_rev (f : ascii -> bool) (s : str) :
  forallb f (rev s) = forallb f s.
Proof.
  induction s as [|c s IH]; simpl; [reflexivity|].
  rewrite forallb_app, IH; simpl. rewrite andb_true_r. apply andb_comm.
Qed.

(** A string strips to the empty string exactly when it is blank. *)
Lemma strip_nil_blank (s : str) : strip s = [] <-> blank s = true.
Proof.
  unfold strip, rstrip, blank. split.
  - intros H.
    assert (H1 : lstrip (rev (lstrip s)) = []).
    { destruct (lstrip (rev (lstrip s))); [reflexivity|].
      simpl in H. now apply app_eq_nil in H as [_ H]. }
    apply lstrip_nil in H1. rewrite forallb_rev in H1.
    destruct (lstrip s) as [|c t] eqn:E; [now apply lstrip_nil|].
    simpl in H1. rewrite (lstrip_head _ _ _ E) in H1. discriminate.
  - intros H. now rewrite (lstrip_blank s H).
Qed.

(** Stripping a stripped string changes nothing. *)
Lemma strip_idempotent (s : str) : strip (strip s) = strip s.
Proof.
  unfold strip at 2 3, rstrip.
  set (a := lstrip s). set (b := lstrip (rev a)).
  assert (Hb : lstrip b = b) by apply lstrip_idempotent.
  assert (Hr : lstrip (rev b) = rev b).
  { destruct (lstrip_suffix (rev a)) as (p & Hp & _). fold b in Hp.
    destruct (rev b) as [|c t] eqn:E; [reflexivity|].
    apply (lstrip_fixed _ t c eq_refl).
    assert (Ha : a = c :: t ++ rev p).
    { rewrite <- (rev_involutive a), Hp, rev_app_distr, E. reflexivity. }
    exact (lstrip_head s _ _ Ha). }
  unfold strip, rstrip. rewrite Hr, rev_involutive, Hb. reflexivity.
Qed.

End Stripping.

(** ** Detected sections *)

Section DetectedSections.

Import ChunkPaper.

Lemma section_at_line_start (text_ : str) (p : nat) (s : section) :
  In s (section_at text_ p) ->
  (p = 0 \/ is_nl (nth (p - 1) text_ " "%char) = true) /\
  line_at text_ p <> [].
Proof.
  unfold section_at.
  destruct (0 <? p) eqn:Hp; cbn [andb].
  - destruct (is_nl (nth (p - 1) text_ " "%char)); cbn [negb]; [|contradiction].
    destruct (line_at text_ p); cbn; [contradiction|].
    intros _. split; [now right|discriminate].
  - apply Nat.ltb_ge in Hp.
    destruct (line_at text_ p); cbn; [contradiction|].
    intros _. split; [left; lia|discriminate].
Qed.

(** X1: [identify_sections] lists the headings by strictly increasing
    start offset.  Every entry starts inside the text, at its beginning or
    right after a newline; its name is the stripped line that starts
    there, is not empty, has at most 100 characters and matches one of the
    section patterns; its normalized name is [normalize] of the name. *)
Theorem identify_sections_well_formed (text_ : str) :
  StronglySorted (fun s t => sec_start s < sec_start t)
                 (identify_sections text_) /\
  Forall (fun s =>
            sec_start s < length text_ /\
            (sec_start s = 0 \/
             is_nl (nth (sec_start s - 1) text_ " "%char) = true) /\
            sec_name s = line_at text_ (sec_start s) /\
            sec_name s <> [] /\
            length (sec_name s) <= 100 /\
            strip (sec_name s) = sec_name s /\
            sec_normalized s = normalize (sec_name s) /\
            existsb (fun pattern => Re.rmatch pattern (sec_name s))
                    SECTION_PATTERNS = true)
         (identify_sections text_).
Proof.
  split.
  - exact (proj2 (scan_sorted text_ (length text_) 0)).
  - apply Forall_forall. intros s Hin.
    apply identify_sections_In in Hin as (p & Hp & Hin).
    destruct (section_at_line_start _ _ _ Hin) as [Hstart Hne].
    destruct (section_at_spec _ _ _ Hin) as (-> & Hlen & Hm).
    cbn [sec_start sec_name sec_normalized fst snd].
    repeat split; auto.
    unfold line_at. apply strip_idempotent.
Qed.

End DetectedSections.

(** ** Token accounts *)

Section TokenAccounts.

Import ChunkPaper.

Lemma zsum_app (a b : list Z) : zsum (a ++ b) = (zsum a + zsum b)%Z.
Proof. induction a as [|x a IH]; simpl; [reflexivity|]. rewrite IH. lia. Qed.

Lemma zsum_perm (a b : list Z) : Permutation a b -> zsum a = zsum b.
Proof. induction 1; simpl; lia. Qed.

Lemma para_tokens_concat (groups : list (list str)) :
  para_tokens (concat groups) = zsum (map para_tokens groups).
Proof.
  induction groups as [|g groups IH]; simpl; [reflexivity|].
  now rewrite para_tokens_app, IH.
Qed.

(** X2: the chunks of [split_by_tokens] account for every paragraph of the
    text but a blank tail, which is dropped: their token counts add up to
    the estimates of the paragraphs kept.  Every chunk has the section
    name as its only member and a stripped text. *)
Theorem split_by_tokens_account (text_ : str) (max_tokens : Z)
    (section_name : str) :
  exists kept rest,
    split [NL; NL] text_ = kept ++ rest /\
    blank (para_text rest) = true /\
    zsum (map tokens (split_by_tokens text_ max_tokens section_name))
      = para_tokens kept /\
    Forall (fun c => sections c = [section_name] /\
                     strip (text c) = text c)
           (split_by_tokens text_ max_tokens section_name).
Proof.
  destruct (split_by_tokens_groups max_tokens section_name text_)
    as (groups & rest & Hs & Hc & _ & Hrest).
  exists (concat groups), rest. rewrite Hc.
  split; [exact Hs|]. split; [now apply strip_nil_blank|]. split.
  - rewrite para_tokens_concat, map_map. reflexivity.
  - apply Forall_forall. intros c Hin.
    apply in_map_iff in Hin as (g & <- & _). cbn.
    split; [reflexivity|apply strip_idempotent].
Qed.

End TokenAccounts.

(** ** The chunk list returned by [split_into_chunks] *)

Section ReturnedChunks.

Import ChunkPaper.

Lemma number_from_index (l : list chunk) : forall i n,
  map index (number_from i n l) = map Some (seq i (length l)).
Proof.
  induction l as [|c l IH]; intros i n; simpl; [reflexivity|].
  now rewrite IH.
Qed.

Lemma number_from_total (l : list chunk) : forall i n,
  Forall (fun c => total c = Some n) (number_from i n l).
Proof.
  induction l as [|c l IH]; intros i n; simpl; constructor; auto.
Qed.

Lemma number_from_content (l : list chunk) : forall i n,
  map content (number_from i n l) = map content l.
Proof.
  induction l as [|c l IH]; intros i n; simpl; [reflexivity|].
  now rewrite IH.
Qed.

Lemma number_from_of_priority (p : nat) (l : list chunk) : forall i n,
  map content (of_priority p (number_from i n l))
  = map content (of_priority p l).
Proof.
  induction l as [|c l IH]; intros i n; [reflexivity|].
  cbn [number_from]. unfold of_priority in *. cbn [filter].
  change (priority_key
            {| sections := sections c; text := text c; priority := priority c;
               tokens := tokens c; index := Some i; total := Some n |})
    with (priority_key c).
  destruct (priority_key c =? p); cbn [map]; [|apply IH].
  f_equal. apply IH.
Qed.

Lemma number_from_sorted (l : list chunk) : forall i n,
  Sorted (fun a b => priority_key a <= priority_key b) l ->
  Sorted (fun a b => priority_key a <= priority_key b) (number_from i n l).
Proof.
  induction l as [|c l IH]; intros i n H; simpl; [constructor|].
  apply Sorted_inv in H as [Hs Hd]. constructor; [now apply IH|].
  destruct l as [|d l]; simpl; constructor.
  apply HdRel_inv in Hd. exact Hd.
Qed.

(** The sort moves a chunk over chunks of strictly larger priority only. *)
Lemma insert_chunk_stable (p : nat) (x : chunk) (l : list chunk) :
  of_priority p (insert_chunk x l) = of_priority p (x :: l).
Proof.
  induction l as [|y l IH]; [reflexivity|].
  cbn [insert_chunk].
  destruct (priority_key x <=? priority_key y) eqn:E; [reflexivity|].
  apply Nat.leb_gt in E.
  unfold of_priority in *. cbn [filter] in *. rewrite IH.
  destruct (priority_key y =? p) eqn:Ey, (priority_key x =? p) eqn:Ex;
    try reflexivity.
  apply Nat.eqb_eq in Ey, Ex. lia.
Qed.

Lemma sort_chunks_stable (p : nat) (l : list chunk) :
  of_priority p (sort_chunks l) = of_priority p l.
Proof.
  induction l as [|x l IH]; [reflexivity|].
  cbn [sort_chunks fold_right]. fold (sort_chunks l).
  rewrite insert_chunk_stable. unfold of_priority in *. cbn [filter].
  now rewrite IH.
Qed.

Lemma split_into_chunks_sections (text_ : str) (secs : list section)
    (max_tokens : Z) (rs : list section_range) :
  secs <> [] ->
  section_ranges text_ secs = Ok rs ->
  split_into_chunks text_ secs max_tokens
  = Ok (number_chunks (sort_chunks (pack text_ max_tokens rs))).
Proof.
  intros Hne Hrs. unfold split_into_chunks.
  destruct secs; [congruence|]. cbn [truthy negb]. now rewrite Hrs.
Qed.

(** X3: on a section list that is not empty, the chunks that
    [split_into_chunks] returns are numbered 0, 1, 2, ... in list order,
    and each carries the length of the list as its total. *)
Theorem split_into_chunks_numbering (text_ : str) (secs : list section)
    (max_tokens : Z) (cs : list chunk) :
  secs <> [] ->
  split_into_chunks text_ secs max_tokens = Ok cs ->
  map index cs = map Some (seq 0 (length cs)) /\
  Forall (fun c => total c = Some (length cs)) cs.
Proof.
  intros Hne H.
  destruct (section_ranges text_ secs) as [rs|e] eqn:Hrs.
  - rewrite (split_into_chunks_sections _ _ _ rs Hne Hrs) in H.
    injection H as <-. unfold number_chunks.
    rewrite number_from_length. split.
    + rewrite number_from_index. reflexivity.
    + apply number_from_total.
  - unfold split_into_chunks in H. destruct secs; [congruence|].
    cbn [truthy negb] in H. rewrite Hrs in H. discriminate.
Qed.

Lemma split_into_chunks_numbering_witness :
  exists cs,
    split_into_chunks sample_paper (identify_sections sample_paper) 5 = Ok cs /\
    map index cs = [Some 0; Some 1; Some 2; Some 3] /\
    Forall (fun c => total c = Some 4) cs.
Proof.
  eexists. split; [vm_compute; reflexivity|].
  refine (split_into_chunks_numbering sample_paper
            (identify_sections sample_paper) 5%Z _ _ _).
  - vm_compute. discriminate.
  - vm_compute. reflexivity.
Defined.

(** X4: the chunks that [split_into_chunks] returns are in non-decreasing
    order of priority, and the sort is stable: the chunks of any one
    priority come in the order in which the packer closed them. *)
Theorem split_into_chunks_order (text_ : str) (secs : list section)
    (max_tokens : Z) (rs : list section_range) (cs : list chunk) :
  secs <> [] ->
  section_ranges text_ secs = Ok rs ->
  split_into_chunks text_ secs max_tokens = Ok cs ->
  Sorted (fun a b => priority_key a <= priority_key b) cs /\
  forall p : nat,
    map content (of_priority p cs)
    = map content (of_priority p (pack text_ max_tokens rs)).
Proof.
  intros Hne Hrs H.
  rewrite (split_into_chunks_sections _ _ _ rs Hne Hrs) in H.
  injection H as <-. unfold number_chunks. split.
  - apply number_from_sorted, sort_chunks_sorted.
  - intros p. now rewrite number_from_of_priority, sort_chunks_stable.
Qed.

Lemma split_into_chunks_order_witness :
  exists rs cs,
    section_ranges sample_paper (identify_sections sample_paper) = Ok rs /\
    split_into_chunks sample_paper (identify_sections sample_paper) 5 = Ok cs /\
    map priority_key (pack sample_paper 5 rs) = [2; 2; 1; 2] /\
    map priority_key cs = [1; 2; 2; 2] /\
    Sorted (fun a b => priority_key a <= priority_key b) cs /\
    map content (of_priority 2 cs)
    = map content (of_priority 2 (pack sample_paper 5 rs)).
Proof.
  do 2 eexists. split; [vm_compute; reflexivity|].
  split; [vm_compute; reflexivity|].
  split; [vm_compute; reflexivity|].
  split; [vm_compute; reflexivity|].
  refine ((fun H => conj (proj1 H) (proj2 H 2))
            (split_into_chunks_order sample_paper
               (identify_sections sample_paper) 5%Z _ _ _ _ _)).
  - vm_compute. discriminate.
  - vm_compute. reflexivity.
  - vm_compute. reflexivity.
Defined.

End ReturnedChunks.

Section ReturnedTiers.

Import ChunkPaper.

Lemma min_tier_bound (bound : nat) (g : list section_range) :
  g <> [] -> Forall (fun r => sr_priority r <= bound) g ->
  min_tier g <= bound.
Proof.
  intros Hne H. destruct H as [|r g Hr _]; [congruence|].
  unfold min_tier. cbn [fold_right].
  etransitivity; [apply Nat.le_min_l|exact Hr].
Qed.

(** X5: on a section list that is not empty, every chunk that
    [split_into_chunks] returns has at least one member section, its
    priority is the smallest priority of its member sections, and that
    priority is at most 4, so its label is "P" followed by the priority. *)
Theorem split_into_chunks_priorities (text_ : str) (secs : list section)
    (max_tokens : Z) (rs : list section_range) (cs : list chunk) :
  secs <> [] ->
  section_ranges text_ secs = Ok rs ->
  split_into_chunks text_ secs max_tokens = Ok cs ->
  Forall (fun c =>
            exists g,
              g <> [] /\ incl g rs /\
              sections c = map sr_name g /\
              priority c = Some (min_tier g) /\
              min_tier g <= 4 /\
              priority_label c = py "P" ++ str_of_nat (min_tier g)) cs.
Proof.
  intros Hne Hrs H.
  pose proof (split_into_chunks_tiers text_ max_tokens secs rs cs Hne Hrs H)
    as Ht.
  pose proof (section_ranges_tiers text_ secs rs Hrs) as Hb.
  eapply Forall_impl; [|exact Ht]. cbn.
  intros c (g & Hg & Hincl & Hsec & Hp).
  assert (Hle : min_tier g <= 4).
  { apply min_tier_bound; [exact Hg|].
    apply Forall_forall. intros r Hr.
    rewrite Forall_forall in Hb. apply Hb, Hincl, Hr. }
  exists g. repeat split; auto.
  unfold priority_label. rewrite Hp. now rewrite Nat.min_l.
Qed.

Lemma split_into_chunks_priorities_witness :
  exists rs cs,
    section_ranges sample_paper (identify_sections sample_paper) = Ok rs /\
    split_into_chunks sample_paper (identify_sections sample_paper) 100
      = Ok cs /\
    map priority cs = [Some 1] /\
    map sr_priority rs = [2; 1; 2] /\
    Forall (fun c =>
              exists g,
                g <> [] /\ incl g rs /\
                sections c = map sr_name g /\
                priority c = Some (min_tier g) /\
                min_tier g <= 4 /\
                priority_label c = py "P" ++ str_of_nat (min_tier g)) cs.
Proof.
  do 2 eexists. split; [vm_compute; reflexivity|].
  split; [vm_compute; reflexivity|].
  split; [vm_compute; reflexivity|].
  split; [vm_compute; reflexivity|].
  refine (split_into_chunks_priorities sample_paper
            (identify_sections sample_paper) 100%Z _ _ _ _ _).
  - vm_compute. discriminate.
  - vm_compute. reflexivity.
  - vm_compute. reflexivity.
Defined.

(** *** Tokens *)

Lemma pack_tokens_flush_if (b : bool) (st : pack_state) :
  pack_tokens (flush_if b st) = pack_tokens st.
Proof.
  destruct b; [|reflexivity]. unfold pack_tokens; cbn.
  rewrite map_app, zsum_app; cbn. lia.
Qed.

Lemma tokens_tag_sub_chunks (sec : section_range) (l : list chunk) :
  map tokens (map (tag_sub_chunk sec) l) = map tokens l.
Proof. rewrite map_map. reflexivity. Qed.

Lemma pack_tokens_step (text_ : str) (max_tokens : Z) (st : pack_state)
    (sec : section_range) :
  pack_tokens (pack_step text_ max_tokens st sec)
  = (pack_tokens st + range_tokens text_ max_tokens sec)%Z.
Proof.
  unfold pack_step, range_tokens, oversized, range_text.
  destruct (estimate_tokens _ >? max_tokens)%Z.
  - rewrite <- (pack_tokens_flush_if (truthy (oc_text (current_chunk st))) st).
    unfold pack_tokens; cbn [chunks current_chunk].
    rewrite map_app, zsum_app, tokens_tag_sub_chunks. lia.
  - match goal with
    | |- context [flush_if ?b st] =>
        rewrite <- (pack_tokens_flush_if b st); generalize (flush_if b st)
    end.
    intros st1. unfold pack_tokens; cbn [chunks current_chunk oc_tokens]. lia.
Qed.

Lemma pack_tokens_fold (text_ : str) (max_tokens : Z)
    (rs : list section_range) : forall st,
  pack_tokens (fold_left (pack_step text_ max_tokens) rs st)
  = (pack_tokens st + zsum (map (range_tokens text_ max_tokens) rs))%Z.
Proof.
  induction rs as [|r rs IH]; intros st; cbn [fold_left map zsum fold_right].
  - lia.
  - rewrite IH, pack_tokens_step. fold (zsum (map (range_tokens text_ max_tokens) rs)).
    lia.
Qed.

Lemma pack_token_sum (text_ : str) (max_tokens : Z)
    (rs : list section_range) :
  zsum (map tokens (pack text_ max_tokens rs))
  = zsum (map (range_tokens text_ max_tokens) rs).
Proof.
  unfold pack.
  pose proof (pack_tokens_fold text_ max_tokens rs pack_init) as H.
  destruct (pack_members_fold text_ max_tokens rs pack_init
              (tidy_init)) as [Ht _].
  set (st := fold_left (pack_step text_ max_tokens) rs pack_init) in *.
  change (pack_tokens pack_init) with 0%Z in H.
  destruct (truthy (oc_text (current_chunk st))) eqn:E.
  - rewrite <- (pack_tokens_flush_if true st) in H.
    unfold pack_tokens in H.
    cbn [flush_if chunks current_chunk oc_tokens empty_chunk] in H.
    cbn [flush_if chunks]. lia.
  - destruct (Ht (truthy_false _ E)) as [_ E0].
    unfold pack_tokens in H. cbn [flush_if]. lia.
Qed.

Lemma range_tokens_fitting (text_ : str) (max_tokens : Z)
    (rs : list section_range) :
  Forall (fun r => oversized text_ max_tokens r = false) rs ->
  map (range_tokens text_ max_tokens) rs
  = map (fun r => estimate_tokens (range_text text_ r)) rs.
Proof.
  induction 1 as [|r rs Hr Hrs IH]; [reflexivity|].
  cbn [map]. unfold range_tokens at 1. now rewrite Hr, IH.
Qed.

(** X6: on a section list that is not empty, the token counts of the
    returned chunks add up to what the sections bring: the estimate of the
    text of a section, or the tokens of its sub-chunks when it is split.
    When no section is above the budget, the total is the sum of the
    estimates of the section texts. *)
Theorem split_into_chunks_token_sum (text_ : str) (secs : list section)
    (max_tokens : Z) (rs : list section_range) (cs : list chunk) :
  secs <> [] ->
  section_ranges text_ secs = Ok rs ->
  split_into_chunks text_ secs max_tokens = Ok cs ->
  zsum (map tokens cs) = zsum (map (range_tokens text_ max_tokens) rs) /\
  (Forall (fun r => oversized text_ max_tokens r = false) rs ->
   zsum (map tokens cs)
   = zsum (map (fun r => estimate_tokens (range_text text_ r)) rs)).
Proof.
  intros Hne Hrs H.
  rewrite (split_into_chunks_sections _ _ _ rs Hne Hrs) in H.
  injection H as <-.
  assert (E : zsum (map tokens
                      (number_chunks (sort_chunks (pack text_ max_tokens rs))))
              = zsum (map (range_tokens text_ max_tokens) rs)).
  { rewrite <- pack_token_sum. unfold number_chunks.
    transitivity (zsum (map tokens (sort_chunks (pack text_ max_tokens rs)))).
    - f_equal.
      generalize (length (sort_chunks (pack text_ max_tokens rs))).
      generalize 0.
      induction (sort_chunks (pack text_ max_tokens rs)) as [|c l IH];
        intros i n; cbn [number_from map]; [reflexivity|].
      cbn [tokens]. f_equal. apply IH.
    - apply zsum_perm, Permutation_map, sort_chunks_perm. }
  split; [exact E|].
  intros Hfit. rewrite E. now rewrite range_tokens_fitting.
Qed.

Lemma split_into_chunks_token_sum_witness :
  exists rs cs,
    section_ranges sample_paper (identify_sections sample_paper) = Ok rs /\
    split_into_chunks sample_paper (identify_sections sample_paper) 5 = Ok cs /\
    map tokens cs = [6; 9; 3; 4]%Z /\
    map (range_tokens sample_paper 5) rs = [12; 6; 4]%Z /\
    zsum (map tokens cs) = zsum (map (range_tokens sample_paper 5) rs).
Proof.
  do 2 eexists. split; [vm_compute; reflexivity|].
  split; [vm_compute; reflexivity|].
  split; [vm_compute; reflexivity|].
  split; [vm_compute; reflexivity|].
  refine (proj1 (split_into_chunks_token_sum sample_paper
                   (identify_sections sample_paper) 5%Z _ _ _ _ _)).
  - vm_compute. discriminate.
  - vm_compute. reflexivity.
  - vm_compute. reflexivity.
Defined.

End ReturnedTiers.

(** ** Errors of [split_into_chunks] and [save_chunks] *)

Section PaperErrors.

Import ChunkPaper.

Lemma words_go_blank (s : str) :
  forallb is_space s = true -> words_go [] s = [].
Proof.
  induction s as [|c s IH]; simpl; [reflexivity|].
  intros H. apply andb_true_iff in H as [-> H]. now apply IH.
Qed.

Lemma words_blank (s : str) : words s = [] <-> blank s = true.
Proof.
  unfold words, blank. split; [|apply words_go_blank].
  intros H. destruct (forallb is_space s) eqn:E; [reflexivity|].
  exfalso.
  assert (Hex : exists c, In c s /\ is_space c = false).
  { clear H. induction s as [|c s IH]; simpl in E; [discriminate|].
    destruct (is_space c) eqn:Ec.
    - destruct (IH E) as (d & Hd & Hs). exists d. split; [now right|exact Hs].
    - exists c. split; [now left|exact Ec]. }
  destruct Hex as (c & Hin & Hc).
  exact (words_go_nonspace s [] c Hin Hc H).
Qed.

Lemma lead_keyword_result (normalized : str) :
  (truthy normalized && blank normalized = true ->
   lead_keyword normalized = Raise IndexError) /\
  (truthy normalized && blank normalized = false ->
   exists k, lead_keyword normalized = Ok k).
Proof.
  unfold lead_keyword. destruct (truthy normalized); cbn [andb].
  - split.
    + intros H. apply words_blank in H. now rewrite H.
    + intros H. destruct (words normalized) eqn:E; [|eauto].
      apply words_blank in E. congruence.
  - split; [discriminate|eauto].
Qed.

Lemma section_ranges_result (text_ : str) (secs : list section) :
  (existsb blank_name secs = true ->
   section_ranges text_ secs = Raise IndexError) /\
  (existsb blank_name secs = false ->
   exists rs, section_ranges text_ secs = Ok rs).
Proof.
  induction secs as [|[[start name] normalized] secs [IH1 IH2]].
  - split; [discriminate|]. intros _. now exists [].
  - cbn [existsb section_ranges]. unfold blank_name at 1 3.
    cbn [sec_normalized snd].
    destruct (lead_keyword_result normalized) as [H1 H2].
    destruct (truthy normalized && blank normalized) eqn:E; cbn [orb].
    + split; [|discriminate]. intros _. now rewrite (H1 eq_refl).
    + destruct (H2 eq_refl) as [k ->]. cbn [bind]. split.
      * intros H. now rewrite (IH1 H).
      * intros H. destruct (IH2 H) as [rs ->]. cbn [bind]. eauto.
Qed.

(** X7: [split_into_chunks] raises IndexError exactly when some entry of
    the section list has a normalized name that is not empty and holds
    whitespace only; on every other input it returns a chunk list. *)
Theorem split_into_chunks_index_error (text_ : str) (secs : list section)
    (max_tokens : Z) :
  (existsb blank_name secs = true ->
   split_into_chunks text_ secs max_tokens = Raise IndexError) /\
  (existsb blank_name secs = false ->
   exists cs, split_into_chunks text_ secs max_tokens = Ok cs).
Proof.
  destruct (section_ranges_result text_ secs) as [H1 H2].
  unfold split_into_chunks. split; intros H.
  - destruct secs; [discriminate|]. cbn [truthy negb].
    now rewrite (H1 H).
  - destruct (negb (truthy secs)); [eauto|].
    destruct (H2 H) as [rs ->]. cbn [bind]. eauto.
Qed.

Lemma split_into_chunks_index_error_witness :
  split_into_chunks sample_paper [(17, py "1. Introduction", py " ")] 100
    = Raise IndexError /\
  exists cs,
    split_into_chunks sample_paper
      [(17, py "1. Introduction", py "introduction")] 100 = Ok cs.
Proof.
  split.
  - apply (proj1 (split_into_chunks_index_error sample_paper
                    [(17, py "1. Introduction", py " ")] 100%Z)).
    vm_compute. reflexivity.
  - apply (proj2 (split_into_chunks_index_error sample_paper
                    [(17, py "1. Introduction", py "introduction")] 100%Z)).
    vm_compute. reflexivity.
Defined.

(** *** Saving *)

Lemma save_step_numbered (base_name : str) (st : save_state) (c : chunk) :
  is_numbered c = true ->
  save_step base_name st c
  = Ok {| disk := disk st ++ [saved_file base_name c];
          saved_files := saved_files st ++ [saved_name base_name c];
          entries := entries st ++ [saved_entry base_name c] |}.
Proof.
  unfold is_numbered, save_step, saved_entry, saved_file, saved_name,
    saved_index, saved_total.
  destruct (index c), (total c); try discriminate. reflexivity.
Qed.

Lemma save_step_missing (base_name : str) (st : save_state) (c : chunk) :
  is_numbered c = false ->
  save_step base_name st c = Raise (KeyError (missing_key c)).
Proof.
  unfold is_numbered, save_step, missing_key.
  destruct (index c), (total c); try discriminate; reflexivity.
Qed.

Lemma save_loop_all_numbered (base_name : str) (cs : list chunk) : forall st,
  forallb is_numbered cs = true ->
  save_loop base_name st cs
  = Ok {| disk := disk st ++ map (saved_file base_name) cs;
          saved_files := saved_files st ++ map (saved_name base_name) cs;
          entries := entries st ++ map (saved_entry base_name) cs |}.
Proof.
  induction cs as [|c cs IH]; intros st H; cbn [save_loop map].
  - rewrite !app_nil_r. now destruct st.
  - cbn [forallb] in H. apply andb_true_iff in H as [Hc Hcs].
    rewrite (save_step_numbered _ _ _ Hc). cbn [bind].
    rewrite (IH _ Hcs). cbn [disk saved_files entries].
    now rewrite <- !app_assoc.
Qed.

(** X8: when every chunk has the keys [index] and [total], [save_chunks]
    writes one file for each chunk, in list order, then the manifest; the
    manifest records the number of chunks and one entry for each chunk, in
    the same order, with the name of its file, its index, label, sections
    and tokens; the returned list names the chunk files and the manifest
    last. *)
Theorem save_chunks_numbered_result (base_name : str) (cs : list chunk) :
  forallb is_numbered cs = true ->
  save_chunks base_name cs
  = Ok (map (saved_file base_name) cs ++
        [ManifestFile (base_name ++ py "_manifest.json")
           {| source := base_name;
              total_chunks := length cs;
              manifest_chunks := map (saved_entry base_name) cs |}],
        map (saved_name base_name) cs ++ [base_name ++ py "_manifest.json"]).
Proof.
  intros H. unfold save_chunks.
  rewrite (save_loop_all_numbered _ _ _ H). reflexivity.
Qed.

Lemma save_chunks_numbered_result_witness :
  exists cs,
    split_into_chunks intro_then_method
      (identify_sections intro_then_method) 4 = Ok cs /\
    map (saved_name (py "paper")) cs
      = [py "paper_chunk00_P1.txt"; py "paper_chunk01_P2.txt"] /\
    save_chunks (py "paper") cs
    = Ok (map (saved_file (py "paper")) cs ++
          [ManifestFile (py "paper_manifest.json")
             {| source := py "paper";
                total_chunks := 2;
                manifest_chunks := map (saved_entry (py "paper")) cs |}],
          map (saved_name (py "paper")) cs ++ [py "paper_manifest.json"]).
Proof.
  eexists. split; [vm_compute; reflexivity|].
  split; [vm_compute; reflexivity|].
  refine (save_chunks_numbered_result (py "paper") _ _).
  vm_compute. reflexivity.
Defined.

(** X9: when some chunk lacks the key [index] or the key [total],
    [save_chunks] raises KeyError for the key that the first such chunk
    misses ([index] when both are missing), and returns nothing: the
    manifest is not written. *)
Theorem save_chunks_missing_key (base_name : str)
    (numbered : list chunk) (c : chunk) (rest : list chunk) :
  forallb is_numbered numbered = true ->
  is_numbered c = false ->
  save_chunks base_name (numbered ++ c :: rest)
  = Raise (KeyError (missing_key c)).
Proof.
  intros Hn Hc. unfold save_chunks.
  assert (E : forall st,
             save_loop base_name st (numbered ++ c :: rest)
             = Raise (KeyError (missing_key c))).
  { induction numbered as [|d l IH]; intros st; cbn [app save_loop].
    - now rewrite (save_step_missing _ _ _ Hc).
    - cbn [forallb] in Hn. apply andb_true_iff in Hn as [Hd Hl].
      rewrite (save_step_numbered _ _ _ Hd). cbn [bind]. now apply IH. }
  now rewrite E.
Qed.

Lemma save_chunks_missing_key_witness :
  exists c0 c1,
    split_into_chunks intro_then_method
      (identify_sections intro_then_method) 4 = Ok [c0; c1] /\
    save_chunks (py "paper") ([c0] ++ close empty_chunk :: [c1])
    = Raise (KeyError (py "index")).
Proof.
  do 2 eexists. split; [vm_compute; reflexivity|].
  refine (save_chunks_missing_key (py "paper") [_] (close empty_chunk) [_] _ _);
    vm_compute; reflexivity.
Defined.

(** X10: when PyMuPDF is there, the PDF exists and at least one heading is
    detected, the run completes: it writes one file for every chunk that
    [split_into_chunks] returns, in chunk order, and then the manifest,
    which counts these chunks. *)
Theorem main_with_headings (pages : list str) (base_name : str)
    (max_tokens : Z) :
  identify_sections (extract_text_from_pdf pages) <> [] ->
  exists cs,
    split_into_chunks (extract_text_from_pdf pages)
      (identify_sections (extract_text_from_pdf pages)) max_tokens = Ok cs /\
    main true true pages base_name max_tokens
    = Ok (map (saved_file base_name) cs ++
          [ManifestFile (base_name ++ py "_manifest.json")
             {| source := base_name;
                total_chunks := length cs;
                manifest_chunks := map (saved_entry base_name) cs |}]).
Proof.
  intros Hne.
  destruct (split_into_chunks_total (extract_text_from_pdf pages) max_tokens)
    as [cs Hcs].
  exists cs. split; [exact Hcs|].
  unfold main. cbn [negb]. rewrite Hcs. cbn [bind].
  rewrite save_chunks_numbered_result; [reflexivity|].
  destruct (identify_sections (extract_text_from_pdf pages)) as [|s0 rest] eqn:E;
    [congruence|].
  unfold split_into_chunks in Hcs. cbn [truthy negb] in Hcs.
  destruct (section_ranges _ _) as [rs|e]; [|discriminate].
  cbn [bind] in Hcs. injection Hcs as <-.
  apply forallb_forall. intros c Hin.
  destruct (number_from_In _ _ _ _ Hin)
    as (_ & _ & _ & _ & _ & _ & [k Hk] & Hn).
  unfold is_numbered. now rewrite Hk, Hn.
Qed.

Lemma main_with_headings_witness :
  exists cs,
    split_into_chunks (extract_text_from_pdf [sample_paper_body])
      (identify_sections (extract_text_from_pdf [sample_paper_body])) 100
      = Ok cs /\
    length cs = 1 /\
    main true true [sample_paper_body] (py "paper") 100
    = Ok (map (saved_file (py "paper")) cs ++
          [ManifestFile (py "paper_manifest.json")
             {| source := py "paper";
                total_chunks := length cs;
                manifest_chunks := map (saved_entry (py "paper")) cs |}]).
Proof.
  destruct (main_with_headings [sample_paper_body] (py "paper") 100%Z)
    as (cs & H1 & H2).
  - vm_compute. discriminate.
  - exists cs. split; [exact H1|]. split; [|exact H2].
    assert (E : split_into_chunks (extract_text_from_pdf [sample_paper_body])
                  (identify_sections (extract_text_from_pdf [sample_paper_body]))
                  100
                = Ok (number_chunks
                        (sort_chunks
                           (pack (extract_text_from_pdf [sample_paper_body]) 100
                              [{| sr_start := 9; sr_end := 60;
                                  sr_name := py "1. Introduction";
                                  sr_normalized := py "introduction";
                                  sr_priority := 2 |};
                               {| sr_start := 60; sr_end := 84;
                                  sr_name := py "## Method";
                                  sr_normalized := py "method";
                                  sr_priority := 1 |};
                               {| sr_start := 84; sr_end := 101;
                                  sr_name := py "Conclusions";
                                  sr_normalized := py "conclusions";
                                  sr_priority := 2 |}]))))
      by (vm_compute; reflexivity).
    rewrite E in H1. injection H1 as <-. vm_compute. reflexivity.
Defined.

End PaperErrors.

(* ================================================================== *)
(** * Further properties of analyze_code.py *)
(* ================================================================== *)

(** ** The runs of files behind the chunks of [generate_chunks] *)

Section FileRuns.

Import AnalyzeCode.

Variable read : str -> option str.
Variable max_tokens : Z.

Lemma numbered_app {A : Type} (f : nat -> list unit_ -> A)
    (a b : list (list unit_)) : forall i,
  numbered f i (a ++ b) = numbered f i a ++ numbered f (i + length a) b.
Proof.
  induction a as [|g a IH]; intros i; cbn [numbered app length].
  - now rewrite Nat.add_0_r.
  - rewrite IH. replace (S i + length a) with (i + S (length a)) by lia.
    reflexivity.
Qed.

Lemma numbered_length {A : Type} (f : nat -> list unit_ -> A)
    (a : list (list unit_)) : forall i,
  length (numbered f i a) = length a.
Proof. induction a as [|g a IH]; intros i; simpl; [|rewrite IH]; reflexivity. Qed.

Lemma unit_tokens_app (g h : list unit_) :
  unit_tokens (g ++ h) = (unit_tokens g + unit_tokens h)%Z.
Proof. unfold unit_tokens. now rewrite map_app, zsum_app. Qed.

Lemma last_priority_app (g : list unit_) (u : unit_) :
  last_priority (g ++ [u]) = priority (fst u).
Proof. unfold last_priority. now rewrite fold_left_app. Qed.

Lemma readable_units_cons (f : FileInfo) (fs : list FileInfo) :
  readable_units read (f :: fs)
  = readable_units read [f] ++ readable_units read fs.
Proof. unfold readable_units; simpl. now rewrite app_nil_r. Qed.

Lemma file_inv_init : file_inv [] gen_init.
Proof.
  exists [], []. cbn. repeat split; auto; try (intros H; now elim H).
Qed.

(** Closing the open run. *)
Lemma file_inv_flush (done : list unit_) (st : gen_state) :
  file_inv done st -> current_chunk st <> [] ->
  exists groups,
    done = concat groups /\
    Forall (fun g => g <> []) groups /\
    chunks (flush st) = numbered file_group_chunk 0 groups /\
    written (flush st) = numbered file_group_file 0 groups /\
    chunk_index (flush st) = length groups.
Proof.
  intros (groups & cur & Hd & Hg & Hc & Hw & Hi & Hcur & Ht & Hp) Hne.
  assert (Hcne : cur <> []).
  { intros ->. now apply Hne. }
  exists (groups ++ [cur]). unfold flush; cbn.
  rewrite concat_app, !numbered_app, length_app; cbn.
  rewrite app_nil_r. split; [|split; [|split; [|split]]].
  - now rewrite Hd.
  - apply Forall_app. split; auto.
  - rewrite Hc. f_equal. unfold chunk_of, file_group_chunk, chunk_name_of,
      file_group_name. rewrite Hi, Hcur, Ht, (Hp Hcne), map_map. reflexivity.
  - rewrite Hw. f_equal. unfold chunk_text_of, chunk_name_of,
      file_group_file, file_group_name. now rewrite Hi, Hcur, (Hp Hcne).
  - rewrite Hi. lia.
Qed.

Lemma file_inv_step (done : list unit_) (st : gen_state) (f : FileInfo) :
  file_inv done st ->
  file_inv (done ++ readable_units read [f]) (gen_step read max_tokens st f).
Proof.
  intros Hinv. unfold gen_step, readable_units. cbn [flat_map].
  destruct (read (path f)) as [source|]; [|now rewrite !app_nil_r].
  cbn [app].
  destruct ((current_tokens st + estimate_tokens (file_content_of f source)
               >? max_tokens)%Z
            && truthy (current_chunk st))%bool eqn:Hb.
  - apply andb_true_iff in Hb as [_ Hne].
    assert (Hne' : current_chunk st <> []).
    { destruct (current_chunk st); [discriminate|congruence]. }
    destruct (file_inv_flush done st Hinv Hne') as (groups & Hd & Hg & Hc & Hw & Hi).
    exists groups, [(f, source)]. cbn. repeat split; auto.
    + now rewrite Hd.
    + unfold unit_tokens, unit_content; cbn. lia.
  - destruct Hinv as (groups & cur & Hd & Hg & Hc & Hw & Hi & Hcur & Ht & Hp).
    exists groups, (cur ++ [(f, source)]). cbn. repeat split; auto.
    + rewrite Hd. now rewrite app_assoc.
    + rewrite Hcur, map_app. reflexivity.
    + rewrite Ht, unit_tokens_app. unfold unit_tokens, unit_content; cbn. lia.
    + intros _. now rewrite last_priority_app.
Qed.

Lemma file_inv_fold (fs : list FileInfo) : forall done st,
  file_inv done st ->
  file_inv (done ++ readable_units read fs)
           (fold_left (gen_step read max_tokens) fs st).
Proof.
  induction fs as [|f fs IH]; intros done st H.
  - cbn. now rewrite app_nil_r.
  - cbn [fold_left]. rewrite readable_units_cons, app_assoc.
    apply IH. now apply file_inv_step.
Qed.

(** The chunks and the chunk files of a run of [generate_chunks] are those
    of a cut of the readable files, in input order, into runs that are not
    empty. *)
Lemma gen_run_groups (fs : list FileInfo) :
  exists groups,
    readable_units read fs = concat groups /\
    Forall (fun g => g <> []) groups /\
    chunks (gen_run read max_tokens fs) = numbered file_group_chunk 0 groups /\
    written (gen_run read max_tokens fs) = numbered file_group_file 0 groups.
Proof.
  unfold gen_run.
  pose proof (file_inv_fold fs [] gen_init file_inv_init) as H.
  cbn [app] in H.
  set (st := fold_left (gen_step read max_tokens) fs gen_init) in *.
  destruct (current_chunk st) as [|c l] eqn:E; cbn [truthy].
  - destruct H as (groups & cur & Hd & Hg & Hc & Hw & Hi & Hcur & Ht & Hp).
    exists groups. rewrite E in Hcur.
    destruct cur; [|discriminate]. rewrite app_nil_r in Hd. auto.
  - destruct (file_inv_flush _ st H) as (groups & Hd & Hg & Hc & Hw & _).
    + rewrite E. discriminate.
    + exists groups. auto.
Qed.

End FileRuns.

(** ** The chunks and files of [generate_chunks] *)

Section FileChunks.

Import AnalyzeCode.

Variable read : str -> option str.
Variable max_tokens : Z.

Lemma numbered_chunk_index (groups : list (list unit_)) : forall i,
  map index (numbered file_group_chunk i groups) = seq i (length groups).
Proof.
  induction groups as [|g gs IH]; intros i; cbn; [reflexivity|].
  now rewrite IH.
Qed.

Lemma numbered_file_names (groups : list (list unit_)) : forall i,
  map fst (numbered file_group_file i groups)
  = map filename (numbered file_group_chunk i groups).
Proof.
  induction groups as [|g gs IH]; intros i; cbn; [reflexivity|].
  now rewrite IH.
Qed.

Lemma numbered_Forall2 {A : Type} (f : nat -> list unit_ -> A)
    (P : A -> list unit_ -> Prop) (groups : list (list unit_)) : forall i,
  (forall j g, In g groups -> P (f j g) g) ->
  Forall2 P (numbered f i groups) groups.
Proof.
  induction groups as [|g gs IH]; intros i H; cbn; constructor.
  - apply H. now left.
  - apply IH. intros j g' Hin. apply H. now right.
Qed.

(** X11: the chunks of [generate_chunks] are numbered 0, 1, 2, ... in list
    order; the file name of a chunk is "chunk_", its index on two digits
    at least, "_P", its priority and ".md"; no chunk is without a member;
    and exactly one file is written for every chunk, in chunk order, under
    the file name of the chunk. *)
Theorem generate_chunks_numbering (fs : list FileInfo) :
  let st := gen_run read max_tokens fs in
  chunks st = generate_chunks read max_tokens fs /\
  map index (chunks st) = seq 0 (length (chunks st)) /\
  Forall (fun c => filename c
                   = py "chunk_" ++ fmt_02d (index c) ++ py "_P"
                     ++ str_of_nat (chunk_priority c) ++ py ".md" /\
                   files c <> [])
         (chunks st) /\
  map fst (written st) = map filename (chunks st).
Proof.
  intros st. unfold st.
  destruct (gen_run_groups read max_tokens fs) as (groups & Hu & Hg & Hc & Hw).
  rewrite Hc, Hw. split; [now rewrite <- Hc|].
  split; [|split].
  - now rewrite numbered_chunk_index, numbered_length.
  - clear Hc Hw Hu. generalize 0.
    induction Hg as [|g gs Hne Hgs IH]; intros i; cbn [numbered];
      constructor; auto.
    cbn. split; [reflexivity|]. destruct g; [congruence|discriminate].
  - apply numbered_file_names.
Qed.

(** X12: the chunks of [generate_chunks] cut the readable files, in input
    order, into runs that are not empty.  A chunk lists the member names
    of its run, its tokens are the sum of the estimates of the texts of
    the run, and its priority is the priority of the last file of the run,
    whatever the priorities of the files before it. *)
Theorem generate_chunks_runs (fs : list FileInfo) :
  exists groups,
    readable_units read fs = concat groups /\
    Forall2 (fun c g =>
               files c = map (fun u => member_name (unit_content u)) g /\
               tokens c = unit_tokens g /\
               exists earlier u,
                 g = earlier ++ [u] /\ chunk_priority c = priority (fst u))
            (generate_chunks read max_tokens fs) groups.
Proof.
  destruct (gen_run_groups read max_tokens fs) as (groups & Hu & Hg & Hc & _).
  exists groups. split; [exact Hu|].
  unfold generate_chunks. rewrite Hc.
  apply numbered_Forall2. intros j g Hin.
  rewrite Forall_forall in Hg. specialize (Hg g Hin).
  cbn. split; [reflexivity|]. split; [reflexivity|].
  destruct (exists_last Hg) as (earlier & u & ->).
  exists earlier, u. split; [reflexivity|apply last_priority_app].
Qed.

Lemma readable_contents_units (fs : list FileInfo) :
  readable_contents read fs = map unit_content (readable_units read fs).
Proof.
  induction fs as [|f fs IH]; [reflexivity|].
  unfold readable_contents, readable_units in *. cbn [flat_map].
  rewrite map_app. f_equal; [|exact IH].
  now destruct (read (path f)).
Qed.

Lemma numbered_chunk_tokens (groups : list (list unit_)) : forall i,
  zsum (map tokens (numbered file_group_chunk i groups))
  = unit_tokens (concat groups).
Proof.
  induction groups as [|g gs IH]; intros i; cbn [numbered map concat zsum fold_right].
  - reflexivity.
  - fold (zsum (map tokens (numbered file_group_chunk (S i) gs))).
    rewrite IH, unit_tokens_app. reflexivity.
Qed.

(** X13: the token counts of the chunks of [generate_chunks] add up to the
    sum of the estimates of the texts of the readable files: no file is
    counted twice or left out. *)
Theorem generate_chunks_token_sum (fs : list FileInfo) :
  zsum (map tokens (generate_chunks read max_tokens fs))
  = zsum (map estimate_tokens (readable_contents read fs)).
Proof.
  destruct (gen_run_groups read max_tokens fs) as (groups & Hu & _ & Hc & _).
  unfold generate_chunks. rewrite Hc, numbered_chunk_tokens, <- Hu.
  rewrite readable_contents_units, map_map. reflexivity.
Qed.

Lemma gen_step_unreadable (st : gen_state) (f : FileInfo) :
  readable read f = false -> gen_step read max_tokens st f = st.
Proof.
  unfold readable, gen_step. now destruct (read (path f)).
Qed.

(** X14: a file that cannot be read leaves no trace: the chunks, the
    numbering and the files written by [generate_chunks] are those of the
    run on the readable files alone. *)
Theorem generate_chunks_skips_unreadable (fs : list FileInfo) :
  gen_run read max_tokens fs
  = gen_run read max_tokens (filter (readable read) fs).
Proof.
  unfold gen_run.
  assert (E : forall st,
             fold_left (gen_step read max_tokens) fs st
             = fold_left (gen_step read max_tokens)
                         (filter (readable read) fs) st).
  { induction fs as [|f l IH]; intros st; cbn [filter fold_left];
      [reflexivity|].
    destruct (readable read f) eqn:Hr; cbn [fold_left].
    - apply IH.
    - rewrite (gen_step_unreadable st f Hr). apply IH. }
  now rewrite E.
Qed.

End FileChunks.

(** ** The order of [scan_directory] *)

Section ScanOrder.

Import AnalyzeCode.

Lemma str_ltb_asym (a : str) : forall b,
  str_ltb a b = true -> str_ltb b a = false.
Proof.
  induction a as [|x a IH]; intros [|y b]; cbn [str_ltb];
    try discriminate; auto.
  intros H. apply orb_true_iff in H as [H|H].
  - apply Nat.ltb_lt in H.
    replace (code y <? code x) with false by (symmetry; apply Nat.ltb_ge; lia).
    replace (code y =? code x) with false by (symmetry; apply Nat.eqb_neq; lia).
    reflexivity.
  - apply andb_true_iff in H as [He Hl]. apply Nat.eqb_eq in He.
    rewrite He, Nat.ltb_irrefl, Nat.eqb_refl. cbn [orb andb]. now apply IH.
Qed.

(** The sort key is a total preorder. *)
Lemma file_key_leb_total (a b : FileInfo) :
  file_key_leb a b = false -> file_key_leb b a = true.
Proof.
  unfold file_key_leb. intros H.
  apply orb_false_iff in H as [H1 H2]. apply Nat.ltb_ge in H1.
  destruct (priority b <? priority a) eqn:E; [reflexivity|].
  apply Nat.ltb_ge in E. assert (Heq : priority a = priority b) by lia.
  rewrite Heq, Nat.eqb_refl in *. cbn [orb andb] in *.
  apply negb_false_iff in H2. now rewrite (str_ltb_asym _ _ H2).
Qed.

Lemma insert_file_perm (x : FileInfo) (l : list FileInfo) :
  Permutation (insert_file x l) (x :: l).
Proof.
  induction l as [|y l IH]; cbn; [reflexivity|].
  destruct (file_key_leb x y); [reflexivity|].
  rewrite IH. apply perm_swap.
Qed.

Lemma insert_file_sorted (x : FileInfo) (l : list FileInfo) :
  Sorted (fun a b => file_key_leb a b = true) l ->
  Sorted (fun a b => file_key_leb a b = true) (insert_file x l).
Proof.
  induction 1 as [|y l Hs IH Hd]; cbn.
  - repeat constructor.
  - destruct (file_key_leb x y) eqn:E.
    + repeat constructor; auto.
    + constructor; auto.
      destruct l as [|z l]; cbn in *.
      * constructor. now apply file_key_leb_total.
      * destruct (file_key_leb x z); constructor.
        -- now apply file_key_leb_total.
        -- now inversion Hd.
Qed.

(** X15: [scan_directory] returns the parsed files, each exactly once, in
    non-decreasing order of the key (priority, path): a file of smaller
    priority comes first, and among files of one priority the path
    decides. *)
Theorem scan_directory_sorted (parsed : list FileInfo) :
  Permutation (scan_directory parsed) parsed /\
  Sorted (fun a b =>
            priority a < priority b \/
            (priority a = priority b /\ str_ltb (path b) (path a) = false))
         (scan_directory parsed).
Proof.
  split.
  - unfold scan_directory.
    induction parsed as [|x l IH]; cbn; [reflexivity|].
    rewrite insert_file_perm. now constructor.
  - assert (H : Sorted (fun a b => file_key_leb a b = true)
                       (scan_directory parsed)).
    { unfold scan_directory.
      induction parsed as [|x l IH]; cbn; [constructor|].
      now apply insert_file_sorted. }
    assert (Hrel : forall a b, file_key_leb a b = true ->
                     priority a < priority b \/
                     (priority a = priority b /\
                      str_ltb (path b) (path a) = false)).
    { intros a b Hab. unfold file_key_leb in Hab.
      apply orb_true_iff in Hab as [Hab|Hab].
      - left. now apply Nat.ltb_lt.
      - apply andb_true_iff in Hab as [He Hl]. right.
        split; [now apply Nat.eqb_eq|now apply negb_true_iff]. }
    induction H as [|a l Hs IH Hd]; constructor; auto.
    destruct Hd; constructor. now apply Hrel.
Qed.

End ScanOrder.

(** ** The tier rules of [get_priority] *)

Section TierRules.

Import Re AnalyzeCode.

Lemma lit_matches (s : str) : matches (lit s) s.
Proof.
  induction s as [|c s IH]; cbn [lit]; [constructor|].
  apply (M_cat (chr c) (lit s) [c] s); [|exact IH].
  constructor. apply Ascii.eqb_refl.
Qed.

Lemma star_dot_matches (s : str) :
  forallb (fun c => negb (is_nl c)) s = true -> matches (Star dot) s.
Proof.
  induction s as [|c s IH]; cbn [forallb]; intros H; [constructor|].
  apply andb_true_iff in H as [Hc Hs].
  apply (M_star_app _ [c] s); [|now apply IH].
  constructor. exact Hc.
Qed.

(** A pattern that ends in [$] is found in every name that ends with a
    match of it. *)
Lemma search_eos_suffix (r : regex) (p t : str) :
  matches r t -> search_eos r (p ++ t) = true.
Proof.
  intros H. apply search_eos_matches. exists p, t. split; [reflexivity|].
  rewrite <- (app_nil_r t).
  apply M_cat; [exact H|]. apply M_alt_r. constructor.
Qed.

Lemma get_priority_in_le (name : str) (bound : nat)
    (before : list (nat * list regex)) : forall t ps rest,
  Forall (fun e => fst e <= bound) before ->
  t <= bound ->
  existsb (fun pattern => search_eos pattern name) ps = true ->
  get_priority_in (before ++ (t, ps) :: rest) name <= bound.
Proof.
  induction before as [|[t' ps'] before IH]; intros t ps rest Hb Ht Hm;
    cbn [app get_priority_in].
  - now rewrite Hm.
  - inversion Hb; subst. destruct (existsb _ ps'); [assumption|].
    now apply IH.
Qed.

Lemma get_priority_in_range (name : str) (table : list (nat * list regex)) :
  get_priority_in table name = 99 \/
  In (get_priority_in table name) (map fst table).
Proof.
  induction table as [|[t ps] table IH]; cbn [get_priority_in map fst In].
  - now left.
  - destruct (existsb _ ps); [right; now left|].
    destruct IH as [IH|IH]; [now left|right; now right].
Qed.

(** X16: [get_priority] returns 0, 1, 2, 3 or 99.  A name that ends in
    "model.py" or "models.py", or holds "modeling_" and ends in ".py"
    with no newline in between, gets tier 0 whatever comes before; a name
    that holds "config" and ends in ".py" gets tier 0 or 1; a name that
    ends in "utils.py" gets a tier of at most 3, never the default. *)
Theorem get_priority_rules :
  (forall name, In (get_priority name) [0; 1; 2; 3; 99]) /\
  (forall pre, get_priority (pre ++ py "model.py") = 0) /\
  (forall pre, get_priority (pre ++ py "models.py") = 0) /\
  (forall pre mid, forallb (fun c => negb (is_nl c)) mid = true ->
     get_priority (pre ++ py "modeling_" ++ mid ++ py ".py") = 0) /\
  (forall pre mid, forallb (fun c => negb (is_nl c)) mid = true ->
     get_priority (pre ++ py "config" ++ mid ++ py ".py") <= 1) /\
  (forall pre, get_priority (pre ++ py "utils.py") <= 3).
Proof.
  assert (Hzero : forall name r,
             In r [cats [lit (py "modeling_"); Star dot; lit (py ".py")];
                   lit (py "model.py"); lit (py "models.py")] ->
             search_eos r name = true -> get_priority name = 0).
  { intros name r Hin Hm.
    assert (H : get_priority name <= 0).
    { unfold get_priority, FILE_PRIORITY.
      apply (get_priority_in_le name 0 []); [constructor|lia|].
      apply existsb_exists. now exists r. }
    lia. }
  split; [|split; [|split; [|split; [|split]]]].
  - intros name.
    destruct (get_priority_in_range name FILE_PRIORITY) as [H|H];
      unfold get_priority.
    + rewrite H. cbn. tauto.
    + cbn [FILE_PRIORITY map fst In] in H. cbn [In]. tauto.
  - intros pre. apply (Hzero _ (lit (py "model.py"))).
    + cbn. tauto.
    + apply search_eos_suffix, lit_matches.
  - intros pre. apply (Hzero _ (lit (py "models.py"))).
    + cbn. tauto.
    + apply search_eos_suffix, lit_matches.
  - intros pre mid Hmid.
    apply (Hzero _ (cats [lit (py "modeling_"); Star dot; lit (py ".py")])).
    + cbn. tauto.
    + apply search_eos_suffix. cbn [cats].
      apply M_cat; [apply lit_matches|].
      apply M_cat; [now apply star_dot_matches|apply lit_matches].
  - intros pre mid Hmid. unfold get_priority, FILE_PRIORITY.
    apply (get_priority_in_le _ 1 [_]); [repeat constructor|lia|].
    apply existsb_exists.
    exists (cats [lit (py "config"); Star dot; lit (py ".py")]).
    split; [cbn; tauto|].
    apply search_eos_suffix. cbn [cats].
    apply M_cat; [apply lit_matches|].
    apply M_cat; [now apply star_dot_matches|apply lit_matches].
  - intros pre. unfold get_priority, FILE_PRIORITY.
    apply (get_priority_in_le _ 3 [_; _; _]);
      [repeat constructor; cbn; lia|lia|].
    apply existsb_exists. exists (lit (py "utils.py")).
    split; [cbn; tauto|].
    apply search_eos_suffix, lit_matches.
Qed.

Lemma get_priority_rules_witness :
  get_priority (py "reward_model.py") = 0 /\
  get_priority (py "src/modeling_bert_fast.py") = 0 /\
  get_priority (py "config_model.py") = 0 /\
  get_priority (py "my_config_v2.py") <= 1 /\
  get_priority (py "train_utils.py") <= 3.
Proof.
  split; [apply (proj1 (proj2 get_priority_rules) (py "reward_"))|].
  split.
  { apply (proj1 (proj2 (proj2 (proj2 get_priority_rules)))
             (py "src/") (py "bert_fast")). reflexivity. }
  split; [apply (proj1 (proj2 get_priority_rules) (py "config_"))|].
  split.
  { apply (proj1 (proj2 (proj2 (proj2 (proj2 get_priority_rules))))
             (py "my_") (py "_v2")). reflexivity. }
  apply (proj2 (proj2 (proj2 (proj2 (proj2 get_priority_rules))))
           (py "train_")).
Defined.

End TierRules.


(** ** The priority distribution of [generate_manifest] *)

Section ManifestCounts.

Import AnalyzeCode.

Lemma str_eqb_eq (a : str) : forall b, str_eqb a b = true <-> a = b.
Proof.
  induction a as [|x a IH]; intros [|y b]; cbn [str_eqb];
    try (split; [discriminate|discriminate]); [tauto|].
  rewrite andb_true_iff, Ascii.eqb_eq, IH.
  split; [intros [-> ->]; reflexivity|intros H; now injection H].
Qed.

Lemma str_eqb_neq (a b : str) : a <> b -> str_eqb a b = false.
Proof.
  intros H. destruct (str_eqb a b) eqn:E; [|reflexivity].
  now apply str_eqb_eq in E.
Qed.

Lemma str_eqb_refl (a : str) : str_eqb a a = true.
Proof. now apply str_eqb_eq. Qed.

Lemma to_uint_not_nil (n : nat) : Nat.to_uint n <> Decimal.Nil.
Proof.
  rewrite <- (DecimalNat.Unsigned.of_to n) at 1.
  rewrite DecimalNat.Unsigned.to_of.
  unfold Decimal.unorm.
  destruct (Decimal.nzhead (Nat.to_uint n)); discriminate.
Qed.

(** [str] of an integer determines the integer. *)
Lemma str_of_nat_inj (n m : nat) : str_of_nat n = str_of_nat m -> n = m.
Proof.
  unfold str_of_nat, py. intros H.
  apply (f_equal string_of_list_ascii) in H.
  rewrite !string_of_list_ascii_of_string in H.
  apply (f_equal NilZero.uint_of_string) in H.
  rewrite !NilZero.usu in H by apply to_uint_not_nil.
  injection H as H. apply (f_equal Nat.of_uint) in H.
  now rewrite !DecimalNat.Unsigned.of_to in H.
Qed.

Lemma tier_label_inj (p q : nat) : tier_label p = tier_label q -> p = q.
Proof.
  unfold tier_label. intros H. apply app_inv_head in H.
  now apply str_of_nat_inj.
Qed.

Lemma dict_count_bump (k k' : str) (d : list (str * nat)) :
  dict_count (bump k d) k'
  = dict_count d k' + (if str_eqb k k' then 1 else 0).
Proof.
  induction d as [|[k0 n] d IH]; cbn [bump dict_count].
  - destruct (str_eqb k k'); reflexivity.
  - destruct (str_eqb k0 k) eqn:E0; cbn [dict_count].
    + apply str_eqb_eq in E0. subst k0.
      destruct (str_eqb k k'); lia.
    + destruct (str_eqb k0 k') eqn:E1; [|exact IH].
      apply str_eqb_eq in E1. rewrite E1 in E0.
      rewrite (str_eqb_neq k k'); [lia|].
      intros Hk. rewrite Hk, str_eqb_refl in E0. discriminate.
Qed.

Lemma bump_keys (k k' : str) (d : list (str * nat)) :
  In k' (map fst (bump k d)) <-> k' = k \/ In k' (map fst d).
Proof.
  induction d as [|[k0 n] d IH]; cbn [bump map fst In].
  - intuition.
  - destruct (str_eqb k0 k) eqn:E0; cbn [map fst In].
    + apply str_eqb_eq in E0. subst k0. intuition.
    + rewrite IH. intuition.
Qed.

Lemma bump_nodup (k : str) (d : list (str * nat)) :
  NoDup (map fst d) -> NoDup (map fst (bump k d)).
Proof.
  induction d as [|[k0 n] d IH]; cbn [bump map fst]; intros H.
  - constructor; [intros []|constructor].
  - inversion H as [|? ? Hn Hd]; subst.
    destruct (str_eqb k0 k) eqn:E0; cbn [map fst]; [now constructor|].
    constructor; [|now apply IH].
    rewrite bump_keys. intros [->|Hin]; [|contradiction].
    now rewrite str_eqb_refl in E0.
Qed.

Lemma bump_sum (k : str) (d : list (str * nat)) :
  list_sum (map snd (bump k d)) = S (list_sum (map snd d)).
Proof.
  induction d as [|[k0 n] d IH]; cbn [bump]; [reflexivity|].
  unfold list_sum in *.
  destruct (str_eqb k0 k); cbn [map snd fold_right]; lia.
Qed.

Lemma bump_positive (k : str) (d : list (str * nat)) :
  Forall (fun kv => 0 < snd kv) d -> Forall (fun kv => 0 < snd kv) (bump k d).
Proof.
  induction 1 as [|[k0 n] d Hn Hd IH]; cbn [bump].
  - repeat constructor.
  - destruct (str_eqb k0 k); constructor; cbn [snd] in *; auto; lia.
Qed.

(** The counting loop, from any dict built so far. *)
Lemma distribution_fold (fs : list FileInfo) : forall d,
  let d' := fold_left (fun d f => bump (tier_label (priority f)) d) fs d in
  (forall p, dict_count d' (tier_label p)
             = dict_count d (tier_label p) + count_priority p fs) /\
  (forall k, In k (map fst d') <->
             In k (map fst d) \/
             exists f, In f fs /\ k = tier_label (priority f)) /\
  (NoDup (map fst d) -> NoDup (map fst d')) /\
  list_sum (map snd d') = list_sum (map snd d) + length fs /\
  (Forall (fun kv => 0 < snd kv) d -> Forall (fun kv => 0 < snd kv) d').
Proof.
  induction fs as [|f fs IH]; intros d; cbn [fold_left].
  - cbn zeta. unfold count_priority. cbn [filter length In].
    split; [intros p; lia|].
    split; [intros k; split;
            [intros H; now left|intros [H|(f & [] & _)]; exact H]|].
    split; [auto|]. split; [lia|auto].
  - destruct (IH (bump (tier_label (priority f)) d))
      as (Hc & Hk & Hn & Hs & Hp).
    cbn zeta. split; [|split; [|split; [|split]]].
    + intros p. rewrite Hc, dict_count_bump.
      unfold count_priority. cbn [filter].
      destruct (priority f =? p) eqn:E.
      * apply Nat.eqb_eq in E. subst p. rewrite str_eqb_refl. cbn [length]. lia.
      * rewrite str_eqb_neq; [lia|].
        intros H. apply tier_label_inj in H. apply Nat.eqb_neq in E. lia.
    + intros k. rewrite Hk, bump_keys. cbn [In]. split.
      * intros [[->|H]|(g & Hg & ->)]; eauto.
      * intros [H|(g & [<-|Hg] & ->)]; eauto.
    + intros H. now apply Hn, bump_nodup.
    + rewrite Hs, bump_sum. cbn [length]. lia.
    + intros H. now apply Hp, bump_positive.
Qed.

(** X17: the priority distribution of the manifest counts the files by
    priority.  Under the key "P" followed by a priority stands the number
    of files of that priority (and a lookup of a priority that no file has
    finds nothing); the keys are the labels of the priorities that occur,
    each once and with a positive count; the counts add up to
    [total_files], the number of files, and [total_chunks] is the number
    of chunk descriptors listed. *)
Theorem generate_manifest_counts (fs : list FileInfo) (cs : list Chunk) :
  let m := generate_manifest fs cs in
  (forall p, dict_count (priority_distribution m) (tier_label p)
             = count_priority p fs) /\
  (forall k, In k (map fst (priority_distribution m)) <->
             exists f, In f fs /\ k = tier_label (priority f)) /\
  NoDup (map fst (priority_distribution m)) /\
  Forall (fun kv => 0 < snd kv) (priority_distribution m) /\
  list_sum (map snd (priority_distribution m)) = total_files m /\
  total_files m = length fs /\
  total_chunks m = length (manifest_chunks m).
Proof.
  cbn zeta. unfold generate_manifest.
  cbn [priority_distribution total_files total_chunks manifest_chunks].
  destruct (distribution_fold fs []) as (Hc & Hk & Hn & Hs & Hp).
  unfold tier_label in *. cbn zeta in *.
  split; [intros p; now rewrite Hc|].
  split; [intros k; rewrite Hk; cbn [map In]; tauto|].
  split; [apply Hn; constructor|].
  split; [apply Hp; constructor|].
  split; [exact Hs|]. split; reflexivity.
Qed.

End ManifestCounts.

(** ** The files that a run of analyze_code.py leaves *)

Section AnalyzeRuns.

Import AnalyzeCode.

Lemma scan_directory_perm (parsed : list FileInfo) :
  Permutation (scan_directory parsed) parsed.
Proof.
  unfold scan_directory.
  induction parsed as [|x l IH]; cbn [fold_right]; [constructor|].
  rewrite insert_file_perm. now constructor.
Qed.

Lemma combine_fst_snd {A B : Type} (l : list (A * B)) :
  combine (map fst l) (map snd l) = l.
Proof. induction l as [|[a b] l IH]; cbn; [|rewrite IH]; reflexivity. Qed.

(** X18: a run of analyze_code.py ends with status 0 exactly when the
    source directory exists and at least one file was parsed; otherwise it
    ends with status 1 and writes nothing.  A successful run in a mode
    other than the full one writes the skeleton only.  A successful run in
    full mode writes the skeleton, then one file for every chunk of the
    manifest, in order and under the file name the manifest records, then
    the manifest, which lists the chunks of [generate_chunks] on the
    sorted files and counts every parsed file. *)
Theorem analyze_main_outputs (source_exists : bool) (parsed : list FileInfo)
    (read : str -> option str) (m : mode) (max_tokens : Z) :
  let r := AnalyzeCode.main source_exists parsed read m max_tokens in
  (exit_status r = 0 <-> source_exists = true /\ parsed <> []) /\
  (exit_status r <> 0 -> exit_status r = 1 /\ outputs r = []) /\
  (exit_status r = 0 -> m <> Full -> outputs r = [SkeletonFile]) /\
  (exit_status r = 0 -> m = Full ->
   exists texts man,
     outputs r
     = SkeletonFile ::
       map (fun w => ChunkFile (fst w) (snd w))
           (combine (map filename (manifest_chunks man)) texts)
       ++ [ManifestFile man] /\
     length texts = total_chunks man /\
     manifest_chunks man
     = generate_chunks read max_tokens (scan_directory parsed) /\
     total_files man = length parsed).
Proof.
  cbn zeta. unfold AnalyzeCode.main.
  destruct source_exists; cbn [negb].
  2:{ cbn. repeat split; try discriminate; try lia; intuition discriminate. }
  pose proof (scan_directory_perm parsed) as Hperm.
  destruct (scan_directory parsed) as [|f fs] eqn:Es; cbn [truthy negb].
  - apply Permutation_nil in Hperm. subst parsed.
    cbn. repeat split; try discriminate; try lia; intuition discriminate.
  - assert (Hne : parsed <> []).
    { intros ->. apply Permutation_sym, Permutation_nil in Hperm.
      discriminate. }
    assert (H0 : forall o, exit_status
                   (match m with
                    | Full => {| exit_status := 0; outputs := o |}
                    | _ => {| exit_status := 0; outputs := [SkeletonFile] |}
                    end) = 0) by (intros o; now destruct m).
    split; [split; [auto|intros _; apply H0]|].
    split; [intros H; exfalso; apply H, H0|].
    split; [intros _ Hm; destruct m; [reflexivity|congruence|reflexivity]|].
    intros _ ->. cbn [outputs].
    set (st := gen_run read max_tokens (f :: fs)).
    exists (map snd (written st)),
           (generate_manifest (f :: fs) (chunks st)).
    cbn [manifest_chunks total_chunks total_files generate_manifest].
    destruct (gen_run_groups read max_tokens (f :: fs))
      as (groups & _ & _ & Hc & Hw).
    fold st in Hc, Hw.
    assert (Hnames : map fst (written st) = map filename (chunks st))
      by (rewrite Hc, Hw; apply numbered_file_names).
    split; [|split; [|split]].
    + now rewrite <- Hnames, combine_fst_snd.
    + now rewrite Hc, Hw, length_map, !numbered_length.
    + reflexivity.
    + now rewrite (Permutation_length Hperm).
Qed.

Lemma analyze_main_outputs_witness :
  let r := AnalyzeCode.main true [helpers_py; model_py]
             one_line_files Full 4000 in
  exit_status r = 0 /\
  exists texts man,
    outputs r
    = SkeletonFile ::
      map (fun w => ChunkFile (fst w) (snd w))
          (combine (map filename (manifest_chunks man)) texts)
      ++ [ManifestFile man] /\
    length texts = total_chunks man /\
    manifest_chunks man
    = generate_chunks one_line_files 4000
        (scan_directory [helpers_py; model_py]) /\
    total_files man = 2.
Proof.
  cbn zeta.
  pose proof (analyze_main_outputs true [helpers_py; model_py]
                one_line_files Full 4000) as H.
  cbn zeta in H. destruct H as (H0 & _ & _ & H).
  assert (E : exit_status
                (AnalyzeCode.main true [helpers_py; model_py]
                   one_line_files Full 4000) = 0).
  { apply H0. split; [reflexivity|discriminate]. }
  split; [exact E|]. exact (H E eq_refl).
Defined.

End AnalyzeRuns.

(** ** The files that [should_skip] rejects *)

Section SkipRules.

Import Re AnalyzeCode.

Lemma starts_with_app (p : str) : forall a,
  starts_with p a = true <-> exists b, a = p ++ b.
Proof.
  induction p as [|x p IH]; intros a; cbn [starts_with app].
  - split; [intros _; now exists a|reflexivity].
  - destruct a as [|y a].
    + split; [discriminate|intros (b & H); discriminate].
    + rewrite andb_true_iff, Ascii.eqb_eq, IH. split.
      * intros (-> & b & ->). now exists b.
      * intros (b & H). injection H as -> ->. split; [reflexivity|now exists b].
Qed.

Lemma ends_with_app (p a : str) :
  ends_with p a = true <-> exists b, a = b ++ p.
Proof.
  unfold ends_with. rewrite starts_with_app. split.
  - intros (b & H). exists (rev b).
    rewrite <- (rev_involutive a), H, rev_app_distr, rev_involutive.
    reflexivity.
  - intros (b & ->). exists (rev b). apply rev_app_distr.
Qed.

Lemma occurs_app (p s : str) :
  occurs p s = true <-> exists a b, s = a ++ p ++ b.
Proof.
  induction s as [|c s IH]; cbn [occurs].
  - rewrite orb_false_r, starts_with_app. split.
    + intros (b & H). now exists [], b.
    + intros (a & b & H). destruct a; [now exists b|discriminate].
  - rewrite orb_true_iff, starts_with_app, IH. split.
    + intros [(b & H)|(a & b & ->)]; [now exists [], b|now exists (c :: a), b].
    + intros (a & b & H). destruct a as [|x a].
      * left. now exists b.
      * right. injection H as -> ->. now exists a, b.
Qed.

Lemma at_end_app (p a : str) :
  at_end p a = true <-> exists b e, a = b ++ p ++ e /\ (e = [] \/ e = [NL]).
Proof.
  unfold at_end. rewrite orb_true_iff, !ends_with_app. split.
  - intros [(b & ->)|(b & ->)].
    + exists b, []. rewrite app_nil_r. auto.
    + exists b, [NL]. auto.
  - intros (b & e & -> & [->| ->]).
    + left. exists b. now rewrite app_nil_r.
    + right. now exists b.
Qed.

Lemma matches_lit (s t : str) : matches (lit s) t <-> t = s.
Proof.
  split; [|intros ->; apply lit_matches].
  revert t. induction s as [|c s IH]; intros t H; cbn [lit] in H.
  - now inversion H.
  - inversion H as [| |a b u v Hu Hv| | | |]; subst.
    inversion Hu as [|p d Hp| | | | |]; subst.
    apply Ascii.eqb_eq in Hp. subst d.
    cbn [app]. f_equal. now apply IH.
Qed.

Lemma matches_star_dot (t : str) :
  matches (Star dot) t <-> forallb (fun c => negb (is_nl c)) t = true.
Proof.
  split; [|apply star_dot_matches].
  intros H. remember (Star dot) as r eqn:Er.
  induction H as [| | | | | |a s t Hs _ _ IH]; try discriminate; [reflexivity|].
  injection Er as ->. inversion Hs as [|p d Hp| | | | |]; subst.
  cbn [app forallb]. rewrite IH by reflexivity. now rewrite Hp.
Qed.

Lemma matches_opt_nl (t : str) :
  matches (opt (Cls is_nl)) t <-> t = [] \/ t = [NL].
Proof.
  unfold opt. split.
  - intros H. inversion H as [| | |a b s Hs|a b s Hs| |]; subst.
    + inversion Hs as [|p d Hp| | | | |]; subst. right.
      unfold is_nl, code in Hp. apply Nat.eqb_eq in Hp.
      rewrite <- (ascii_nat_embedding d), Hp. reflexivity.
    + inversion Hs. now left.
  - intros [->| ->]; [apply M_alt_r; constructor|].
    apply M_alt_l. now constructor.
Qed.

Lemma matches_cat (a b : regex) (t : str) :
  matches (Cat a b) t <-> exists u v, t = u ++ v /\ matches a u /\ matches b v.
Proof.
  split.
  - intros H. inversion H; subst. eauto.
  - intros (u & v & -> & Hu & Hv). now constructor.
Qed.

(** [search] decides whether a part of the string is in the language. *)
Lemma search_matches (r : regex) (s : str) :
  search r s = true <-> exists a t b, s = a ++ t ++ b /\ matches r t.
Proof.
  induction s as [|c s IH]; cbn [search].
  - rewrite orb_false_r, rmatch_matches. split.
    + intros (p & t & E & H). now exists [], p, t.
    + intros (a & t & b & E & H). destruct a; [|discriminate].
      now exists t, b.
  - rewrite orb_true_iff, rmatch_matches, IH. split.
    + intros [(p & t & E & H)|(a & t & b & -> & H)].
      * now exists [], p, t.
      * now exists (c :: a), t, b.
    + intros (a & t & b & E & H). destruct a as [|x a].
      * left. now exists t, b.
      * right. injection E as -> ->. now exists a, t, b.
Qed.

Lemma search_lit (p s : str) : search (lit p) s = occurs p s.
Proof.
  apply eq_true_iff_eq. rewrite search_matches, occurs_app. split.
  - intros (a & t & b & -> & H). apply matches_lit in H. subst t.
    now exists a, b.
  - intros (a & b & ->). exists a, p, b. split; [reflexivity|apply lit_matches].
Qed.

Lemma search_eos_lit (p s : str) : search_eos (lit p) s = at_end p s.
Proof.
  apply eq_true_iff_eq. rewrite search_eos_matches, at_end_app. split.
  - intros (a & t & -> & H). apply matches_cat in H as (u & v & -> & Hu & Hv).
    apply matches_lit in Hu. subst u. apply matches_opt_nl in Hv.
    now exists a, v.
  - intros (a & e & -> & He). exists a, (p ++ e). split; [reflexivity|].
    apply M_cat; [apply lit_matches|now apply matches_opt_nl].
Qed.

(** A leading [.*] adds nothing to a pattern that is searched. *)
Lemma search_eos_any_lit (p s : str) :
  search_eos (Cat (Star dot) (lit p)) s = at_end p s.
Proof.
  apply eq_true_iff_eq. rewrite search_eos_matches, at_end_app. split.
  - intros (a & t & -> & H). apply matches_cat in H as (u & v & -> & Hu & Hv).
    apply matches_cat in Hu as (m & l & -> & _ & Hl).
    apply matches_lit in Hl. subst l. apply matches_opt_nl in Hv.
    exists (a ++ m), v. now rewrite <- !app_assoc.
  - intros (a & e & -> & He). exists a, (p ++ e). split; [reflexivity|].
    apply M_cat; [|now apply matches_opt_nl].
    apply (M_cat _ _ [] p); [constructor|apply lit_matches].
Qed.

Lemma search_eos_between (p q s : str) :
  search_eos (Cat (lit p) (Cat (Star dot) (lit q))) s = true <->
  exists a mid e,
    s = a ++ p ++ mid ++ q ++ e /\
    forallb (fun c => negb (is_nl c)) mid = true /\ (e = [] \/ e = [NL]).
Proof.
  rewrite search_eos_matches. split.
  - intros (a & t & -> & H). apply matches_cat in H as (u & v & -> & Hu & Hv).
    apply matches_cat in Hu as (x & y & -> & Hx & Hy).
    apply matches_cat in Hy as (m & l & -> & Hm & Hl).
    apply matches_lit in Hx, Hl. subst x l.
    apply matches_star_dot in Hm. apply matches_opt_nl in Hv.
    exists a, m, v. now rewrite <- !app_assoc.
  - intros (a & mid & e & -> & Hm & He). exists a, (p ++ mid ++ q ++ e).
    split; [reflexivity|].
    replace (p ++ mid ++ q ++ e) with ((p ++ mid ++ q) ++ e)
      by now rewrite <- !app_assoc.
    apply M_cat; [|now apply matches_opt_nl].
    apply M_cat; [apply lit_matches|].
    apply M_cat; [now apply matches_star_dot|apply lit_matches].
Qed.

(** X19: [should_skip] rejects exactly the paths that hold "__pycache__"
    or ".git" anywhere, that end in ".pyc", "_test.py", "setup.py" or
    "__init__.py", or that hold "test_" followed, with no newline in
    between, by a final ".py"; a final newline after the ending is
    ignored.  What comes before counts for nothing: a path is rejected for
    "test_" inside a name or inside the name of a directory above the
    file. *)
Theorem should_skip_iff (path : str) :
  should_skip path = true <->
  occurs (py "__pycache__") path = true \/
  occurs (py ".git") path = true \/
  at_end (py ".pyc") path = true \/
  (exists a mid e,
     path = a ++ py "test_" ++ mid ++ py ".py" ++ e /\
     forallb (fun c => negb (is_nl c)) mid = true /\ (e = [] \/ e = [NL])) \/
  at_end (py "_test.py") path = true \/
  at_end (py "setup.py") path = true \/
  at_end (py "__init__.py") path = true.
Proof.
  unfold should_skip, SKIP_PATTERNS.
  cbn [existsb skip_search cats].
  rewrite !search_lit, !search_eos_lit, search_eos_any_lit.
  rewrite orb_false_r, !orb_true_iff.
  rewrite (search_eos_between (py "test_") (py ".py") path).
  reflexivity.
Qed.

End SkipRules.

(** ** The files that [scan_directory] keeps *)

Section ScanTree.

Import AnalyzeCode.

Variable parse : str -> option parsed_source.

Lemma directory_induction (P : directory -> Prop) :
  (forall files dirs,
      Forall (fun sub => P (snd sub)) dirs -> P (Directory files dirs)) ->
  forall d, P d.
Proof.
  intros H. fix IH 1. intros [files dirs]. apply H.
  induction dirs as [|[name sub] dirs IHdirs]; constructor;
    [apply IH|exact IHdirs].
Qed.

(** A visited file lies under directories that [should_skip] keeps. *)
Lemma walk_paths (d : directory) : forall done rel_path filename,
  In (rel_path, filename) (walk (rel_path_of done []) d) ->
  exists dirs,
    rel_path = rel_path_of (done ++ dirs) filename /\
    Forall (fun name => should_skip name = false) dirs.
Proof.
  induction d as [files dirs IH] using directory_induction.
  intros done rel_path filename Hin. cbn [walk] in Hin.
  apply in_app_or in Hin as [Hin|Hin].
  - apply in_map_iff in Hin as (f & E & _). injection E as <- <-.
    exists []. split; [|constructor].
    unfold rel_path_of. now rewrite !app_nil_r.
  - apply in_flat_map in Hin as ([name sub] & Hsub & Hin).
    cbn [fst snd] in Hin.
    destruct (should_skip name) eqn:Es; [contradiction|].
    rewrite Forall_forall in IH. specialize (IH _ Hsub (done ++ [name])).
    cbn [snd] in IH.
    destruct (IH rel_path filename) as (ds & -> & Hds).
    + unfold rel_path_of in *. rewrite !app_nil_r in *.
      rewrite map_app, concat_app. cbn [map concat].
      now rewrite app_nil_r.
    + exists (name :: ds). split; [now rewrite <- app_assoc|].
      now constructor.
Qed.

(** X20: a file that [scan_directory] returns lies under directories
    whose names [should_skip] keeps, has a name that ends in ".py", has a
    relative path that [should_skip] keeps, and was parsed; its path is the
    relative path and its priority is the priority of the file name alone,
    whatever the directories above it are called. *)
Theorem scan_tree_files (root : directory) (f : FileInfo) :
  In f (scan_tree parse root) ->
  exists dirs filename,
    path f = rel_path_of dirs filename /\
    Forall (fun name => should_skip name = false) dirs /\
    ends_with (py ".py") filename = true /\
    should_skip (path f) = false /\
    priority f = get_priority filename /\
    parse_file parse (path f) filename = Some f.
Proof.
  unfold scan_tree. intros Hin.
  apply (Permutation_in _ (scan_directory_perm _)) in Hin.
  apply in_flat_map in Hin as ([rel_path filename] & Hw & Hf).
  apply (walk_paths root []) in Hw as (dirs & -> & Hdirs).
  cbn [app] in Hf. unfold scan_file in Hf.
  destruct (ends_with (py ".py") filename) eqn:Epy; [|contradiction].
  cbn [negb] in Hf.
  destruct (should_skip (rel_path_of dirs filename)) eqn:Es; [contradiction|].
  destruct (parse_file parse (rel_path_of dirs filename) filename)
    as [g|] eqn:Ep; [|contradiction].
  destruct Hf as [<-|[]].
  assert (Hg : path g = rel_path_of dirs filename
               /\ priority g = get_priority filename).
  { unfold parse_file in Ep.
    destruct (parse (rel_path_of dirs filename)); [|discriminate].
    injection Ep as <-. now split. }
  destruct Hg as (Hpath & Hprio).
  exists dirs, filename. rewrite Hpath. auto 10.
Qed.

End ScanTree.

Section ScanTreeSample.

Import AnalyzeCode.

Lemma scan_tree_files_witness :
  let f := {| path := py "modeling_bert/heads.py"; priority := 99;
              classes := []; functions := []; imports := [];
              total_lines := 1 |} in
  In f (scan_tree sample_parse sample_tree) /\
  exists dirs filename,
    path f = rel_path_of dirs filename /\
    Forall (fun name => should_skip name = false) dirs /\
    ends_with (py ".py") filename = true /\
    should_skip (path f) = false /\
    priority f = get_priority filename /\
    parse_file sample_parse (path f) filename = Some f.
Proof.
  cbn zeta.
  assert (Hin : In {| path := py "modeling_bert/heads.py"; priority := 99;
                      classes := []; functions := []; imports := [];
                      total_lines := 1 |}
                   (scan_tree sample_parse sample_tree)).
  { vm_compute. auto. }
  split; [exact Hin|].
  exact (scan_tree_files sample_parse sample_tree _ Hin).
Defined.

End ScanTreeSample.

(* ================================================================== *)
(** * Properties of download_paper.py *)
(* ================================================================== *)

(** ** The URL that is downloaded *)

Section UrlRules.

Import DownloadPaper.

Lemma span_spec (p : ascii -> bool) (s : str) :
  s = fst (span p s) ++ snd (span p s) /\
  forallb p (fst (span p s)) = true /\
  (forall c r, snd (span p s) = c :: r -> p c = false).
Proof.
  induction s as [|c s IH]; cbn [span].
  - repeat split. intros c r H. discriminate.
  - destruct (p c) eqn:Ec.
    + destruct (span p s) as [run rest]. cbn [fst snd] in *.
      destruct IH as (Hs & Hrun & Hrest).
      repeat split; [now rewrite Hs at 1|cbn; now rewrite Ec|exact Hrest].
    + cbn [fst snd app forallb]. repeat split.
      intros c' r H. injection H as <- _. exact Ec.
Qed.

Lemma span_app (p : ascii -> bool) (run rest : str) :
  forallb p run = true ->
  (forall c r, rest = c :: r -> p c = false) ->
  span p (run ++ rest) = (run, rest).
Proof.
  intros Hrun Hrest. induction run as [|c run IH]; cbn [app].
  - destruct rest as [|c r]; [reflexivity|].
    cbn [span]. now rewrite (Hrest c r eq_refl).
  - cbn [forallb] in Hrun. apply andb_true_iff in Hrun as (Hc & Hrun).
    cbn [span]. rewrite Hc, (IH Hrun). reflexivity.
Qed.

Lemma skipn_prefix (p s : str) : skipn (length p) (p ++ s) = s.
Proof. induction p as [|c p IH]; [reflexivity|exact IH]. Qed.

Lemma starts_with_prefix (p s : str) : starts_with p (p ++ s) = true.
Proof. apply starts_with_app. now exists s. Qed.

(** The group of a match is a run of digits, a dot and a run of digits. *)
Lemma match_id_shape (prefix suffix s g : str) :
  match_id prefix suffix s = Some g ->
  exists d1 d2, g = d1 ++ py "." ++ d2 /\ arxiv_id d1 d2.
Proof.
  unfold match_id. destruct (starts_with prefix s); [|discriminate].
  pose proof (span_spec is_digit (skipn (length prefix) s)) as (_ & H1 & _).
  destruct (span is_digit (skipn (length prefix) s)) as [d1 r1].
  cbn [fst snd] in H1.
  destruct d1 as [|x d1]; [discriminate|].
  destruct r1 as [|c r2]; [discriminate|].
  destruct (Ascii.eqb c "."); [|discriminate].
  pose proof (span_spec is_digit r2) as (_ & H2 & _).
  destruct (span is_digit r2) as [d2 r3]. cbn [fst snd] in H2.
  destruct d2 as [|y d2]; [discriminate|].
  destruct (starts_with suffix r3); [|discriminate].
  intros E. injection E as <-.
  exists (x :: d1), (y :: d2). unfold arxiv_id.
  repeat split; try discriminate; assumption.
Qed.

(** A match with something required after the group is a match without. *)
Lemma match_id_any_suffix (prefix suffix s g : str) :
  match_id prefix suffix s = Some g -> match_id prefix [] s = Some g.
Proof.
  unfold match_id. destruct (starts_with prefix s); [|discriminate].
  destruct (span is_digit (skipn (length prefix) s)) as [d1 r1].
  destruct d1 as [|x d1]; [discriminate|].
  destruct r1 as [|c r2]; [discriminate|].
  destruct (Ascii.eqb c "."); [|discriminate].
  destruct (span is_digit r2) as [d2 r3].
  destruct d2 as [|y d2]; [discriminate|].
  cbn [starts_with]. now destruct (starts_with suffix r3).
Qed.

(** The match of an identifier that stands right after the prefix. *)
Lemma match_id_here (prefix d1 d2 rest : str) :
  arxiv_id d1 d2 ->
  (forall c r, rest = c :: r -> is_digit c = false) ->
  match_id prefix [] (prefix ++ d1 ++ py "." ++ d2 ++ rest)
  = Some (d1 ++ py "." ++ d2).
Proof.
  intros (N1 & N2 & H1 & H2) Hrest. unfold match_id.
  rewrite starts_with_prefix, skipn_prefix.
  rewrite (span_app is_digit d1 _ H1).
  2:{ intros c r E. injection E as <- _. reflexivity. }
  destruct d1 as [|x d1]; [congruence|].
  cbn [py list_ascii_of_string app]. rewrite Ascii.eqb_refl.
  rewrite (span_app is_digit d2 _ H2 Hrest).
  destruct d2 as [|y d2]; [congruence|]. reflexivity.
Qed.

Lemma match_id_head (prefix suffix s : str) :
  starts_with prefix s = false -> match_id prefix suffix s = None.
Proof. unfold match_id. now intros ->. Qed.

Lemma search_group_hit (m : str -> option str) (s g : str) :
  m s = Some g -> search_group m s = Some g.
Proof. intros H. destruct s; cbn [search_group]; now rewrite H. Qed.

Lemma search_group_next (m : str -> option str) (c : ascii) (t : str) :
  m (c :: t) = None -> search_group m (c :: t) = search_group m t.
Proof. intros H. cbn [search_group]. now rewrite H. Qed.

(** What is found was matched at some place of the string. *)
Lemma search_group_found (m : str -> option str) (s g : str) :
  search_group m s = Some g -> exists a t, s = a ++ t /\ m t = Some g.
Proof.
  induction s as [|c s IH]; cbn [search_group].
  - destruct (m []) eqn:E; [|discriminate].
    intros H. injection H as ->. now exists [], [].
  - destruct (m (c :: s)) eqn:E.
    + intros H. injection H as ->. now exists [], (c :: s).
    + intros H. destruct (IH H) as (a & t & -> & Ht).
      now exists (c :: a), t.
Qed.

(** A more permissive matcher finds something where a stricter one does. *)
Lemma search_group_weaken (m m' : str -> option str) (s : str) :
  (forall t g, m t = Some g -> m' t = Some g) ->
  search_group m' s = None -> search_group m s = None.
Proof.
  intros Hm. induction s as [|c s IH]; cbn [search_group].
  - destruct (m []) eqn:E; [|reflexivity].
    now rewrite (Hm _ _ E).
  - destruct (m (c :: s)) eqn:E; [now rewrite (Hm _ _ E)|].
    destruct (m' (c :: s)); [discriminate|exact IH].
Qed.

(** A prefix is not found in a string without its first character. *)
Lemma search_group_absent (c : ascii) (prefix suffix s : str) :
  forallb (fun x => negb (Ascii.eqb c x)) s = true ->
  search_group (match_id (c :: prefix) suffix) s = None.
Proof.
  induction s as [|x s IH]; cbn [forallb search_group]; intros H.
  - reflexivity.
  - apply andb_true_iff in H as (Hx & Hs). apply negb_true_iff in Hx.
    rewrite match_id_head by (cbn [starts_with]; now rewrite Hx).
    now apply IH.
Qed.

Lemma digits_without (c : ascii) (d : str) :
  is_digit c = false -> forallb is_digit d = true ->
  forallb (fun x => negb (Ascii.eqb c x)) d = true.
Proof.
  intros Hc Hd. apply forallb_forall. intros x Hx.
  rewrite forallb_forall in Hd. specialize (Hd x Hx).
  apply negb_true_iff. destruct (Ascii.eqb c x) eqn:E; [|reflexivity].
  apply Ascii.eqb_eq in E. congruence.
Qed.

Ltac skip_places :=
  repeat (rewrite search_group_next by (apply match_id_head; reflexivity)).

(** The searches of the patterns in a URL in canonical form. *)
Lemma search_abs_canonical (d1 d2 : str) :
  arxiv_id d1 d2 ->
  search_group (match_id (py "arxiv.org/abs/") [])
               (canonical_url (d1 ++ py "." ++ d2)) = None.
Proof.
  intros (_ & _ & H1 & H2). unfold canonical_url.
  cbn [py list_ascii_of_string app]. skip_places.
  apply search_group_absent.
  rewrite !forallb_app. cbn [forallb].
  rewrite !(digits_without "a") by (assumption || reflexivity).
  reflexivity.
Qed.

Lemma search_pdf_canonical (d1 d2 : str) :
  arxiv_id d1 d2 ->
  search_group (match_id (py "arxiv.org/pdf/") [])
               (canonical_url (d1 ++ py "." ++ d2))
  = Some (d1 ++ py "." ++ d2).
Proof.
  intros Hid. unfold canonical_url.
  cbn [py list_ascii_of_string app]. skip_places.
  apply search_group_hit. rewrite <- app_assoc.
  change (match_id (py "arxiv.org/pdf/") []
            (py "arxiv.org/pdf/" ++ d1 ++ py "." ++ d2 ++ py ".pdf")
          = Some (d1 ++ py "." ++ d2)).
  apply match_id_here; [exact Hid|].
  intros c r E. injection E as <- _. reflexivity.
Qed.

Lemma first_id_shape (patterns : list (str * str)) (url g : str) :
  first_id patterns url = Some g ->
  exists d1 d2, g = d1 ++ py "." ++ d2 /\ arxiv_id d1 d2.
Proof.
  induction patterns as [|[prefix suffix] rest IH]; cbn [first_id];
    [discriminate|].
  destruct (search_group (match_id prefix suffix) url) as [g'|] eqn:E;
    [|exact IH].
  intros H. injection H as ->.
  apply search_group_found in E as (a & t & _ & Ht).
  exact (match_id_shape _ _ _ _ Ht).
Qed.

Lemma first_id_canonical (d1 d2 : str) :
  arxiv_id d1 d2 ->
  first_id ARXIV_PATTERNS (canonical_url (d1 ++ py "." ++ d2))
  = Some (d1 ++ py "." ++ d2).
Proof.
  intros Hid. unfold ARXIV_PATTERNS. cbn [first_id].
  now rewrite (search_abs_canonical d1 d2 Hid),
              (search_pdf_canonical d1 d2 Hid).
Qed.

Lemma strip_between (c e : ascii) (m : str) :
  is_space c = false -> is_space e = false ->
  strip (c :: m ++ [e]) = c :: m ++ [e].
Proof.
  intros Hc He. unfold strip, rstrip. cbn [lstrip]. rewrite Hc.
  cbn [rev]. rewrite rev_app_distr. cbn [rev app lstrip]. rewrite He.
  change (e :: rev m ++ [c]) with ([e] ++ rev m ++ [c]).
  rewrite !rev_app_distr, rev_involutive. reflexivity.
Qed.

Lemma strip_canonical (g : str) : strip (canonical_url g) = canonical_url g.
Proof.
  unfold canonical_url.
  assert (E : py "https://arxiv.org/pdf/" ++ g ++ py ".pdf"
              = "h"%char :: (py "ttps://arxiv.org/pdf/" ++ g ++ py ".pd")
                            ++ ["f"%char]).
  { cbn [py list_ascii_of_string app]. now rewrite <- app_assoc. }
  rewrite E. now apply strip_between.
Qed.

(** X21: [normalize_arxiv_url] returns its argument, or the canonical URL
    "https://arxiv.org/pdf/ID.pdf" of an identifier ID made of digits, a
    dot and digits, nothing else of the argument surviving.  It maps its
    result to itself, and also reads the identifier in its result that it
    wrote there.  The third pattern decides nothing: the loop gives the
    same on the first two patterns alone. *)
Theorem normalize_arxiv_url_canonical (url : str) :
  (normalize_arxiv_url url = url \/
   exists d1 d2,
     arxiv_id d1 d2 /\
     first_id ARXIV_PATTERNS url = Some (d1 ++ py "." ++ d2) /\
     normalize_arxiv_url url = canonical_url (d1 ++ py "." ++ d2)) /\
  normalize_arxiv_url (normalize_arxiv_url url) = normalize_arxiv_url url /\
  first_id ARXIV_PATTERNS (normalize_arxiv_url url)
  = first_id ARXIV_PATTERNS url /\
  first_id ARXIV_PATTERNS url = first_id (firstn 2 ARXIV_PATTERNS) url.
Proof.
  assert (Htwo : first_id ARXIV_PATTERNS url
                 = first_id (firstn 2 ARXIV_PATTERNS) url).
  { unfold ARXIV_PATTERNS. cbn [first_id firstn].
    destruct (search_group (match_id (py "arxiv.org/abs/") []) url);
      [reflexivity|].
    destruct (search_group (match_id (py "arxiv.org/pdf/") []) url) eqn:E2;
      [reflexivity|].
    now rewrite (search_group_weaken _ _ url
                   (match_id_any_suffix (py "arxiv.org/pdf/") (py ".pdf"))
                   E2). }
  unfold normalize_arxiv_url.
  destruct (first_id ARXIV_PATTERNS url) as [g|] eqn:E.
  - destruct (first_id_shape _ _ _ E) as (d1 & d2 & -> & Hid).
    fold (canonical_url (d1 ++ py "." ++ d2)).
    rewrite (first_id_canonical d1 d2 Hid).
    split; [right; now exists d1, d2|]. split; [reflexivity|].
    split; [reflexivity|exact Htwo].
  - rewrite E. split; [now left|]. split; [reflexivity|].
    split; [reflexivity|exact Htwo].
Qed.

(** X22: [normalize_url] maps its result to itself; its result is the
    stripped argument or a canonical arXiv URL, and in the second case
    [extract_filename_from_url] names the file "arxiv_ID.pdf" after the
    identifier of the URL. *)
Theorem normalize_url_idempotent (url : str) :
  normalize_url (normalize_url url) = normalize_url url /\
  (normalize_url url = strip url \/
   exists d1 d2,
     arxiv_id d1 d2 /\
     normalize_url url = canonical_url (d1 ++ py "." ++ d2) /\
     extract_filename_from_url (normalize_url url)
     = py "arxiv_" ++ (d1 ++ py "." ++ d2) ++ py ".pdf").
Proof.
  unfold normalize_url. cbn zeta.
  destruct (occurs (py "arxiv.org") (strip url)) eqn:Ea.
  - unfold normalize_arxiv_url.
    destruct (first_id ARXIV_PATTERNS (strip url)) as [g|] eqn:E.
    + destruct (first_id_shape _ _ _ E) as (d1 & d2 & -> & Hid).
      fold (canonical_url (d1 ++ py "." ++ d2)).
      rewrite strip_canonical.
      assert (Ho : occurs (py "arxiv.org")
                          (canonical_url (d1 ++ py "." ++ d2)) = true).
      { apply occurs_app.
        exists (py "https://"),
               (py "/pdf/" ++ (d1 ++ py "." ++ d2) ++ py ".pdf").
        reflexivity. }
      rewrite Ho, (first_id_canonical d1 d2 Hid).
      split; [reflexivity|]. right. exists d1, d2.
      split; [exact Hid|]. split; [reflexivity|].
      unfold extract_filename_from_url.
      now rewrite (search_pdf_canonical d1 d2 Hid).
    + rewrite strip_idempotent, Ea, E. split; [reflexivity|now left].
  - assert (H : (if occurs (py "openreview.net/pdf") (strip url)
                 then strip url else strip url) = strip url)
      by now destruct (occurs (py "openreview.net/pdf") (strip url)).
    rewrite H, strip_idempotent, Ea, H. split; [reflexivity|now left].
Qed.

End UrlRules.

(** ** The name of the file *)

Section FileNames.

Import DownloadPaper.

(** The pieces of a split at one character do not hold it. *)
Lemma split_char_pieces (c : ascii) (s : str) :
  Forall (fun piece => ~ In c piece) (split [c] s).
Proof.
  unfold split. induction s as [|x s IH]; cbn [split_go].
  - constructor; [intros []|constructor].
  - cbn [starts_with length Nat.sub].
    destruct (Ascii.eqb c x) eqn:E; cbn [andb].
    + constructor; [intros []|exact IH].
    + destruct (split_go [c] 0 s) as [|p ps].
      * constructor; [|constructor]. intros [->|[]].
        now rewrite Ascii.eqb_refl in E.
      * inversion IH as [|? ? Hp Hps]; subst. constructor; [|exact Hps].
        intros [->|H]; [now rewrite Ascii.eqb_refl in E|now apply Hp].
Qed.

Lemma last_Forall {A : Type} (P : A -> Prop) (l : list A) (d : A) :
  Forall P l -> P d -> P (last l d).
Proof.
  intros Hl Hd. induction Hl as [|x l Hx Hl IH]; [exact Hd|].
  destruct l; [exact Hx|exact IH].
Qed.

Lemma class_without (p : ascii -> bool) (c : ascii) (s : str) :
  p c = false -> forallb p s = true -> ~ In c s.
Proof.
  intros Hc Hs Hin. rewrite forallb_forall in Hs.
  specialize (Hs c Hin). congruence.
Qed.

Lemma match_word_shape (prefix s w : str) :
  match_word prefix s = Some w -> w <> [] /\ forallb is_word w = true.
Proof.
  unfold match_word. destruct (starts_with prefix s); [|discriminate].
  pose proof (span_spec is_word (skipn (length prefix) s)) as (_ & H & _).
  destruct (fst (span is_word (skipn (length prefix) s))) as [|x r];
    [discriminate|].
  intros E. injection E as <-. split; [discriminate|exact H].
Qed.

(** X23: the file name of [extract_filename_from_url] is never empty,
    always ends in ".pdf" and never holds a "/", whatever the URL: the
    file lands in the directory it is joined to. *)
Theorem extract_filename_safe (url : str) :
  let name := extract_filename_from_url url in
  name <> [] /\
  ends_with (py ".pdf") name = true /\
  ~ In "/"%char name.
Proof.
  cbn zeta. unfold extract_filename_from_url.
  destruct (search_group (match_id (py "arxiv.org/pdf/") []) url)
    as [g|] eqn:Ea.
  { apply search_group_found in Ea as (a & t & _ & Ht).
    apply match_id_shape in Ht as (d1 & d2 & -> & _ & _ & H1 & H2).
    split; [discriminate|].
    split; [apply ends_with_app; eexists; now rewrite app_assoc|].
    rewrite !in_app_iff. intros [H|[[H|[H|H]]|H]].
    - cbn in H. intuition discriminate.
    - now apply (class_without is_digit "/" d1).
    - cbn in H. intuition discriminate.
    - now apply (class_without is_digit "/" d2).
    - cbn in H. intuition discriminate. }
  destruct (search_group (match_word (py "openreview.net/pdf?id=")) url)
    as [w|] eqn:Eo.
  { apply search_group_found in Eo as (a & t & _ & Ht).
    apply match_word_shape in Ht as (_ & Hw).
    split; [discriminate|].
    split; [apply ends_with_app; eexists; now rewrite app_assoc|].
    rewrite !in_app_iff. intros [H|[H|H]].
    - cbn in H. intuition discriminate.
    - now apply (class_without is_word "/" w).
    - cbn in H. intuition discriminate. }
  set (path := last (split (py "/") (hd [] (split (py "?") url))) []).
  assert (Hpath : ~ In "/"%char path).
  { apply (last_Forall (fun piece => ~ In "/"%char piece)).
    - apply (split_char_pieces "/").
    - intros []. }
  destruct path as [|c path]; cbn [truthy andb].
  - split; [discriminate|]. split; [reflexivity|].
    cbn. intuition discriminate.
  - destruct (ends_with (py ".pdf") (c :: path)) eqn:Ee; cbn [negb].
    + split; [discriminate|]. split; [exact Ee|exact Hpath].
    + split; [discriminate|].
      split; [apply ends_with_app; now eexists|].
      change (~ In "/"%char ((c :: path) ++ py ".pdf")).
      rewrite in_app_iff. intros [H|H]; [now apply Hpath|].
      cbn in H. intuition discriminate.
Qed.

End FileNames.

(** ** The attempts of [download_pdf] *)

Section AttemptLoop.

Import DownloadPaper.

Variable fetch : nat -> outcome.
Variable pdf_url : str.
Variable file : location.
Variable max_retries : nat.

(** An attempt that fails and is not the last one is followed by a wait
    and by the other attempts. *)
Lemma attempts_retry (todo attempt : nat) (last_error : option error) :
  retryable (fetch attempt) = true ->
  let d := attempts fetch pdf_url file max_retries (S todo) attempt
             last_error in
  let d' := attempts fetch pdf_url file max_retries todo (S attempt)
              (Some (error_of (fetch attempt))) in
  success d = success d' /\
  report d = report d' /\
  events d = Request attempt pdf_url ::
             (if attempt <? max_retries then [Sleep] else []) ++ events d'.
Proof.
  intros Hr. cbn zeta. cbn [attempts]. unfold retryable in Hr.
  destruct (fetch attempt) as [ct content w|code| | |]; cbn [error_of].
  - apply andb_true_iff in Hr as (Hc & Hw). apply negb_true_iff in Hw.
    subst w. rewrite Hc. cbn [negb]. rewrite !andb_false_r.
    unfold retry. cbn [success report events]. auto.
  - apply andb_true_iff in Hr as (H4 & H3).
    apply negb_true_iff in H4, H3. rewrite H4, H3.
    unfold retry. cbn [success report events]. auto.
  - unfold retry. cbn [success report events]. auto.
  - unfold retry. cbn [success report events]. auto.
  - unfold retry. cbn [success report events]. auto.
Qed.

(** The attempts before the first one that is not retried. *)
Lemma attempts_reach (gap : nat) : forall first todo last_error,
  (forall j, first <= j < first + gap -> retryable (fetch j) = true) ->
  first + gap <= max_retries ->
  exists last_error',
    let d := attempts fetch pdf_url file max_retries (gap + todo) first
               last_error in
    let d' := attempts fetch pdf_url file max_retries todo (first + gap)
                last_error' in
    success d = success d' /\
    report d = report d' /\
    events d = retried pdf_url first gap ++ events d'.
Proof.
  induction gap as [|gap IH]; intros first todo last_error Hr Hmax.
  - exists last_error. cbn zeta. rewrite Nat.add_0_r. cbn. auto.
  - destruct (IH (S first) todo (Some (error_of (fetch first))))
      as (e & Hs & Hm & He).
    + intros j Hj. apply Hr. lia.
    + lia.
    + exists e. cbn zeta in *.
      replace (first + S gap) with (S first + gap) by lia.
      destruct (attempts_retry (gap + todo) first last_error)
        as (Hs' & Hm' & He'); [apply Hr; lia|].
      cbn zeta in *. cbn [Nat.add].
      rewrite Hs', Hm', He', Hs, Hm, He.
      assert (Hlt : (first <? max_retries) = true)
        by (apply Nat.ltb_lt; lia).
      rewrite Hlt. cbn [retried app]. auto.
Qed.

(** A run of attempts that are all retried. *)
Lemma attempts_exhausted (todo : nat) : forall first last_error,
  first + todo = S max_retries ->
  (forall j, first <= j <= max_retries -> retryable (fetch j) = true) ->
  let d := attempts fetch pdf_url file max_retries todo first last_error in
  success d = false /\
  report d = GaveUp max_retries
               (match todo with
                | O => last_error
                | S _ => Some (error_of (fetch max_retries))
                end) /\
  events d = match todo with
             | O => []
             | S c => retried pdf_url first c ++ [Request max_retries pdf_url]
             end.
Proof.
  induction todo as [|todo IH]; intros first last_error Hsum Hr; cbn zeta.
  - cbn. auto.
  - destruct (attempts_retry todo first last_error) as (Hs & Hm & He);
      [apply Hr; lia|].
    cbn zeta in *. rewrite Hs, Hm, He.
    destruct (IH (S first) (Some (error_of (fetch first))))
      as (Hs' & Hm' & He'); [lia|intros j Hj; apply Hr; lia|].
    cbn zeta in *. rewrite Hs', Hm', He'.
    split; [reflexivity|]. destruct todo as [|todo].
    + assert (first = max_retries) by lia. subst first.
      rewrite Nat.ltb_irrefl. cbn. auto.
    + assert (Hlt : (first <? max_retries) = true)
        by (apply Nat.ltb_lt; lia).
      rewrite Hlt. cbn [retried app]. auto.
Qed.

(** Either every attempt is retried, or there is a first one that is
    not. *)
Lemma first_decisive (n : nat) :
  (forall j, 1 <= j <= n -> retryable (fetch j) = true) \/
  exists k, 1 <= k <= n /\ retryable (fetch k) = false /\
            forall j, 1 <= j < k -> retryable (fetch j) = true.
Proof.
  induction n as [|n IH].
  - left. intros j Hj. lia.
  - destruct IH as [IH|(k & Hk & Hd & Hb)].
    + destruct (retryable (fetch (S n))) eqn:E.
      * left. intros j Hj. destruct (Nat.eq_dec j (S n)) as [->|Hne];
          [exact E|apply IH; lia].
      * right. exists (S n). repeat split; try lia; [exact E|].
        intros j Hj. apply IH. lia.
    + right. exists k. repeat split; try lia; assumption.
Qed.

End AttemptLoop.

(** ** The runs of [download_pdf] *)

Section Downloads.

Import DownloadPaper.

Variable fetch : nat -> outcome.
Variable isdir : str -> bool.
Variable url : str.
Variable output_path : option str.
Variable max_retries : nat.

Lemma requested_app (a b : list event) :
  requested (a ++ b) = requested a ++ requested b.
Proof. apply flat_map_app. Qed.

Lemma sleeps_app (a b : list event) : sleeps (a ++ b) = sleeps a + sleeps b.
Proof. unfold sleeps. now rewrite filter_app, length_app. Qed.

Lemma saves_app (a b : list event) : saves (a ++ b) = saves a ++ saves b.
Proof. apply flat_map_app. Qed.

Lemma retried_events (u : str) (count : nat) : forall first,
  requested (retried u first count) = seq first count /\
  sleeps (retried u first count) = count /\
  saves (retried u first count) = [] /\
  forall a v, In (Request a v) (retried u first count) -> v = u.
Proof.
  induction count as [|c IH]; intros first; cbn [retried].
  - cbn. repeat split. intros a v [].
  - destruct (IH (S first)) as (Hr & Hs & Hv & Hu).
    unfold requested, sleeps, saves in *. cbn [flat_map filter length app seq].
    rewrite Hr, Hs, Hv. repeat split.
    intros a v [E|[E|Hin]]; [now injection E|discriminate|eauto].
Qed.

(** The run up to the first attempt that is not retried. *)
Lemma download_reach (k : nat) :
  1 <= k <= max_retries ->
  (forall j, 1 <= j < k -> retryable (fetch j) = true) ->
  exists last_error,
    let d := download_pdf fetch isdir url output_path max_retries in
    let d' := attempts fetch (normalize_url url)
                (output_file output_path isdir (normalize_url url))
                max_retries (S (max_retries - k)) k last_error in
    success d = success d' /\
    report d = report d' /\
    events d = retried (normalize_url url) 1 (k - 1) ++ events d'.
Proof.
  intros Hk Hr. unfold download_pdf. cbn zeta.
  destruct (attempts_reach fetch (normalize_url url)
              (output_file output_path isdir (normalize_url url))
              max_retries (k - 1) 1 (S (max_retries - k)) None)
    as (e & H).
  - intros j Hj. apply Hr. lia.
  - lia.
  - exists e. cbn zeta in H.
    replace (k - 1 + S (max_retries - k)) with max_retries in H by lia.
    replace (1 + (k - 1)) with k in H by lia.
    exact H.
Qed.

(** The attempt that is not retried. *)
Lemma attempt_decides (todo k : nat) (last_error : option error)
    (u : str) (file : location) :
  retryable (fetch k) = false ->
  let d := attempts fetch u file max_retries (S todo) k last_error in
  success d
  = match fetch k with
    | Served _ content _ => starts_with (py "%PDF") content
    | _ => false
    end /\
  report d
  = match fetch k with
    | Served content_type content _ =>
        if starts_with (py "%PDF") content
        then Downloaded file (length content)
        else if claims_pdf content_type then InvalidPdf
             else NotAPdf content_type
    | HTTPError code => if code =? 404 then NotFound u else AccessDenied u
    | _ => report d
    end /\
  events d
  = Request k u ::
    match fetch k with
    | Served _ content _ =>
        if starts_with (py "%PDF") content then [Save file content] else []
    | _ => []
    end.
Proof.
  intros Hr. cbn zeta. cbn [attempts]. unfold retryable in Hr.
  destruct (fetch k) as [ct content w|code| | |]; try discriminate.
  - unfold claims_pdf.
    destruct (starts_with (py "%PDF") content); cbn [negb andb] in *.
    + apply negb_false_iff in Hr. subst w. rewrite !andb_false_r. cbn. auto.
    + rewrite !andb_true_r.
      destruct (occurs (py "application/pdf") ct),
               (occurs (py "octet-stream") ct); cbn; auto.
  - destruct (code =? 404); [cbn; auto|].
    destruct (code =? 403); [cbn; auto|discriminate].
Qed.

(** X24: when the attempts before attempt [k] fail in a way that is
    retried and attempt [k] does not, attempt [k] decides the run.  The
    attempts 1 to [k] are requested, each but the last followed by a wait,
    and none after them.  The run succeeds exactly when attempt [k] is a
    response whose bytes start with "%PDF"; these bytes are then saved,
    unchanged.  A status 404 or 403 and a response without the signature
    end the run at once, with their own message. *)
Theorem download_pdf_decided (k : nat) :
  1 <= k <= max_retries ->
  (forall j, 1 <= j < k -> retryable (fetch j) = true) ->
  retryable (fetch k) = false ->
  let pdf_url := normalize_url url in
  let file := output_file output_path isdir pdf_url in
  let d := download_pdf fetch isdir url output_path max_retries in
  events d
  = retried pdf_url 1 (k - 1) ++
    Request k pdf_url ::
    match fetch k with
    | Served _ content _ =>
        if starts_with (py "%PDF") content then [Save file content] else []
    | _ => []
    end /\
  success d
  = match fetch k with
    | Served _ content _ => starts_with (py "%PDF") content
    | _ => false
    end /\
  report d
  = match fetch k with
    | Served content_type content _ =>
        if starts_with (py "%PDF") content
        then Downloaded file (length content)
        else if claims_pdf content_type then InvalidPdf
             else NotAPdf content_type
    | HTTPError code =>
        if code =? 404 then NotFound pdf_url else AccessDenied pdf_url
    | _ => report d
    end.
Proof.
  intros Hk Hr Hd. cbn zeta.
  destruct (download_reach k Hk Hr) as (e & Hs & Hm & He). cbn zeta in *.
  destruct (attempt_decides (max_retries - k) k e (normalize_url url)
              (output_file output_path isdir (normalize_url url)) Hd)
    as (Hs' & Hm' & He').
  cbn zeta in *. rewrite Hs, Hm, He, Hs', He'. repeat split.
  rewrite Hm'. destruct (fetch k); try reflexivity; now rewrite <- Hm.
Qed.

(** X25: when every attempt fails in a way that is retried, the run makes
    exactly [max_retries] requests, waits between them and not after the
    last one, saves nothing and fails with the error of the last attempt;
    with no attempt allowed it asks nothing and fails. *)
Theorem download_pdf_gives_up :
  (forall j, 1 <= j <= max_retries -> retryable (fetch j) = true) ->
  let d := download_pdf fetch isdir url output_path max_retries in
  success d = false /\
  report d = GaveUp max_retries
               (match max_retries with
                | O => None
                | S _ => Some (error_of (fetch max_retries))
                end) /\
  requested (events d) = seq 1 max_retries /\
  sleeps (events d) = max_retries - 1 /\
  saves (events d) = [].
Proof.
  intros Hr. cbn zeta. unfold download_pdf. cbn zeta.
  destruct (attempts_exhausted fetch (normalize_url url)
              (output_file output_path isdir (normalize_url url))
              max_retries max_retries 1 None)
    as (Hs & Hm & He); [lia|exact Hr|].
  cbn zeta in *. rewrite Hs, Hm, He. split; [reflexivity|].
  split; [reflexivity|].
  destruct max_retries as [|c]; [cbn; auto|].
  destruct (retried_events (normalize_url url) c 1) as (H1 & H2 & H3 & _).
  rewrite requested_app, sleeps_app, saves_app, H1, H2, H3.
  cbn [requested sleeps saves flat_map filter length app].
  split; [|split; [lia|reflexivity]].
  now rewrite seq_S.
Qed.

End Downloads.

Section DownloadBounds.

Import DownloadPaper.

Variable fetch : nat -> outcome.
Variable isdir : str -> bool.

(** What every run does, whatever the server answers. *)
Lemma download_pdf_shape (url : str) (output_path : option str)
    (max_retries : nat) :
  let pdf_url := normalize_url url in
  let file := output_file output_path isdir pdf_url in
  let d := download_pdf fetch isdir url output_path max_retries in
  exists count,
    count <= max_retries /\
    requested (events d) = seq 1 count /\
    sleeps (events d) = count - 1 /\
    (forall a u, In (Request a u) (events d) -> u = pdf_url) /\
    (forall j, 1 <= j < count -> retryable (fetch j) = true) /\
    (success d = false -> saves (events d) = []) /\
    (success d = true ->
     exists content_type content,
       fetch count = Served content_type content true /\
       starts_with (py "%PDF") content = true /\
       saves (events d) = [(file, content)] /\
       report d = Downloaded file (length content)).
Proof.
  cbn zeta.
  destruct (first_decisive fetch max_retries) as [Hall|(k & Hk & Hd & Hb)].
  - exists max_retries.
    unfold download_pdf. cbn zeta.
    destruct (attempts_exhausted fetch (normalize_url url)
                (output_file output_path isdir (normalize_url url))
                max_retries max_retries 1 None)
      as (Hs & Hm & He); [lia|exact Hall|].
    cbn zeta in *. rewrite Hs, He.
    split; [lia|].
    destruct max_retries as [|c].
    + split; [reflexivity|]. split; [reflexivity|].
      split; [intros a u []|]. split; [intros j Hj; lia|].
      split; [reflexivity|discriminate].
    + destruct (retried_events (normalize_url url) c 1)
        as (H1 & H2 & H3 & H4).
      rewrite requested_app, sleeps_app, saves_app, H1, H2, H3.
      cbn [requested sleeps saves flat_map filter length app].
      split; [now rewrite seq_S|]. split; [lia|].
      split; [|split; [|split; [reflexivity|discriminate]]].
      * intros a u Hin. apply in_app_or in Hin as [Hin|[E|[]]];
          [eauto|now injection E].
      * intros j Hj. apply Hall. lia.
  - exists k.
    destruct (download_reach fetch isdir url output_path max_retries k Hk Hb)
      as (e & Hs & Hm & He).
    cbn zeta in *.
    destruct (attempt_decides fetch max_retries (max_retries - k) k e
                (normalize_url url)
                (output_file output_path isdir (normalize_url url)) Hd)
      as (Hs' & Hm' & He').
    cbn zeta in *. rewrite Hs, Hm, He, Hs', He'.
    destruct (retried_events (normalize_url url) (k - 1) 1)
      as (H1 & H2 & H3 & H4).
    rewrite requested_app, sleeps_app, saves_app, H1, H2, H3.
    split; [lia|].
    assert (Hseq : forall m, 1 <= m -> seq 1 (m - 1) ++ [m] = seq 1 m).
    { intros [|m] Hpos; [lia|].
      replace (S m - 1) with m by lia. now rewrite seq_S. }
    assert (Hin : forall tail a u,
               (forall a' u', In (Request a' u') tail -> False) ->
               In (Request a u)
                  (retried (normalize_url url) 1 (k - 1)
                   ++ Request k (normalize_url url) :: tail) ->
               u = normalize_url url).
    { intros tail a u Ht H. apply in_app_or in H as [H|[E|H]];
        [eauto|now injection E|destruct (Ht _ _ H)]. }
    unfold retryable in Hd.
    destruct (fetch k) as [ct content w|code| | |] eqn:Ek; try discriminate.
    + destruct (starts_with (py "%PDF") content) eqn:Ec.
      * cbn [andb] in Hd. apply negb_false_iff in Hd. subst w.
        cbn [requested sleeps saves flat_map filter length app].
        rewrite Hseq by lia. split; [reflexivity|]. split; [lia|].
        split; [intros a u Hx; refine (Hin _ a u _ Hx);
                intros a' u' [E|[]]; discriminate|].
        split; [exact Hb|]. split; [discriminate|].
        intros _. exists ct, content. rewrite Hm', Ec. auto.
      * cbn [requested sleeps saves flat_map filter length app].
        rewrite Hseq by lia. split; [reflexivity|]. split; [lia|].
        split; [intros a u Hx; refine (Hin _ a u _ Hx); intros a' u' []|].
        split; [exact Hb|]. split; [reflexivity|discriminate].
    + cbn [requested sleeps saves flat_map filter length app].
      rewrite Hseq by lia. split; [reflexivity|]. split; [lia|].
      split; [intros a u Hx; refine (Hin _ a u _ Hx); intros a' u' []|].
      split; [exact Hb|]. split; [reflexivity|discriminate].
Qed.

(** X26: whatever the server answers, [download_pdf] asks for the
    normalized URL only, numbers its requests 1, 2, ... and makes at most
    [max_retries] of them, waits once between two requests and never
    after the last one, and saves nothing when it fails.  When it
    succeeds, the last request was answered with bytes that start with
    "%PDF", every request before it failed in a way that is retried, and
    exactly these bytes were saved, once, in the output file. *)
Theorem download_pdf_bounds (url : str) (output_path : option str)
    (max_retries : nat) :
  let pdf_url := normalize_url url in
  let file := output_file output_path isdir pdf_url in
  let d := download_pdf fetch isdir url output_path max_retries in
  exists count,
    count <= max_retries /\
    requested (events d) = seq 1 count /\
    sleeps (events d) = count - 1 /\
    (forall a u, In (Request a u) (events d) -> u = pdf_url) /\
    (forall j, 1 <= j < count -> retryable (fetch j) = true) /\
    (success d = false -> saves (events d) = []) /\
    (success d = true ->
     exists content_type content,
       fetch count = Served content_type content true /\
       starts_with (py "%PDF") content = true /\
       saves (events d) = [(file, content)] /\
       report d = Downloaded file (length content)).
Proof. apply download_pdf_shape. Qed.

(** X27: [main] ends with status 1 and asks nothing when no URL is given.
    With a URL it allows three attempts, so it makes at most three
    requests, and it ends with status 0 exactly when the download
    succeeded, which is when a file was saved. *)
Theorem download_main_status (argv : list str) :
  match main fetch isdir argv with
  | (status, None) => argv = [] /\ status = 1
  | (status, Some d) =>
      argv <> [] /\
      (status = 0 \/ status = 1) /\
      (status = 0 <-> success d = true) /\
      (status = 0 <-> saves (events d) <> []) /\
      length (requested (events d)) <= 3
  end.
Proof.
  destruct argv as [|url rest]; cbn [main]; [auto|].
  set (output_path := match rest with [] => None | p :: _ => Some p end).
  destruct (download_pdf_shape url output_path 3)
    as (count & Hc & Hr & _ & _ & _ & Hf & Ht).
  cbn zeta in *.
  set (d := download_pdf fetch isdir url output_path 3) in *.
  split; [discriminate|].
  rewrite Hr, length_seq.
  destruct (success d) eqn:Es.
  - destruct (Ht eq_refl) as (ct & content & _ & _ & Hsave & _).
    rewrite Hsave. repeat split; auto; try discriminate.
  - rewrite (Hf eq_refl). repeat split; auto; try discriminate; try congruence.
Qed.

End DownloadBounds.

Section DownloadSamples.

Import DownloadPaper.

Lemma download_pdf_decided_witness :
  let d := download_pdf third_time_lucky no_directory
             (py "https://arxiv.org/abs/2505.22596v2") None 3 in
  let pdf_url := py "https://arxiv.org/pdf/2505.22596.pdf" in
  let file := InCwd (py "arxiv_2505.22596.pdf") in
  events d
  = [Request 1 pdf_url; Sleep; Request 2 pdf_url; Sleep; Request 3 pdf_url;
     Save file (py "%PDF-1.7 ...")] /\
  success d = true /\
  report d = Downloaded file 12.
Proof.
  cbn zeta.
  assert (H1 : 1 <= 3 <= 3) by lia.
  assert (H2 : forall j, 1 <= j < 3 -> retryable (third_time_lucky j) = true).
  { intros j Hj. assert (E : j = 1 \/ j = 2) by lia.
    destruct E as [->| ->]; reflexivity. }
  assert (H3 : retryable (third_time_lucky 3) = false) by reflexivity.
  exact (download_pdf_decided third_time_lucky no_directory
           (py "https://arxiv.org/abs/2505.22596v2") None 3 3 H1 H2 H3).
Defined.

Lemma download_pdf_gives_up_witness :
  let d := download_pdf server_down no_directory
             (py "https://example.org/paper") None 2 in
  success d = false /\
  report d = GaveUp 2 (Some UrlFailure) /\
  requested (events d) = [1; 2] /\
  sleeps (events d) = 1 /\
  saves (events d) = [].
Proof.
  cbn zeta.
  exact (download_pdf_gives_up server_down no_directory
           (py "https://example.org/paper") None 2
           (fun j _ => eq_refl)).
Defined.

End DownloadSamples.

(* ================================================================== *)
(** * Further properties of the parser of analyze_code.py *)
(* ================================================================== *)

Section DottedNames.

Import AnalyzeCode.

Lemma attr_parts_dotted (attrs : list str) : forall base parts,
  attr_parts (dotted base attrs) parts
  = attr_parts base (parts ++ rev attrs).
Proof.
  unfold dotted.
  induction attrs as [|a attrs IH]; intros base parts; cbn [fold_left rev].
  - now rewrite app_nil_r.
  - rewrite IH. cbn [attr_parts]. now rewrite app_assoc.
Qed.

(** X28: [_get_attr_name] prints a dotted name as it is written: for the
    expression [id.a1. ... .an] it returns the names joined with dots, from
    the first to the last, and [_get_annotation] returns the same.  When
    the chain of attributes starts from an expression that is no name, a
    call or a subscript say, that expression is left out and only the
    attributes are printed. *)
Theorem get_attr_name_dotted (base : expr) (attrs : list str) :
  match base with
  | Name id =>
      get_attr_name (dotted base attrs) = join (py ".") (id :: attrs) /\
      get_annotation (dotted base attrs) = join (py ".") (id :: attrs)
  | Attribute _ _ => True
  | _ => get_attr_name (dotted base attrs) = join (py ".") attrs
  end.
Proof.
  assert (H : forall b, get_attr_name (dotted b attrs)
                        = join (py ".") (rev (attr_parts b (rev attrs)))).
  { intros b. unfold get_attr_name. now rewrite attr_parts_dotted. }
  destruct base as [id|v a|t|v sl|]; try exact I;
    rewrite H; cbn [attr_parts];
    try (now rewrite rev_involutive).
  rewrite rev_app_distr, rev_involutive. cbn [rev app].
  split; [reflexivity|].
  destruct attrs as [|a attrs] using rev_ind; [reflexivity|].
  unfold dotted. rewrite fold_left_app. cbn [fold_left get_annotation].
  unfold get_attr_name. cbn [attr_parts app].
  fold (dotted (Name id) attrs). rewrite attr_parts_dotted.
  cbn [attr_parts app rev].
  rewrite !rev_app_distr, rev_involutive. reflexivity.
Qed.

End DottedNames.

(** ** The priority headers of the skeleton *)

Section SkeletonHeaders.

Import AnalyzeCode.






























End SkeletonHeaders.
